(** * JsonFilter: the filter pipeline engine of [src/script.ts]

    A shallow embedding of the TypeScript sources of the JsonFilter
    application: the JavaScript values the pipeline folds over, the runtime
    primitives the code calls ([Array.prototype.at], [filter], [map],
    [flatMap], [String.prototype.slice], [trim], [JSON.stringify] with a
    replacer, [JSON.parse] with a reviver, [new Function]), the [App] class
    of the multi-source program and of the older single-source program, and
    the properties of the pipeline specification checked against them.

    Modelling conventions.
    - Numbers are integers ([Z]); strings are sequences of 8-bit code
      units ([string]).
    - A function value is what [new Function(params, body)] builds: its
      parameter names and its body text.  What running a body does is the
      JavaScript engine's business: the engine is a type class ([Engine]),
      every theorem holds for every engine, and [MiniJS] is an instance that
      interprets a small fragment of function bodies.
    - The mutable [App] object, [localStorage] and the calls made on the
      result viewer, the console and [alert] are one explicit state
      ([World]) threaded through a state-and-exception monad ([Handler]).
    - Objects carry their own properties only.  The members inherited
      from [Object.prototype] and [Array.prototype] are native functions
      and accessors, which the value model does not hold: their names are
      known ([JS.inherits]) and a read of one is [Stuck].
    - Timers are a table of pending callbacks kept by the event loop
      ([Debounce.Loop]); an element of the page is its tag, its text and
      its attributes ([Dom.Element]). *)

From Stdlib Require Import List String Ascii ZArith Bool Lia DecimalString.
From Stdlib Require DecimalFacts DecimalPos DecimalN DecimalZ DecimalNat.
Import ListNotations.

Local Open Scope string_scope.
Local Open Scope list_scope.
Local Open Scope Z_scope.

Set Implicit Arguments.

(** ** Strings: the [String.prototype] methods the code uses *)

Module Str.

Definition len (s : string) : Z := Z.of_nat (String.length s).

(** [s.indexOf(c)] for a one-character pattern: position of the first
    occurrence, [-1] when there is none. *)
Fixpoint indexOf (c : ascii) (s : string) : Z :=
  match s with
  | EmptyString => -1
  | String a rest =>
      if Ascii.eqb a c then 0
      else let i := indexOf c rest in if i <? 0 then -1 else i + 1
  end.

(** [s.lastIndexOf(c)]: position of the last occurrence, [-1] when there
    is none. *)
Fixpoint lastIndexOf (c : ascii) (s : string) : Z :=
  match s with
  | EmptyString => -1
  | String a rest =>
      let i := lastIndexOf c rest in
      if 0 <=? i then i + 1 else if Ascii.eqb a c then 0 else -1
  end.

(** Relative index of [slice]: a negative argument counts from the end,
    and the result is clamped to [0 .. len]. *)
Definition clamp (n i : Z) : Z :=
  if i <? 0 then Z.max (n + i) 0 else Z.min i n.

(** [s.slice(from, to)]. *)
Definition slice (s : string) (from to : Z) : string :=
  let n := len s in
  let a := clamp n from in
  let b := clamp n to in
  String.substring (Z.to_nat a) (Z.to_nat (b - a)) s.

(** The code units below 256 that are white space or line terminators:
    tab, line feed, vertical tab, form feed, carriage return, space and the
    no-break space U+00A0. *)
Definition is_space (a : ascii) : bool :=
  let n := nat_of_ascii a in
  ((9 <=? n)%nat && (n <=? 13)%nat) || (n =? 32)%nat || (n =? 160)%nat.

Fixpoint trimStart (s : string) : string :=
  match s with
  | EmptyString => EmptyString
  | String a rest => if is_space a then trimStart rest else s
  end.

Fixpoint trimEnd (s : string) : string :=
  match s with
  | EmptyString => EmptyString
  | String a rest =>
      match trimEnd rest with
      | EmptyString => if is_space a then EmptyString else String a EmptyString
      | t => String a t
      end
  end.

(** [s.trim()]. *)
Definition trim (s : string) : string := trimEnd (trimStart s).

(** [parts.join(sep)] on an array of strings. *)
Fixpoint join (sep : string) (parts : list string) : string :=
  match parts with
  | [] => ""
  | [p] => p
  | p :: rest => p ++ sep ++ join sep rest
  end.

Definition of_Z (n : Z) : string := NilZero.string_of_int (Z.to_int n).

(** The line feed character, as a string. *)
Definition nl : string := String (ascii_of_nat 10) EmptyString.

End Str.

(** ** Values *)

(** The function object [new Function(params, body)] evaluates to. *)
Record Func : Type := mkFunc {
  params : list string;
  body : string
}.

Unset Elimination Schemes.
Inductive Value : Type :=
| VUndefined
| VNull
| VBool (b : bool)
| VNum (n : Z)
| VStr (s : string)
| VArr (elems : list Value)
| VObj (props : list (string * Value))
| VFun (f : Func).
Set Elimination Schemes.

(** What a [throw] carries to the nearest [catch]. *)
Inductive Error : Type :=
| SyntaxError (text : string)
| TypeError (what : string)
| ReferenceError (name : string)
| RangeError
| UserThrow (v : Value).

(** The outcome of a computation: a value, a thrown exception, or [Stuck]
    when the program leaves the fragment that is modelled (a state that
    violates the declared TypeScript types, a number that is not an
    integer, a function body outside an engine's fragment).  [Stuck] is not
    an exception: no [catch] sees it. *)
Inductive Result (A : Type) : Type :=
| Ok (a : A)
| Thrown (e : Error)
| Stuck.
Arguments Thrown {A} e.
Arguments Stuck {A}.

Definition rbind {A B} (r : Result A) (k : A -> Result B) : Result B :=
  match r with
  | Ok a => k a
  | Thrown e => Thrown e
  | Stuck => Stuck
  end.

(** ** Runtime primitives on values *)

Module JS.

(** [ToBoolean]: the falsy values are [undefined], [null], [false], [0]
    and the empty string. *)
Definition truthy (v : Value) : bool :=
  match v with
  | VUndefined | VNull => false
  | VBool b => b
  | VNum n => negb (n =? 0)
  | VStr s => negb (String.eqb s "")
  | VArr _ | VObj _ | VFun _ => true
  end.

Definition typeof (v : Value) : string :=
  match v with
  | VUndefined => "undefined"
  | VNull => "object"
  | VBool _ => "boolean"
  | VNum _ => "number"
  | VStr _ => "string"
  | VArr _ | VObj _ => "object"
  | VFun _ => "function"
  end.

(** [Array.isArray]. *)
Definition isArray (v : Value) : bool :=
  match v with VArr _ => true | _ => false end.

(** [arr.at(i)]: a negative index counts from the end; [None] is
    [undefined]. *)
Definition at_ {A} (arr : list A) (i : Z) : option A :=
  let k := if i <? 0 then Z.of_nat (List.length arr) + i else i in
  if k <? 0 then None else nth_error arr (Z.to_nat k).

(** [arr[i]] read: only [0 <= i < length] names an element. *)
Definition get {A} (arr : list A) (i : Z) : option A :=
  if i <? 0 then None else nth_error arr (Z.to_nat i).

(** [arr.findIndex(p)], [None] for [-1]. *)
Fixpoint findIndex {A} (p : A -> bool) (arr : list A) : option nat :=
  match arr with
  | [] => None
  | x :: rest =>
      if p x then Some O
      else match findIndex p rest with
           | Some i => Some (S i)
           | None => None
           end
  end.

(** [arr[i] = x] for an index inside the array. *)
Fixpoint set_nth {A} (i : nat) (x : A) (arr : list A) : list A :=
  match arr, i with
  | [], _ => []
  | _ :: rest, O => x :: rest
  | y :: rest, S j => y :: set_nth j x rest
  end.

(** [arr.splice(i, 1)] for [0 <= i]: removes the element at [i] when there
    is one. *)
Fixpoint splice1 {A} (i : nat) (arr : list A) : list A :=
  match arr, i with
  | [], _ => []
  | _ :: rest, O => rest
  | y :: rest, S j => y :: splice1 j rest
  end.

(** Function source text, as [CreateDynamicFunction] assembles it and
    [Function.prototype.toString] returns it. *)
Definition function_toString (f : Func) : string :=
  ("function anonymous(" ++ Str.join "," (params f) ++ Str.nl ++ ") {" ++ Str.nl
   ++ body f ++ Str.nl ++ "}")%string.

(** [ToString] on values. *)
Fixpoint toString (v : Value) : string :=
  match v with
  | VUndefined => "undefined"
  | VNull => "null"
  | VBool true => "true"
  | VBool false => "false"
  | VNum n => Str.of_Z n
  | VStr s => s
  | VArr elems =>
      Str.join ","
        (List.map (fun e => match e with
                            | VUndefined | VNull => ""
                            | _ => toString e
                            end) elems)
  | VObj _ => "[object Object]"
  | VFun f => function_toString f
  end.

(** Own property lookup in an object's property list. *)
Fixpoint lookup (key : string) (props : list (string * Value)) : option Value :=
  match props with
  | [] => None
  | (k, v) :: rest => if String.eqb k key then Some v else lookup key rest
  end.

(** The array index a property key denotes, if it is the canonical
    decimal form of a natural number. *)
Definition array_index (key : string) : option nat :=
  match NilZero.uint_of_string key with
  | Some d =>
      if String.eqb (NilZero.string_of_uint (Nat.to_uint (Nat.of_uint d))) key
      then Some (Nat.of_uint d) else None
  | None => None
  end.

(** The names of the members that every object inherits from
    [Object.prototype]. *)
Definition object_members : list string :=
  ["constructor"; "__defineGetter__"; "__defineSetter__"; "hasOwnProperty";
   "__lookupGetter__"; "__lookupSetter__"; "isPrototypeOf";
   "propertyIsEnumerable"; "toString"; "valueOf"; "__proto__";
   "toLocaleString"]%string.

(** The names of the members that an array inherits from
    [Array.prototype], before those of [Object.prototype]. *)
Definition array_members : list string :=
  ["constructor"; "at"; "concat"; "copyWithin"; "fill"; "find"; "findIndex";
   "findLast"; "findLastIndex"; "lastIndexOf"; "pop"; "push"; "reverse";
   "shift"; "unshift"; "slice"; "sort"; "splice"; "includes"; "indexOf";
   "join"; "keys"; "entries"; "values"; "forEach"; "filter"; "flat";
   "flatMap"; "map"; "every"; "some"; "reduce"; "reduceRight";
   "toLocaleString"; "toString"; "toReversed"; "toSorted"; "toSpliced";
   "with"]%string.

(** Does [data] find a member named [k] on its prototype chain? *)
Definition inherits (data : Value) (k : string) : bool :=
  match data with
  | VObj _ => existsb (String.eqb k) object_members
  | VArr _ => existsb (String.eqb k) (array_members ++ object_members)
  | _ => false
  end.

(** [data[key]] for a [data] that passed the guard of the [select] case:
    property read with [ToPropertyKey] applied to the key.  An own property
    comes first; a name that is found on the prototype chain instead reads
    a native function or accessor, which the value model does not hold:
    that read is [Stuck].  Any other name reads [undefined]. *)
Definition index (data key : Value) : Result Value :=
  let k := toString key in
  match data with
  | VObj props =>
      match lookup k props with
      | Some v => Ok v
      | None => if inherits data k then Stuck else Ok VUndefined
      end
  | VArr elems =>
      if String.eqb k "length" then Ok (VNum (Z.of_nat (List.length elems)))
      else match array_index k with
           | Some i => Ok (nth i elems VUndefined)
           | None => if inherits data k then Stuck else Ok VUndefined
           end
  | _ => Ok VUndefined
  end.

End JS.

(** ** The JavaScript engine *)

(** The two services the program asks of the engine: parse the text of a
    function body ([new Function] throws a [SyntaxError] when it does not
    parse), and run a function on arguments.  A call is a function of the
    callee and its arguments: transforms are taken to have no effect on the
    application state. *)
Class Engine : Type := {
  compiles : list string -> string -> bool;
  call : Func -> list Value -> Result Value
}.

Section WithEngine.
Context {engine : Engine}.

(** [new Function(ps, text)]: [ps] is the array passed as first argument,
    whose elements become the parameter names. *)
Definition new_Function (ps : list string) (text : string) : Result Func :=
  if compiles ps text then Ok (mkFunc ps text) else Thrown (SyntaxError text).

(** [arr.filter(f)]: [f] receives the element, its index and the array. *)
Fixpoint filter_from (f : Func) (whole : Value) (i : Z) (l : list Value)
  : Result (list Value) :=
  match l with
  | [] => Ok []
  | x :: rest =>
      rbind (call f [x; VNum i; whole]) (fun r =>
      rbind (filter_from f whole (i + 1) rest) (fun kept =>
      Ok (if JS.truthy r then x :: kept else kept)))
  end.

Definition array_filter (f : Func) (l : list Value) : Result (list Value) :=
  filter_from f (VArr l) 0 l.

(** [arr.map(f)]. *)
Fixpoint map_from (f : Func) (whole : Value) (i : Z) (l : list Value)
  : Result (list Value) :=
  match l with
  | [] => Ok []
  | x :: rest =>
      rbind (call f [x; VNum i; whole]) (fun y =>
      rbind (map_from f whole (i + 1) rest) (fun ys => Ok (y :: ys)))
  end.

Definition array_map (f : Func) (l : list Value) : Result (list Value) :=
  map_from f (VArr l) 0 l.

(** [arr.flatMap(f)]: map, then flatten exactly one level. *)
Fixpoint flatMap_from (f : Func) (whole : Value) (i : Z) (l : list Value)
  : Result (list Value) :=
  match l with
  | [] => Ok []
  | x :: rest =>
      rbind (call f [x; VNum i; whole]) (fun y =>
      rbind (flatMap_from f whole (i + 1) rest) (fun ys =>
      Ok (match y with
          | VArr inner => inner ++ ys
          | _ => y :: ys
          end)))
  end.

Definition array_flatMap (f : Func) (l : list Value) : Result (list Value) :=
  flatMap_from f (VArr l) 0 l.

End WithEngine.

(** ** JSON *)

Module JSON.

Definition hex_digit (n : nat) : ascii :=
  ascii_of_nat (if (n <? 10)%nat then 48 + n else 87 + n).

(** The escape of one code unit inside a JSON string literal
    ([QuoteJSONString]). *)
Definition escape (a : ascii) : string :=
  let n := nat_of_ascii a in
  if (n =? 8)%nat then "\b"
  else if (n =? 9)%nat then "\t"
  else if (n =? 10)%nat then "\n"
  else if (n =? 12)%nat then "\f"
  else if (n =? 13)%nat then "\r"
  else if (n =? 34)%nat then String "\" (String (ascii_of_nat 34) "")
  else if (n =? 92)%nat then "\\"
  else if (n <? 32)%nat then
    "\u00" ++ String (hex_digit (n / 16)) (String (hex_digit (n mod 16)) "")
  else String a "".

Fixpoint escape_all (s : string) : string :=
  match s with
  | EmptyString => ""
  | String a rest => escape a ++ escape_all rest
  end.

Definition dq : string := String (ascii_of_nat 34) "".

Definition quote (s : string) : string := dq ++ escape_all s ++ dq.

(** [SerializeJSONArray]: an element that serializes to [undefined] is
    written [null]. *)
Fixpoint serialize_elems (ser : string -> Value -> Result (option string))
  (i : Z) (elems : list Value) : Result (list string) :=
  match elems with
  | [] => Ok []
  | x :: rest =>
      rbind (ser (Str.of_Z i) x) (fun r =>
      rbind (serialize_elems ser (i + 1) rest) (fun parts =>
      Ok (match r with Some t => t | None => "null" end :: parts)))
  end.

(** [SerializeJSONObject]: a property that serializes to [undefined] is
    left out. *)
Fixpoint serialize_props (ser : string -> Value -> Result (option string))
  (props : list (string * Value)) : Result (list string) :=
  match props with
  | [] => Ok []
  | (k, v) :: rest =>
      rbind (ser k v) (fun r =>
      rbind (serialize_props ser rest) (fun parts =>
      Ok (match r with
          | Some t => (quote k ++ ":" ++ t)%string :: parts
          | None => parts
          end)))
  end.

(** [SerializeJSONProperty] with a replacer function: the replacer sees
    the key and the value first, and what it returns is serialized.  The
    recursion depth is bounded by [fuel]; [Stuck] when it runs out. *)
Fixpoint SerializeJSONProperty (fuel : nat) (replacer : string -> Value -> Value)
  (key : string) (held : Value) : Result (option string) :=
  match fuel with
  | O => Stuck
  | S fuel' =>
      match replacer key held with
      | VNull => Ok (Some "null")
      | VBool true => Ok (Some "true")
      | VBool false => Ok (Some "false")
      | VStr s => Ok (Some (quote s))
      | VNum n => Ok (Some (Str.of_Z n))
      | VArr elems =>
          rbind (serialize_elems (SerializeJSONProperty fuel' replacer) 0 elems)
            (fun parts => Ok (Some ("[" ++ Str.join "," parts ++ "]")%string))
      | VObj props =>
          rbind (serialize_props (SerializeJSONProperty fuel' replacer) props)
            (fun parts => Ok (Some ("{" ++ Str.join "," parts ++ "}")%string))
      | VUndefined | VFun _ => Ok None
      end
  end.

(** Nesting depth of a value. *)
Fixpoint depth (v : Value) : nat :=
  match v with
  | VArr elems => S (list_max (List.map depth elems))
  | VObj props => S (list_max (List.map (fun kv => depth (snd kv)) props))
  | _ => O
  end.

(** [JSON.stringify(value, replacer)]; [None] is [undefined]. *)
Definition stringify (value : Value) (replacer : string -> Value -> Value)
  : Result (option string) :=
  SerializeJSONProperty (S (depth value)) replacer "" value.

(** *** Parsing *)

Definition is_ws (a : ascii) : bool :=
  let n := nat_of_ascii a in
  (n =? 32)%nat || (n =? 9)%nat || (n =? 10)%nat || (n =? 13)%nat.

Fixpoint skip_ws (s : string) : string :=
  match s with
  | String a rest => if is_ws a then skip_ws rest else s
  | EmptyString => s
  end.

Definition hex_value (a : ascii) : option nat :=
  let n := nat_of_ascii a in
  if (48 <=? n)%nat && (n <=? 57)%nat then Some (n - 48)%nat
  else if (97 <=? n)%nat && (n <=? 102)%nat then Some (n - 87)%nat
  else if (65 <=? n)%nat && (n <=? 70)%nat then Some (n - 55)%nat
  else None.

Definition unicode_escape (h1 h2 h3 h4 : ascii) : Result ascii :=
  match hex_value h1, hex_value h2, hex_value h3, hex_value h4 with
  | Some a, Some b, Some c, Some d =>
      if ((a =? 0) && (b =? 0))%nat then Ok (ascii_of_nat (16 * c + d))
      else Stuck
  | _, _, _, _ => Thrown (SyntaxError "bad unicode escape")
  end.

(** The characters of a string literal after its opening quote, up to and
    including the closing quote; returns the string and the rest of the
    input. *)
Fixpoint parse_chars (s : string) : Result (string * string) :=
  match s with
  | EmptyString => Thrown (SyntaxError "unterminated string")
  | String a rest =>
      if (nat_of_ascii a =? 34)%nat then Ok ("", rest)
      else if (nat_of_ascii a =? 92)%nat then
        match rest with
        | String e rest' =>
            let simple (c : nat) :=
              rbind (parse_chars rest') (fun r =>
              Ok (String (ascii_of_nat c) (fst r), snd r)) in
            if (nat_of_ascii e =? 34)%nat then simple 34%nat
            else if (nat_of_ascii e =? 92)%nat then simple 92%nat
            else if (nat_of_ascii e =? 47)%nat then simple 47%nat
            else if (nat_of_ascii e =? 98)%nat then simple 8%nat
            else if (nat_of_ascii e =? 102)%nat then simple 12%nat
            else if (nat_of_ascii e =? 110)%nat then simple 10%nat
            else if (nat_of_ascii e =? 114)%nat then simple 13%nat
            else if (nat_of_ascii e =? 116)%nat then simple 9%nat
            else if (nat_of_ascii e =? 117)%nat then
              match rest' with
              | String h1 (String h2 (String h3 (String h4 rest''))) =>
                  rbind (unicode_escape h1 h2 h3 h4) (fun c =>
                  rbind (parse_chars rest'') (fun r =>
                  Ok (String c (fst r), snd r)))
              | _ => Thrown (SyntaxError "bad unicode escape")
              end
            else Thrown (SyntaxError "bad escape")
        | EmptyString => Thrown (SyntaxError "unterminated string")
        end
      else if (nat_of_ascii a <? 32)%nat then
        Thrown (SyntaxError "control character in string")
      else
        rbind (parse_chars rest) (fun r => Ok (String a (fst r), snd r))
  end.

Definition is_digit (a : ascii) : bool :=
  let n := nat_of_ascii a in (48 <=? n)%nat && (n <=? 57)%nat.

Fixpoint take_digits (s : string) : string * string :=
  match s with
  | String a rest =>
      if is_digit a then let r := take_digits rest in (String a (fst r), snd r)
      else ("", s)
  | EmptyString => ("", s)
  end.

(** A JSON number.  Only integers are in the value model: a fraction or an
    exponent is [Stuck]. *)
Definition parse_number (s : string) : Result (Value * string) :=
  let (neg, s1) :=
    match s with
    | String a rest => if (nat_of_ascii a =? 45)%nat then (true, rest) else (false, s)
    | EmptyString => (false, s)
    end in
  let (ds, rest) := take_digits s1 in
  match ds with
  | EmptyString => Thrown (SyntaxError "digit expected")
  | String d more =>
      if (nat_of_ascii d =? 48)%nat && negb (String.eqb more "")
      then Thrown (SyntaxError "leading zero")
      else
        match rest with
        | String c _ =>
            if (nat_of_ascii c =? 46)%nat || (nat_of_ascii c =? 101)%nat
               || (nat_of_ascii c =? 69)%nat
            then Stuck
            else Ok (VNum ((if neg then -1 else 1)
                           * Z.of_N (N.of_uint
                               (match NilZero.uint_of_string ds with
                                | Some u => u | None => Decimal.Nil end))), rest)
        | EmptyString =>
            Ok (VNum ((if neg then -1 else 1)
                      * Z.of_N (N.of_uint
                          (match NilZero.uint_of_string ds with
                           | Some u => u | None => Decimal.Nil end))), rest)
        end
  end.

(** Expect the keyword [kw] at the head of [s]. *)
Definition keyword (kw : string) (v : Value) (s : string) : Result (Value * string) :=
  if String.prefix kw s
  then Ok (v, String.substring (String.length kw) (String.length s - String.length kw) s)
  else Thrown (SyntaxError "unexpected token").

(** Property definition on the object under construction: a repeated key
    overwrites the earlier value in place. *)
Fixpoint define (k : string) (v : Value) (props : list (string * Value))
  : list (string * Value) :=
  match props with
  | [] => [(k, v)]
  | (k', v') :: rest =>
      if String.eqb k' k then (k, v) :: rest else (k', v') :: define k v rest
  end.

(** The elements of an array after the first, up to the closing bracket. *)
Fixpoint parse_elems (pv : string -> Result (Value * string)) (fuel : nat)
  (s : string) (acc : list Value) : Result (Value * string) :=
  match fuel with
  | O => Stuck
  | S fuel' =>
      match skip_ws s with
      | String c rest =>
          if (nat_of_ascii c =? 93)%nat then Ok (VArr (rev acc), rest)
          else if (nat_of_ascii c =? 44)%nat then
            rbind (pv rest) (fun r => parse_elems pv fuel' (snd r) (fst r :: acc))
          else Thrown (SyntaxError "expected , or ]")
      | EmptyString => Thrown (SyntaxError "unterminated array")
      end
  end.

(** One member [ "key" : value ] of an object. *)
Definition parse_member (pv : string -> Result (Value * string)) (s : string)
  : Result ((string * Value) * string) :=
  match skip_ws s with
  | String q rest =>
      if (nat_of_ascii q =? 34)%nat then
        rbind (parse_chars rest) (fun kr =>
        match skip_ws (snd kr) with
        | String c rest' =>
            if (nat_of_ascii c =? 58)%nat
            then rbind (pv rest') (fun vr => Ok ((fst kr, fst vr), snd vr))
            else Thrown (SyntaxError "expected :")
        | EmptyString => Thrown (SyntaxError "expected :")
        end)
      else Thrown (SyntaxError "expected property name")
  | EmptyString => Thrown (SyntaxError "expected property name")
  end.

(** The members of an object after the first, up to the closing brace. *)
Fixpoint parse_members (pv : string -> Result (Value * string)) (fuel : nat)
  (s : string) (acc : list (string * Value)) : Result (Value * string) :=
  match fuel with
  | O => Stuck
  | S fuel' =>
      match skip_ws s with
      | String c rest =>
          if (nat_of_ascii c =? 125)%nat then Ok (VObj acc, rest)
          else if (nat_of_ascii c =? 44)%nat then
            rbind (parse_member pv rest) (fun r =>
            parse_members pv fuel' (snd r) (define (fst (fst r)) (snd (fst r)) acc))
          else Thrown (SyntaxError "expected , or }")
      | EmptyString => Thrown (SyntaxError "unterminated object")
      end
  end.

(** A JSON value with the white space before it.  [fuel] bounds the
    nesting of the value and the number of elements of its arrays and
    objects; the length of the text is enough for the text of any value
    ([parse_print], [size_le_length]). *)
Fixpoint parse_value (fuel : nat) (s : string) : Result (Value * string) :=
  match fuel with
  | O => Stuck
  | S fuel' =>
      match skip_ws s with
      | EmptyString => Thrown (SyntaxError "unexpected end of input")
      | String c rest =>
          let n := nat_of_ascii c in
          if (n =? 34)%nat then
            rbind (parse_chars rest) (fun r => Ok (VStr (fst r), snd r))
          else if (n =? 91)%nat then
            match skip_ws rest with
            | String c' rest' =>
                if (nat_of_ascii c' =? 93)%nat then Ok (VArr [], rest')
                else rbind (parse_value fuel' rest) (fun r =>
                     parse_elems (parse_value fuel') fuel' (snd r) [fst r])
            | EmptyString => Thrown (SyntaxError "unterminated array")
            end
          else if (n =? 123)%nat then
            match skip_ws rest with
            | String c' rest' =>
                if (nat_of_ascii c' =? 125)%nat then Ok (VObj [], rest')
                else rbind (parse_member (parse_value fuel') rest) (fun r =>
                     parse_members (parse_value fuel') fuel' (snd r) [fst r])
            | EmptyString => Thrown (SyntaxError "unterminated object")
            end
          else if (n =? 116)%nat then keyword "true" (VBool true) (String c rest)
          else if (n =? 102)%nat then keyword "false" (VBool false) (String c rest)
          else if (n =? 110)%nat then keyword "null" VNull (String c rest)
          else if (n =? 45)%nat || is_digit c then parse_number (String c rest)
          else Thrown (SyntaxError "unexpected token")
      end
  end.

(** The text as a whole is one value, with white space around it. *)
Definition parse_text (text : string) : Result Value :=
  rbind (parse_value (S (String.length text)) text) (fun r =>
  match skip_ws (snd r) with
  | EmptyString => Ok (fst r)
  | String _ _ => Thrown (SyntaxError "unexpected token after value")
  end).

(** The elements of an array under [InternalizeJSONProperty]: each is
    internalized under its index as name. *)
Fixpoint internalize_elems (walk : string -> Value -> Result Value)
  (i : Z) (elems : list Value) : Result (list Value) :=
  match elems with
  | [] => Ok []
  | x :: rest =>
      rbind (walk (Str.of_Z i) x) (fun x' =>
      rbind (internalize_elems walk (i + 1) rest) (fun rest' =>
      Ok (x' :: rest')))
  end.

(** The properties of an object: a property that comes back [undefined]
    is deleted. *)
Fixpoint internalize_props (walk : string -> Value -> Result Value)
  (props : list (string * Value)) : Result (list (string * Value)) :=
  match props with
  | [] => Ok []
  | (k, x) :: rest =>
      rbind (walk k x) (fun x' =>
      rbind (internalize_props walk rest) (fun rest' =>
      Ok (match x' with
          | VUndefined => rest'
          | _ => (k, x') :: rest'
          end)))
  end.

(** [InternalizeJSONProperty]: the reviver is applied bottom-up, to the
    children of a value before the value itself.  In an array a deleted
    element leaves [undefined] at its index. *)
Fixpoint internalize (reviver : string -> Value -> Result Value)
  (name : string) (val : Value) {struct val} : Result Value :=
  match val with
  | VArr elems =>
      rbind (internalize_elems (internalize reviver) 0 elems)
        (fun elems' => reviver name (VArr elems'))
  | VObj props =>
      rbind (internalize_props (internalize reviver) props)
        (fun props' => reviver name (VObj props'))
  | _ => reviver name val
  end.

(** [JSON.parse(text, reviver)]. *)
Definition parse (text : string) (reviver : string -> Value -> Result Value)
  : Result Value :=
  rbind (parse_text text) (fun v => internalize reviver "" v).

(** *** The text of a JSON value

    What follows serves the proofs that parsing inverts serialization. *)

(** The text of a JSON tree, as [JSON.stringify] writes it without a
    replacer; [undefined] and functions are written as they are inside an
    array. *)
Fixpoint print (v : Value) : string :=
  match v with
  | VUndefined | VNull | VFun _ => "null"
  | VBool true => "true"
  | VBool false => "false"
  | VNum n => Str.of_Z n
  | VStr s => quote s
  | VArr elems => "[" ++ Str.join "," (List.map print elems) ++ "]"
  | VObj props =>
      "{" ++ Str.join ","
               (List.map (fun kv => (quote (fst kv) ++ ":" ++ print (snd kv))%string) props)
          ++ "}"
  end.

(** Number of nodes of a tree. *)
Fixpoint size (v : Value) : nat :=
  match v with
  | VArr elems => S (list_sum (List.map size elems))
  | VObj props => S (list_sum (List.map (fun kv => size (snd kv)) props))
  | _ => 1
  end.

Fixpoint distinct (keys : list string) : bool :=
  match keys with
  | [] => true
  | k :: rest => negb (existsb (String.eqb k) rest) && distinct rest
  end.

(** The values JSON texts denote: no [undefined], no function, no object
    with a repeated key. *)
Fixpoint is_json (v : Value) : bool :=
  match v with
  | VUndefined | VFun _ => false
  | VArr elems => forallb is_json elems
  | VObj props =>
      forallb (fun kv => is_json (snd kv)) props && distinct (List.map fst props)
  | _ => true
  end.

(** What may follow a value inside a text: nothing, a comma, a closing
    bracket or brace. *)
Definition delimited (s : string) : bool :=
  match s with
  | EmptyString => true
  | String c _ =>
      let n := nat_of_ascii c in
      (n =? 44)%nat || (n =? 93)%nat || (n =? 125)%nat
  end.

(** No digit comes next. *)
Definition no_digit_ahead (rest : string) : Prop :=
  match rest with
  | EmptyString => True
  | String c _ => is_digit c = false
  end.

(** The separators and parts after the first part of a [join]. *)
Definition after_first (parts : list string) (tail : string) : string :=
  fold_right (fun p acc => ("," ++ p ++ acc)%string) tail parts.

(** The text of one member of an object. *)
Definition member_text (kv : string * Value) : string :=
  (quote (fst kv) ++ ":" ++ print (snd kv))%string.

End JSON.

(** ** Debounced calls *)

(** [debounce(func, timeout)] hands back a function that, on every call,
    cancels the timer of the call before and sets one that will pass the
    arguments on to [func].  The timers belong to the event loop, which is
    modelled as far as [setTimeout] and [clearTimeout] go. *)
Module Debounce.
Section Debounce.

(** The arguments of a call. *)
Variable A : Type.

(** A pending timer: its handle, the time at which it is due, and the
    arguments that its callback [() => func.apply(this, args)] passes on. *)
Record Timer : Type := mkTimer {
  handle : nat;
  due : Z;
  args : A
}.

(** The event loop: the next free handle, the pending timers in the order
    in which they fire, and the calls of [func] made so far, each with its
    time. *)
Record Loop : Type := mkLoop {
  next : nat;
  pending : list Timer;
  calls : list (Z * A)
}.

Definition start : Loop := mkLoop 1 [] [].

(** Timers fire in the order of their due times, timers due at the same
    time in the order in which they were set. *)
Fixpoint insert (t : Timer) (l : list Timer) : list Timer :=
  match l with
  | [] => [t]
  | x :: rest => if due t <? due x then t :: l else x :: insert t rest
  end.

(** [setTimeout(callback, delay)] at the time [now]; a negative delay
    counts as zero. *)
Definition setTimeout (now delay : Z) (a : A) (L : Loop) : nat * Loop :=
  (next L,
   mkLoop (S (next L)) (insert (mkTimer (next L) (now + Z.max 0 delay) a) (pending L))
     (calls L)).

(** [clearTimeout(timer)]: [None] is the value of the variable [timer]
    before its first assignment; a handle that is not pending is ignored. *)
Definition clearTimeout (timer : option nat) (L : Loop) : Loop :=
  match timer with
  | None => L
  | Some h =>
      mkLoop (next L)
        (List.filter (fun t => negb (Nat.eqb (handle t) h)) (pending L))
        (calls L)
  end.

(** The timers due by the time [now] fire, in order. *)
Fixpoint fire (now : Z) (l : list Timer) : list (Z * A) * list Timer :=
  match l with
  | [] => ([], [])
  | t :: rest =>
      if due t <=? now then
        let r := fire now rest in ((due t, args t) :: fst r, snd r)
      else ([], l)
  end.

Definition advance (now : Z) (L : Loop) : Loop :=
  let r := fire now (pending L) in
  mkLoop (next L) (snd r) (calls L ++ fst r).

(** The function that [debounce(func, timeout)] returns, called at the
    time [now] with the arguments [a]; the first component of the state is
    the variable [timer] of the closure. *)
Definition debounced (timeout now : Z) (a : A) (st : option nat * Loop)
  : option nat * Loop :=
  let L := clearTimeout (fst st) (snd st) in
  let r := setTimeout now timeout a L in
  (Some (fst r), snd r).

(** A sequence of calls of that function, each at its time; the loop runs
    in between. *)
Fixpoint run (timeout : Z) (events : list (Z * A)) (st : option nat * Loop)
  : option nat * Loop :=
  match events with
  | [] => st
  | (now, a) :: rest =>
      run timeout rest (debounced timeout now a (fst st, advance now (snd st)))
  end.

(** After the last call the loop runs until no timer is pending. *)
Definition settle (L : Loop) : Loop :=
  mkLoop (next L) []
    (calls L ++ List.map (fun t => (due t, args t)) (pending L)).

(** The calls that are not overtaken: a call is dropped when the next one
    comes before its timer is due. *)
Fixpoint last_of_bursts (timeout : Z) (events : list (Z * A)) : list (Z * A) :=
  match events with
  | [] => []
  | e :: rest =>
      match rest with
      | [] => [e]
      | e' :: _ =>
          if fst e + timeout <=? fst e' then e :: last_of_bursts timeout rest
          else last_of_bursts timeout rest
      end
  end.

(** Every call comes less than [timeout] after the one before. *)
Fixpoint burst (timeout : Z) (events : list (Z * A)) : bool :=
  match events with
  | [] => true
  | e :: rest =>
      match rest with
      | [] => true
      | e' :: _ => (fst e' <? fst e + timeout) && burst timeout rest
      end
  end.

End Debounce.
End Debounce.

(** ** Elements *)

(** [createElement] and the entry it builds for a source in
    [createSourcesList], as far as the attributes of the element go. *)
Module Dom.

(** What an entry of [ElementProps] can hold. *)
Inductive PropValue : Type :=
| PUndefined
| PBool (b : bool)
| PNum (n : Z)
| PStr (s : string).

(** The argument [attrs]: [textContent] and [onClick] apart from the
    other entries, which are kept in the order of [Object.entries]. *)
Record ElementProps : Type := mkProps {
  text : option string;
  onClick : bool;
  props : list (string * PropValue)
}.

(** An element as [createElement] leaves it: its tag, its text, whether
    it listens to clicks, and its attributes in the order in which they
    were first set. *)
Record Element : Type := mkElement {
  tag : string;
  textContent : string;
  listens : bool;
  attributes : list (string * string)
}.

(** In an HTML document [setAttribute] lower-cases the name. *)
Definition lower_char (a : ascii) : ascii :=
  let n := nat_of_ascii a in
  if ((65 <=? n) && (n <=? 90))%nat then ascii_of_nat (n + 32) else a.

Fixpoint lower (s : string) : string :=
  match s with
  | EmptyString => EmptyString
  | String a rest => String (lower_char a) (lower rest)
  end.

Fixpoint put (key value : string) (attrs : list (string * string))
  : list (string * string) :=
  match attrs with
  | [] => [(key, value)]
  | (k, v) :: rest =>
      if String.eqb k key then (k, value) :: rest
      else (k, v) :: put key value rest
  end.

(** [el.setAttribute(key, value)] *)
Definition setAttribute (key value : string) (attrs : list (string * string))
  : list (string * string) :=
  put (lower key) value attrs.

(** The loop over [Object.entries(props)]. *)
Fixpoint set_props (entries : list (string * PropValue))
  (attrs : list (string * string)) : list (string * string) :=
  match entries with
  | [] => attrs
  | (key, value) :: rest =>
      set_props rest
        match value with
        | PBool true => setAttribute key "" attrs
        | PBool false => attrs
        | PNum n => setAttribute key (Str.of_Z n) attrs
        | PStr s => if String.eqb s "" then attrs else setAttribute key s attrs
        | PUndefined => attrs
        end
  end.

(** [createElement(tag, attrs)] *)
Definition createElement (name : string) (attrs : option ElementProps) : Element :=
  match attrs with
  | None => mkElement name "" false []
  | Some a =>
      mkElement name
        match text a with
        | Some t => t
        | None => ""%string
        end
        (onClick a)
        (set_props (props a) [])
  end.

(** [s.split(c)] for a one-character separator. *)
Fixpoint split (c : ascii) (s : string) : list string :=
  match s with
  | EmptyString => [""%string]
  | String a rest =>
      if Ascii.eqb a c then ""%string :: split c rest
      else match split c rest with
           | [] => [String a ""]
           | part :: parts => String a part :: parts
           end
  end.

(** The read-only field that shows a source in the list
    ([createSourcesList]). *)
Definition source_field (address : string) : Element :=
  createElement "input"
    (Some (mkProps None false
             [("class", PStr "input-cl");
              ("type", PStr "url");
              ("readonly", PBool true);
              ("value", match JS.at_ (split "/" address) (-1) with
                        | Some label => PStr label
                        | None => PUndefined
                        end);
              ("placeholder", PStr "https://urltofile.json")]%string)).

End Dom.

(** ** The step function codec *)

Section Codec.
Context {engine : Engine}.

(** [getFunctionContent(func)]: the text between the first opening brace
    and the last closing brace of the function's source, trimmed. *)
Definition getFunctionContent (func : Func) : string :=
  let text := JS.function_toString func in
  Str.trim (Str.slice text (Str.indexOf "{" text + 1) (Str.lastIndexOf "}" text)).

(** The replacer given to [JSON.stringify]. *)
Definition sterilizeFunction (key : string) (value : Value) : Value :=
  if String.eqb key "func" && String.eqb (JS.typeof value) "function" then
    match value with
    | VFun f => VStr (getFunctionContent f)
    | _ => value
    end
  else if String.eqb key "editor" then VUndefined
  else value.

(** The parameter array every [new Function] of the program is given. *)
Definition PARAMS : list string := ["e"; "idx"; "list"]%string.

(** The reviver given to [JSON.parse]. *)
Definition desterilizeFunction (key : string) (value : Value) : Result Value :=
  if String.eqb key "func" && String.eqb (JS.typeof value) "string" then
    match value with
    | VStr text => rbind (new_Function PARAMS text) (fun f => Ok (VFun f))
    | _ => Ok value
    end
  else Ok value.

End Codec.

(** ** The data model *)

(** [{ id: string; url: string }] *)
Record Source : Type := mkSource {
  sourceId : string;
  url : string
}.

(** [{ id: string; data: unknown }] *)
Record ContentItem : Type := mkContent {
  contentId : string;
  data : Value
}.

(** [type Filter].  The editor handle is present once [updateDisplay] has
    built the step's widget; all the program reads from it is the text of
    its buffer. *)
Record Filter : Type := mkFilter {
  id : string;
  editor : option string;
  type : string;
  func : Func
}.

(** What the outside world observes of a handler, in order. *)
Inductive Event : Type :=
| ConsoleLog (v : Value)
| ConsoleLogError (e : Error)
| ConsoleError (e : Error)
| Alert (message : string)
| ViewerSet (v : Value)
| StorageSet (text : string)
| Fetch (address : string).

(** The steps of a group without their transient editor handles. *)
Definition persistent (f : Filter) : Filter :=
  mkFilter (id f) None (type f) (func f).

(** The value [editor.set] was last called with, if it was called. *)
Fixpoint displayed (log : list Event) : option Value :=
  match log with
  | [] => None
  | ev :: rest =>
      match displayed rest with
      | Some v => Some v
      | None => match ev with ViewerSet v => Some v | _ => None end
      end
  end.

Definition is_ViewerSet (ev : Event) : bool :=
  match ev with ViewerSet _ => true | _ => false end.

Definition is_StorageSet (ev : Event) : bool :=
  match ev with StorageSet _ => true | _ => false end.

Definition is_ConsoleLog (ev : Event) : bool :=
  match ev with ConsoleLog _ => true | _ => false end.

(** ** Handlers

    The application object [this] of type [T] together with its
    surroundings: the record stored under the key [jfs] of [localStorage]
    and the log of observable calls. *)
Record World (T : Type) : Type := mkWorld {
  this : T;
  localStorage : option string;
  log : list Event
}.

(** Handlers are computations over the world that may throw. *)
Definition Handler (T A : Type) : Type := World T -> Result A * World T.

Definition ret {T A} (a : A) : Handler T A := fun w => (Ok a, w).

Definition bind {T A B} (m : Handler T A) (k : A -> Handler T B) : Handler T B :=
  fun w =>
    match m w with
    | (Ok a, w') => k a w'
    | (Thrown e, w') => (Thrown e, w')
    | (Stuck, w') => (Stuck, w')
    end.

Notation "x <- m ;; k" := (bind m (fun x => k))
  (at level 61, m at next level, right associativity).
Notation "m ;; k" := (bind m (fun _ => k))
  (at level 61, right associativity).

Definition throw {T A} (e : Error) : Handler T A := fun w => (Thrown e, w).

Definition stuck {T A} : Handler T A := fun w => (Stuck, w).

Definition lift {T A} (r : Result A) : Handler T A := fun w => (r, w).

(** [try { m } catch (error) { h error }] *)
Definition try_catch {T} (m : Handler T unit) (h : Error -> Handler T unit)
  : Handler T unit :=
  fun w =>
    match m w with
    | (Thrown e, w') => h e w'
    | r => r
    end.

Definition emit {T} (ev : Event) : Handler T unit :=
  fun w => (Ok tt, mkWorld (this w) (localStorage w) (log w ++ [ev])).

Definition get_this {T} : Handler T T := fun w => (Ok (this w), w).

Definition put_this {T} (a : T) : Handler T unit :=
  fun w => (Ok tt, mkWorld a (localStorage w) (log w)).

(** ** The multi-source program (lines 1-488 of [script.ts]) *)

Module MultiSource.

(** The private fields of [class App]. *)
Record App : Type := mkApp {
  sources : list Source;
  content : list ContentItem;
  filtersGroups : list (list Filter);
  activeFilterGroup : Z
}.

Definition M (A : Type) : Type := Handler App A.

Definition set_sources (l : list Source) : M unit :=
  a <- get_this ;;
  put_this (mkApp l (content a) (filtersGroups a) (activeFilterGroup a)).

Definition set_content (l : list ContentItem) : M unit :=
  a <- get_this ;;
  put_this (mkApp (sources a) l (filtersGroups a) (activeFilterGroup a)).

Definition set_filtersGroups (l : list (list Filter)) : M unit :=
  a <- get_this ;;
  put_this (mkApp (sources a) (content a) l (activeFilterGroup a)).

Definition set_activeFilterGroup (i : Z) : M unit :=
  a <- get_this ;;
  put_this (mkApp (sources a) (content a) (filtersGroups a) i).

(** [this.filtersGroups[this.activeFilterGroup] = group].  Inside the
    array the element is replaced; at its end the array grows by one.
    Further out JavaScript leaves holes, and a negative index names a
    property that is no element: both leave the type [Filter[][]]. *)
Definition assign_active_group (group : list Filter) : M unit :=
  a <- get_this ;;
  let i := activeFilterGroup a in
  let n := Z.of_nat (List.length (filtersGroups a)) in
  if (0 <=? i) && (i <? n)
  then set_filtersGroups (JS.set_nth (Z.to_nat i) group (filtersGroups a))
  else if i =? n then set_filtersGroups (filtersGroups a ++ [group])
  else stuck.

Section Program.
Context {engine : Engine}.

(** The body of the [for ... of] loop of [process], iterated: [Ok (Some
    data)] when the loop runs to its end, [Ok None] when the [select] case
    executes [return]. *)
Fixpoint run_filters (filters : list Filter) (data : Value)
  : Result (option Value) :=
  match filters with
  | [] => Ok (Some data)
  | filter :: rest =>
      if String.eqb (type filter) "filter" then
        match data with
        | VArr l =>
            rbind (array_filter (func filter) l) (fun l' =>
            run_filters rest (VArr l'))
        | _ => run_filters rest data
        end
      else if String.eqb (type filter) "flatmap" then
        match data with
        | VArr l =>
            rbind (array_flatMap (func filter) l) (fun l' =>
            run_filters rest (VArr l'))
        | _ => run_filters rest data
        end
      else if String.eqb (type filter) "select" then
        if negb (JS.truthy data) || negb (String.eqb (JS.typeof data) "object")
        then Ok None
        else
          rbind (call (func filter) []) (fun key =>
          rbind (JS.index data key) (fun data' =>
          run_filters rest data'))
      else if String.eqb (type filter) "map" then
        match data with
        | VArr l =>
            rbind (array_map (func filter) l) (fun l' =>
            run_filters rest (VArr l'))
        | _ => run_filters rest data
        end
      else run_filters rest data
  end.

(** [private process()] *)
Definition process : M unit :=
  a <- get_this ;;
  let data := VArr (List.map data (content a)) in
  emit (ConsoleLog data) ;;
  match JS.at_ (filtersGroups a) (activeFilterGroup a) with
  | Some filters =>
      r <- lift (run_filters filters data) ;;
      match r with
      | Some data' => emit (ViewerSet data')
      | None => ret tt
      end
  | None => emit (ViewerSet data)
  end.

(** The data the fold starts from, and the steps it runs over. *)
Definition seed (a : App) : Value := VArr (List.map data (content a)).

Definition active_steps (a : App) : list Filter :=
  match JS.at_ (filtersGroups a) (activeFilterGroup a) with
  | Some filters => filters
  | None => []
  end.

(** The world after the events [evs] have been observed. *)
Definition logged (w : World App) (evs : list Event) : World App :=
  mkWorld (this w) (localStorage w) (log w ++ evs).

(** The executor as the specification words it: one row of its table per
    kind.  The state of the fold is the current data, [None] once the run
    has been aborted. *)
Definition spec_step (st : Result (option Value)) (step : Filter)
  : Result (option Value) :=
  match st with
  | Ok (Some data) =>
      if String.eqb (type step) "filter" then
        match data with
        | VArr l => rbind (array_filter (func step) l) (fun l' => Ok (Some (VArr l')))
        | _ => Ok (Some data)
        end
      else if String.eqb (type step) "map" then
        match data with
        | VArr l => rbind (array_map (func step) l) (fun l' => Ok (Some (VArr l')))
        | _ => Ok (Some data)
        end
      else if String.eqb (type step) "flatmap" then
        match data with
        | VArr l => rbind (array_flatMap (func step) l) (fun l' => Ok (Some (VArr l')))
        | _ => Ok (Some data)
        end
      else if String.eqb (type step) "select" then
        match data with
        | VArr _ | VObj _ =>
            rbind (call (func step) []) (fun key =>
            rbind (JS.index data key) (fun data' => Ok (Some data')))
        | _ => Ok None
        end
      else Ok (Some data)
  | other => other
  end.

Definition spec_run (steps : list Filter) (data : Value) : Result (option Value) :=
  fold_left spec_step steps (Ok (Some data)).


(** What a run that ends as [r] leaves behind: the [console.log] of the
    seed and, when the loop ran to its end, one call of the viewer. *)
Definition process_outcome (w : World App) (r : Result (option Value))
  : Result unit * World App :=
  let start := ConsoleLog (seed (this w)) in
  match r with
  | Ok (Some data') => (Ok tt, logged w [start; ViewerSet data'])
  | Ok None => (Ok tt, logged w [start])
  | Thrown e => (Thrown e, logged w [start])
  | Stuck => (Stuck, logged w [start])
  end.

(** The object literal passed to [JSON.stringify] in [save], as a value.
    A record keeps no order of its fields: a source is written as the
    add-source form creates it, [url] before [id], a step in the order in
    which its properties are created ([id], [type], [func], then
    [editor]).  [JSON.parse] keeps the order of the text and [load] reads
    properties by name, so the order stays through a round trip. *)
Definition source_value (s : Source) : Value :=
  VObj [("url", VStr (url s)); ("id", VStr (sourceId s))]%string.

Definition filter_value (f : Filter) : Value :=
  VObj ([("id", VStr (id f)); ("type", VStr (type f)); ("func", VFun (func f))]%string
        ++ match editor f with
           | Some text => [("editor", VObj [("value", VStr text)])]%string
           | None => []
           end).

Definition state_value (a : App) : Value :=
  VObj [("sources", VArr (List.map source_value (sources a)));
        ("filters", VArr (List.map (fun g => VArr (List.map filter_value g))
                            (filtersGroups a)));
        ("active", VNum (activeFilterGroup a))]%string.

(** [private save()] *)
Definition save : M unit :=
  a <- get_this ;;
  r <- lift (JSON.stringify (state_value a) sterilizeFunction) ;;
  let text := match r with Some t => t | None => "undefined"%string end in
  fun w => (Ok tt, mkWorld (this w) (Some text) (log w ++ [StorageSet text])).

(** Two application states that differ at most in editor handles. *)
Definition same_pipeline (a a' : App) : Prop :=
  sources a' = sources a
  /\ content a' = content a
  /\ activeFilterGroup a' = activeFilterGroup a
  /\ List.map (List.map persistent) (filtersGroups a')
     = List.map (List.map persistent) (filtersGroups a).

(** ... in worlds with the same stored record and the same log. *)
Definition only_editors (w w' : World App) : Prop :=
  same_pipeline (this w) (this w')
  /\ localStorage w' = localStorage w
  /\ log w' = log w.

(** The application object is untouched. *)
Definition same_this (w w' : World App) : Prop := this w' = this w.

(** A handler whose every run relates the world before to the world
    after, whether it returns, throws or is stuck. *)
Definition preserves {A} (R : World App -> World App -> Prop) (m : M A) : Prop :=
  forall w, R w (snd (m w)).

(** The pipeline is untouched, editor handles apart. *)
Definition pipeline_kept (w w' : World App) : Prop :=
  same_pipeline (this w) (this w').

(** The application state with another active group index. *)
Definition with_active (a : App) (v : Z) : App :=
  mkApp (sources a) (content a) (filtersGroups a) v.

(** The application state with the active group emptied. *)
Definition reset_app (a : App) : App :=
  mkApp (sources a) (content a)
    (JS.set_nth (Z.to_nat (activeFilterGroup a)) [] (filtersGroups a))
    (activeFilterGroup a).


(** Nothing was stored. *)
Definition storage_kept (w w' : World App) : Prop :=
  localStorage w' = localStorage w
  /\ List.filter is_StorageSet (log w') = List.filter is_StorageSet (log w).


(** The world after [text] has been stored. *)
Definition saved (w : World App) (text : string) : World App :=
  mkWorld (this w) (Some text) (log w ++ [StorageSet text]).

(** One iteration of the second loop of [updateDisplay]: a fresh editor
    whose buffer holds the step's body text is stored in the first step of
    the active group that has the same id. *)
Definition attach_editor (filter : Filter) : M unit :=
  a <- get_this ;;
  let content := getFunctionContent (func filter) in
  match JS.get (filtersGroups a) (activeFilterGroup a) with
  | None => throw (TypeError "filtersGroups[activeFilterGroup] is undefined")
  | Some group =>
      match JS.findIndex (fun e => String.eqb (id e) (id filter)) group with
      | None => ret tt
      | Some idx =>
          match nth_error group idx with
          | Some e =>
              assign_active_group
                (JS.set_nth idx (mkFilter (id e) (Some content) (type e) (func e)) group)
          | None => ret tt
          end
      end
  end.

Fixpoint attach_editors (filters : list Filter) : M unit :=
  match filters with
  | [] => ret tt
  | filter :: rest => attach_editor filter ;; attach_editors rest
  end.

(** [private updateDisplay()]: the list of step widgets is rebuilt; of the
    application state only the editor handles change. *)
Definition updateDisplay : M unit :=
  a <- get_this ;;
  match JS.at_ (filtersGroups a) (activeFilterGroup a) with
  | None => ret tt
  | Some filters => attach_editors filters
  end.

(** The [change] listener of the kind selector of the step [filter]
    ([updateDisplay], first loop); [value] is [event.target.value]. *)
Definition selectTypeChange (filter_id : string) (value : string) : M unit :=
  a <- get_this ;;
  match JS.at_ (filtersGroups a) (activeFilterGroup a) with
  | None => ret tt
  | Some g =>
      match JS.findIndex (fun e => String.eqb (id e) filter_id) g with
      | None => ret tt
      | Some idx =>
          if String.eqb value "" then ret tt
          else
            match JS.get (filtersGroups a) (activeFilterGroup a) with
            | None => throw (TypeError "filtersGroups[activeFilterGroup] is undefined")
            | Some group =>
                match nth_error group idx with
                | None => throw (TypeError "cannot set property of undefined")
                | Some e =>
                    assign_active_group
                      (JS.set_nth idx (mkFilter (id e) (editor e) value (func e)) group) ;;
                    process
                end
            end
      end
  end.

(** The [click] listener of the remove button of the step [filter]. *)
Definition removeFilterClick (filter_id : string) : M unit :=
  a <- get_this ;;
  match JS.get (filtersGroups a) (activeFilterGroup a) with
  | None => ret tt
  | Some group =>
      assign_active_group
        (List.filter (fun e => negb (String.eqb (id e) filter_id)) group) ;;
      updateDisplay ;;
      process
  end.

(** [private handleFilterChange]: called, after the quiet period, with the
    index [updateDisplay] found for the step whose editor changed. *)
Definition handleFilterChange (index : nat) : M unit :=
  a <- get_this ;;
  match JS.at_ (filtersGroups a) (activeFilterGroup a) with
  | None => ret tt
  | Some g =>
      match nth_error g index with
      | None => ret tt
      | Some filter =>
          let value :=
            match editor filter with
            | Some text => text
            | None => "undefined"%string
            end in
          match JS.get (filtersGroups a) (activeFilterGroup a) with
          | None => throw (TypeError "filtersGroups[activeFilterGroup] is undefined")
          | Some group =>
              match nth_error group index with
              | None => throw (TypeError "cannot set property of undefined")
              | Some e =>
                  f <- lift (new_Function PARAMS value) ;;
                  assign_active_group
                    (JS.set_nth index (mkFilter (id e) (editor e) (type e) f) group) ;;
                  process ;;
                  save
              end
          end
      end
  end.

(** The user types in the editor of step [index] of the active group: the
    buffer changes, nothing else does. *)
Definition editorInput (index : nat) (text : string) : M unit :=
  a <- get_this ;;
  match JS.get (filtersGroups a) (activeFilterGroup a) with
  | None => ret tt
  | Some group =>
      match nth_error group index with
      | Some e =>
          match editor e with
          | Some _ =>
              assign_active_group
                (JS.set_nth index (mkFilter (id e) (Some text) (type e) (func e)) group)
          | None => ret tt
          end
      | None => ret tt
      end
  end.

(** [private selectFilterGroupChange]; [v] is what [parseInt] made of the
    selected option, an integer ([NaN] is not in the number model). *)
Definition selectFilterGroupChange (v : Z) : M unit :=
  try_catch
    (set_activeFilterGroup v ;;
     updateDisplay ;;
     process ;;
     save)
    (fun error => emit (ConsoleError error)).

(** [private btnFiltersReset] *)
Definition btnFiltersReset : M unit :=
  a <- get_this ;;
  match JS.get (filtersGroups a) (activeFilterGroup a) with
  | Some _ =>
      assign_active_group [] ;;
      updateDisplay ;;
      save
  | None => ret tt
  end.

(** [private bntFiltersAdd]; [uuid] is the result of
    [crypto.randomUUID()]. *)
Definition bntFiltersAdd (uuid : string) : M unit :=
  a <- get_this ;;
  match JS.get (filtersGroups a) (activeFilterGroup a) with
  | None => assign_active_group []
  | Some _ => ret tt
  end ;;
  a' <- get_this ;;
  match JS.get (filtersGroups a') (activeFilterGroup a') with
  | None => stuck
  | Some group =>
      f <- lift (new_Function PARAMS "return e;") ;;
      assign_active_group (group ++ [mkFilter uuid None "select" f])
  end ;;
  try_catch
    (updateDisplay ;;
     process ;;
     save)
    (fun error => emit (ConsoleLogError error)).


(** [private btnFitlerGroupDel] *)
Definition btnFitlerGroupDel : M unit :=
  try_catch save (fun error => emit (ConsoleError error)).

(** The [submit] listener of the add-source dialog, up to the start of the
    fetch; [input] is the form field [source], [uuid] the fresh id. *)
Definition submitSource (input : option string) (uuid : string) : M unit :=
  match input with
  | None => ret tt
  | Some raw =>
      let source := Str.trim raw in
      if String.eqb source "" then ret tt
      else
        a <- get_this ;;
        set_sources (sources a ++ [mkSource uuid source]) ;;
        emit (Fetch source)
  end.

(** The fetch started by [submitSource] for [contentId] resolves with
    [item]. *)
Definition sourceFetched (contentId : string) (item : Value) : M unit :=
  try_catch
    (a <- get_this ;;
     set_content (content a ++ [mkContent contentId item]) ;;
     process ;;
     save)
    (fun error => emit (Alert "Failed to load source") ;; emit (ConsoleError error)).

(** ... or fails. *)
Definition sourceFetchFailed (error : Error) : M unit :=
  emit (Alert "Failed to load source") ;; emit (ConsoleError error).

(** The [submit] listener of the edit-source dialog, up to the start of
    the fetch. *)
Definition submitEdit (id_field url_field : option string) : M unit :=
  match id_field, url_field with
  | Some id, Some raw =>
      let url := Str.trim raw in
      if String.eqb id "" || String.eqb url "" then ret tt
      else
        a <- get_this ;;
        match JS.findIndex (fun e => String.eqb (sourceId e) id) (sources a) with
        | None => ret tt
        | Some idx =>
            set_sources (JS.set_nth idx (mkSource id url) (sources a)) ;;
            emit (Fetch url)
        end
  | _, _ => ret tt
  end.

(** The fetch started by [submitEdit] for the source [id] resolves with
    [item]. *)
Definition editFetched (id : string) (item : Value) : M unit :=
  try_catch
    (a <- get_this ;;
     match JS.findIndex (fun e => String.eqb (contentId e) id) (content a) with
     | None => ret tt
     | Some contentIdx =>
         set_content (JS.set_nth contentIdx (mkContent id item) (content a)) ;;
         process ;;
         save
     end)
    (fun e => emit (ConsoleError e) ;; emit (Alert "Failed to load source")).

(** The [click] listener of a source's remove button
    ([createSourcesList]); [attr] is the [data-id] attribute of the list
    entry. *)
Definition removeSourceClick (attr : option string) : M unit :=
  match attr with
  | None => ret tt
  | Some id =>
      if String.eqb id "" then ret tt
      else
        a <- get_this ;;
        match JS.findIndex (fun e => String.eqb (sourceId e) id) (sources a) with
        | None => ret tt
        | Some idx =>
            set_sources (JS.splice1 idx (sources a)) ;;
            a' <- get_this ;;
            set_content (JS.splice1 idx (content a')) ;;
            process ;;
            save
        end
  end.

(** Reading the parsed record back at its declared type
    [{ sources: { id: string; url: string }[]; filters: Filter[][];
    active: number }]. *)
Definition as_source (v : Value) : option Source :=
  match v with
  | VObj props =>
      match JS.lookup "id" props, JS.lookup "url" props with
      | Some (VStr i), Some (VStr u) =>
          if (List.length props =? 2)%nat then Some (mkSource i u) else None
      | _, _ => None
      end
  | _ => None
  end.

Definition as_filter (v : Value) : option Filter :=
  match v with
  | VObj props =>
      match JS.lookup "id" props, JS.lookup "type" props, JS.lookup "func" props with
      | Some (VStr i), Some (VStr t), Some (VFun f) =>
          if (List.length props =? 3)%nat then Some (mkFilter i None t f) else None
      | _, _, _ => None
      end
  | _ => None
  end.

Fixpoint all_some {A} (l : list (option A)) : option (list A) :=
  match l with
  | [] => Some []
  | Some x :: rest =>
      match all_some rest with
      | Some xs => Some (x :: xs)
      | None => None
      end
  | None :: _ => None
  end.

Definition as_array {A} (elem : Value -> option A) (v : Value) : option (list A) :=
  match v with
  | VArr elems => all_some (List.map elem elems)
  | _ => None
  end.

Definition as_number (v : Value) : option Z :=
  match v with
  | VNum n => Some n
  | _ => None
  end.

(** [data.name] on the parsed record: reading a property of [null] throws
    a [TypeError]; a value that is no object has no property of the names
    read here, and neither has an object or an array that lacks it. *)
Definition member (data : Value) (name : string) : Result Value :=
  match data with
  | VNull | VUndefined => Thrown (TypeError "cannot read properties of null")
  | VObj props =>
      Ok match JS.lookup name props with
         | Some v => v
         | None => VUndefined
         end
  | _ => Ok VUndefined
  end.

(** A value assigned to a field of the declared type: a value of another
    type leaves the typed state. *)
Definition typed {A} (cast : Value -> option A) (v : Value) : Result A :=
  match cast v with
  | Some a => Ok a
  | None => Stuck
  end.

Fixpoint fetch_all (l : list Source) : M unit :=
  match l with
  | [] => ret tt
  | s :: rest => emit (Fetch (url s)) ;; fetch_all rest
  end.

(** [private async load()], up to the start of the fetches.  The fields
    are assigned one after the other, in the order of the code: what was
    assigned stays assigned when a later field is not of its type. *)
Definition load : M unit :=
  fun w =>
    match localStorage w with
    | None => (Ok tt, w)
    | Some state =>
        if String.eqb state "" then (Ok tt, w)
        else
          (data <- lift (JSON.parse state desterilizeFunction) ;;
           filters <- lift (rbind (member data "filters")
                              (typed (as_array (as_array as_filter)))) ;;
           set_filtersGroups filters ;;
           active <- lift (rbind (member data "active") (typed as_number)) ;;
           set_activeFilterGroup active ;;
           srcs <- lift (rbind (member data "sources")
                           (typed (as_array as_source))) ;;
           set_sources srcs ;;
           fetch_all srcs) w
    end.

(** All fetches started by [load] have resolved, with [items]. *)
Definition loadFetched (items : list ContentItem) : M unit :=
  try_catch
    (set_content items ;; process)
    (fun e => emit (ConsoleError e) ;; emit (Alert "Failed to load sources")).

(** ... or one of them failed. *)
Definition loadFetchFailed (e : Error) : M unit :=
  emit (ConsoleError e) ;; emit (Alert "Failed to load sources").

(** The JSON tree [save] writes for a step: the transform is replaced by
    its body text and the editor handle is gone. *)
Definition filter_tree (f : Filter) : Value :=
  VObj [("id", VStr (id f)); ("type", VStr (type f));
        ("func", VStr (getFunctionContent (func f)))]%string.

(** ... and for the whole state. *)
Definition state_tree (a : App) : Value :=
  VObj [("sources", VArr (List.map source_value (sources a)));
        ("filters", VArr (List.map (fun g => VArr (List.map filter_tree g))
                            (filtersGroups a)));
        ("active", VNum (activeFilterGroup a))]%string.

(** The tree after the reviver has rebuilt the transforms. *)
Definition revived_filter (f : Filter) : Value :=
  VObj [("id", VStr (id f)); ("type", VStr (type f));
        ("func", VFun (mkFunc PARAMS (getFunctionContent (func f))))]%string.

Definition revived_state (a : App) : Value :=
  VObj [("sources", VArr (List.map source_value (sources a)));
        ("filters", VArr (List.map (fun g => VArr (List.map revived_filter g))
                            (filtersGroups a)));
        ("active", VNum (activeFilterGroup a))]%string.

(** A step as [load] rebuilds it: no editor handle, and the transform
    compiled anew from the stored body text. *)
Definition reloaded (f : Filter) : Filter :=
  mkFilter (id f) None (type f) (mkFunc PARAMS (getFunctionContent (func f))).

(** The stored steps all compile. *)
Definition bodies_compile (a : App) : Prop :=
  forall g f, In g (filtersGroups a) -> In f g ->
              compiles PARAMS (getFunctionContent (func f)) = true.

(** The application state with [group] in the place of the active
    group. *)
Definition with_active_group (a : App) (group : list Filter) : App :=
  mkApp (sources a) (content a)
    (JS.set_nth (Z.to_nat (activeFilterGroup a)) group (filtersGroups a))
    (activeFilterGroup a).

(** A step as [updateDisplay] leaves it: with an editor on its body
    text. *)
Definition with_editor (f : Filter) : Filter :=
  mkFilter (id f) (Some (getFunctionContent (func f))) (type f) (func f).

(** The step [bntFiltersAdd] creates. *)
Definition new_step (uuid : string) : Filter :=
  mkFilter uuid None "select" (mkFunc PARAMS "return e;").

(** The application state as [load] rebuilds it from the record stored
    for [a], into a state whose content is [items]. *)
Definition reloaded_app (a : App) (items : list ContentItem) : App :=
  mkApp (sources a) items (List.map (List.map reloaded) (filtersGroups a))
    (activeFilterGroup a).

(** A form field made of white space only. *)
Fixpoint all_space (s : string) : bool :=
  match s with
  | EmptyString => true
  | String c rest => Str.is_space c && all_space rest
  end.

End Program.

End MultiSource.

(** ** The single-source program (lines 489-843 of [script.ts])

    The older variant keeps one optional [content] value instead of a list
    of content items, and its steps know no [flatmap]. *)

Module SingleSource.

(** The private fields of [class App]; an absent [source] is [None], an
    absent [content] is [VUndefined]. *)
Record App : Type := mkApp {
  source : option string;
  content : Value;
  filtersGroups : list (list Filter);
  activeFilterGroup : Z
}.

Definition M (A : Type) : Type := Handler App A.

Section Program.
Context {engine : Engine}.

(** The [for ... of] loop of [process]. *)
Fixpoint run_filters (filters : list Filter) (data : Value)
  : Result (option Value) :=
  match filters with
  | [] => Ok (Some data)
  | filter :: rest =>
      if String.eqb (type filter) "filter" then
        match data with
        | VArr l =>
            rbind (array_filter (func filter) l) (fun l' =>
            run_filters rest (VArr l'))
        | _ => run_filters rest data
        end
      else if String.eqb (type filter) "select" then
        if negb (JS.truthy data) || negb (String.eqb (JS.typeof data) "object")
        then Ok None
        else
          rbind (call (func filter) []) (fun key =>
          rbind (JS.index data key) (fun data' =>
          run_filters rest data'))
      else if String.eqb (type filter) "map" then
        match data with
        | VArr l =>
            rbind (array_map (func filter) l) (fun l' =>
            run_filters rest (VArr l'))
        | _ => run_filters rest data
        end
      else run_filters rest data
  end.

(** [private process()] *)
Definition process : M unit :=
  a <- get_this ;;
  let data := content a in
  if negb (JS.truthy data) then ret tt
  else
    match JS.at_ (filtersGroups a) (activeFilterGroup a) with
    | Some filters =>
        r <- lift (run_filters filters data) ;;
        match r with
        | Some data' => emit (ViewerSet data')
        | None => ret tt
        end
    | None => emit (ViewerSet data)
    end.

(** The object literal passed to [JSON.stringify] in [save]; a missing
    [source] is a property whose value is [undefined]. *)
Definition state_value (a : App) : Value :=
  VObj [("source", match source a with
                   | Some s => VStr s
                   | None => VUndefined
                   end);
        ("filters", VArr (List.map (fun g => VArr (List.map MultiSource.filter_value g))
                            (filtersGroups a)));
        ("active", VNum (activeFilterGroup a))]%string.

(** [private save()] *)
Definition save : M unit :=
  a <- get_this ;;
  r <- lift (JSON.stringify (state_value a) sterilizeFunction) ;;
  let text := match r with Some t => t | None => "undefined"%string end in
  fun w => (Ok tt, mkWorld (this w) (Some text) (log w ++ [StorageSet text])).

(** [private loadJson], up to the start of the fetch; [input] is the value
    of the field [content-url]. *)
Definition loadJson (input : string) : M unit :=
  emit (Fetch (Str.trim input)).

(** The fetch started by [loadJson] for [url] resolves with [item]. *)
Definition jsonFetched (url : string) (item : Value) : M unit :=
  try_catch
    (a <- get_this ;;
     put_this (mkApp (source a) item (filtersGroups a) (activeFilterGroup a)) ;;
     a' <- get_this ;;
     put_this (mkApp (Some url) (content a') (filtersGroups a')
                 (activeFilterGroup a')) ;;
     process ;;
     save)
    (fun error =>
       emit (ConsoleError error) ;;
       emit (Alert "There was an error loading the json file")).

(** ... or fails. *)
Definition jsonFetchFailed (error : Error) : M unit :=
  emit (ConsoleError error) ;;
  emit (Alert "There was an error loading the json file").

(** The optional field [source] of the parsed record, at its declared
    type [string | undefined]. *)
Definition as_optional_string (v : Value) : option (option string) :=
  match v with
  | VUndefined => Some None
  | VStr s => Some (Some s)
  | _ => None
  end.

Section Field.

(** What the field [content-url] hands back as its value after it was
    given one. *)
Variable field : string -> string.

(** [private async load()], up to the start of the fetch; the fields
    are assigned one after the other, in the order of the code. *)
Definition load : M unit :=
  fun w =>
    match localStorage w with
    | None => (Ok tt, w)
    | Some state =>
        if String.eqb state "" then (Ok tt, w)
        else
          (data <- lift (JSON.parse state desterilizeFunction) ;;
           filters <- lift (rbind (MultiSource.member data "filters")
                              (MultiSource.typed
                                 (MultiSource.as_array
                                    (MultiSource.as_array MultiSource.as_filter)))) ;;
           a <- get_this ;;
           put_this (mkApp (source a) (content a) filters (activeFilterGroup a)) ;;
           active <- lift (rbind (MultiSource.member data "active")
                             (MultiSource.typed MultiSource.as_number)) ;;
           a <- get_this ;;
           put_this (mkApp (source a) (content a) (filtersGroups a) active) ;;
           src <- lift (rbind (MultiSource.member data "source")
                          (MultiSource.typed as_optional_string)) ;;
           a <- get_this ;;
           put_this (mkApp src (content a) (filtersGroups a)
                       (activeFilterGroup a)) ;;
           match src with
           | Some s => if String.eqb s "" then ret tt else loadJson (field s)
           | None => ret tt
           end) w
    end.

End Field.

(** The JSON tree [save] writes: a missing source leaves no property. *)
Definition state_tree (a : App) : Value :=
  VObj ((match source a with
         | Some s => [("source"%string, VStr s)]
         | None => []
         end)
        ++ [("filters"%string,
             VArr (List.map (fun g => VArr (List.map MultiSource.filter_tree g))
                     (filtersGroups a)));
            ("active"%string, VNum (activeFilterGroup a))])%list.

(** The stored steps all compile. *)
Definition bodies_compile (a : App) : Prop :=
  forall g f, In g (filtersGroups a) -> In f g ->
              compiles PARAMS (getFunctionContent (func f)) = true.

End Program.

End SingleSource.

(** ** An engine for a fragment of JavaScript

    Function bodies of the form [return E;] or [throw new Error('...');],
    where [E] is built from parameters, integer and single-quoted string
    literals, [undefined], [null], [true], [false], member access [E.name],
    multiplication and the comparison [>].  On this fragment the instance
    computes what a JavaScript engine computes; a body outside it does not
    compile here, and an operation outside it is [Stuck]. *)

Module MiniJS.

Inductive Token : Type :=
| TIdent (name : string)
| TNum (n : Z)
| TStr (s : string)
| TPunct (c : ascii).

Definition is_ident_char (a : ascii) : bool :=
  let n := nat_of_ascii a in
  ((97 <=? n) && (n <=? 122))%nat || ((65 <=? n) && (n <=? 90))%nat
  || ((48 <=? n) && (n <=? 57))%nat || (n =? 95)%nat || (n =? 36)%nat.

Fixpoint take_while (p : ascii -> bool) (s : string) : string * string :=
  match s with
  | String a rest =>
      if p a then let r := take_while p rest in (String a (fst r), snd r)
      else ("", s)
  | EmptyString => ("", s)
  end.

Fixpoint lex (fuel : nat) (s : string) : option (list Token) :=
  match fuel with
  | O => None
  | S fuel' =>
      match s with
      | EmptyString => Some []
      | String a rest =>
          if Str.is_space a then lex fuel' rest
          else if JSON.is_digit a then
            let r := JSON.take_digits s in
            match NilZero.uint_of_string (fst r), lex fuel' (snd r) with
            | Some u, Some ts => Some (TNum (Z.of_N (N.of_uint u)) :: ts)
            | _, _ => None
            end
          else if is_ident_char a then
            let r := take_while is_ident_char s in
            match lex fuel' (snd r) with
            | Some ts => Some (TIdent (fst r) :: ts)
            | None => None
            end
          else if (nat_of_ascii a =? 39)%nat then
            let r := take_while (fun c => negb (nat_of_ascii c =? 39)%nat
                                          && negb (nat_of_ascii c =? 92)%nat
                                          && negb (nat_of_ascii c <? 32)%nat) rest in
            match snd r with
            | String q rest' =>
                if (nat_of_ascii q =? 39)%nat then
                  match lex fuel' rest' with
                  | Some ts => Some (TStr (fst r) :: ts)
                  | None => None
                  end
                else None
            | EmptyString => None
            end
          else
            match lex fuel' rest with
            | Some ts => Some (TPunct a :: ts)
            | None => None
            end
      end
  end.

Inductive Expr : Type :=
| EVar (x : string)
| ENum (n : Z)
| EStr (s : string)
| EMember (e : Expr) (name : string)
| EMul (a b : Expr)
| EGt (a b : Expr).

Inductive Stmt : Type :=
| SReturn (e : Expr)
| SThrow (message : string).

Definition parse_primary (ts : list Token) : option (Expr * list Token) :=
  match ts with
  | TIdent x :: rest => Some (EVar x, rest)
  | TNum n :: rest => Some (ENum n, rest)
  | TStr s :: rest => Some (EStr s, rest)
  | _ => None
  end.

Fixpoint parse_members (e : Expr) (ts : list Token) : Expr * list Token :=
  match ts with
  | TPunct c :: TIdent name :: rest =>
      if (nat_of_ascii c =? 46)%nat then parse_members (EMember e name) rest
      else (e, ts)
  | _ => (e, ts)
  end.

Definition parse_postfix (ts : list Token) : option (Expr * list Token) :=
  match parse_primary ts with
  | Some (e, rest) => Some (parse_members e rest)
  | None => None
  end.

Fixpoint parse_factors (fuel : nat) (e : Expr) (ts : list Token)
  : option (Expr * list Token) :=
  match fuel with
  | O => None
  | S fuel' =>
      match ts with
      | TPunct c :: rest =>
          if (nat_of_ascii c =? 42)%nat then
            match parse_postfix rest with
            | Some (e', rest') => parse_factors fuel' (EMul e e') rest'
            | None => None
            end
          else Some (e, ts)
      | _ => Some (e, ts)
      end
  end.

Definition parse_term (ts : list Token) : option (Expr * list Token) :=
  match parse_postfix ts with
  | Some (e, rest) => parse_factors (S (List.length rest)) e rest
  | None => None
  end.

Definition parse_expr (ts : list Token) : option (Expr * list Token) :=
  match parse_term ts with
  | Some (a, TPunct c :: rest) =>
      if (nat_of_ascii c =? 62)%nat then
        match parse_term rest with
        | Some (b, rest') => Some (EGt a b, rest')
        | None => None
        end
      else Some (a, TPunct c :: rest)
  | r => r
  end.

Definition semicolon (ts : list Token) : bool :=
  match ts with
  | [] => true
  | [TPunct c] => (nat_of_ascii c =? 59)%nat
  | _ => false
  end.

Definition parse_stmt (ts : list Token) : option Stmt :=
  match ts with
  | TIdent kw :: rest =>
      if String.eqb kw "return" then
        match parse_expr rest with
        | Some (e, rest') => if semicolon rest' then Some (SReturn e) else None
        | None => None
        end
      else if String.eqb kw "throw" then
        match rest with
        | TIdent n :: TIdent c :: TPunct l :: TStr message :: TPunct r :: rest' =>
            if String.eqb n "new" && String.eqb c "Error"
               && (nat_of_ascii l =? 40)%nat && (nat_of_ascii r =? 41)%nat
               && semicolon rest'
            then Some (SThrow message) else None
        | _ => None
        end
      else None
  | _ => None
  end.

Definition parse_body (text : string) : option Stmt :=
  match lex (S (String.length text)) text with
  | Some ts => parse_stmt ts
  | None => None
  end.

Fixpoint bind_params (ps : list string) (args : list Value)
  : list (string * Value) :=
  match ps with
  | [] => []
  | p :: ps' =>
      match args with
      | [] => (p, VUndefined) :: bind_params ps' []
      | v :: args' => (p, v) :: bind_params ps' args'
      end
  end.

Fixpoint eval (env : list (string * Value)) (e : Expr) : Result Value :=
  match e with
  | EVar x =>
      match JS.lookup x env with
      | Some v => Ok v
      | None =>
          if String.eqb x "undefined" then Ok VUndefined
          else if String.eqb x "null" then Ok VNull
          else if String.eqb x "true" then Ok (VBool true)
          else if String.eqb x "false" then Ok (VBool false)
          else Thrown (ReferenceError x)
      end
  | ENum n => Ok (VNum n)
  | EStr s => Ok (VStr s)
  | EMember e' name =>
      rbind (eval env e') (fun v =>
      match v with
      | VUndefined | VNull => Thrown (TypeError "cannot read properties of undefined")
      | VObj _ | VArr _ => JS.index v (VStr name)
      | _ => Stuck
      end)
  | EMul a b =>
      rbind (eval env a) (fun x =>
      rbind (eval env b) (fun y =>
      match x, y with
      | VNum m, VNum n => Ok (VNum (m * n))
      | _, _ => Stuck
      end))
  | EGt a b =>
      rbind (eval env a) (fun x =>
      rbind (eval env b) (fun y =>
      match x, y with
      | VNum m, VNum n => Ok (VBool (m >? n))
      | _, _ => Stuck
      end))
  end.

Definition run (f : Func) (args : list Value) : Result Value :=
  match parse_body (body f) with
  | Some (SReturn e) => eval (bind_params (params f) args) e
  | Some (SThrow message) => Thrown (UserThrow (VStr message))
  | None => Stuck
  end.

Definition accepts (ps : list string) (text : string) : bool :=
  match parse_body text with
  | Some _ => true
  | None => false
  end.

#[export] Instance engine : Engine := {|
  compiles := accepts;
  call := run
|}.

End MiniJS.

(** ** Concrete pipelines

    The states at which the properties below are instantiated.  All
    transforms are in the fragment of [MiniJS]. *)

Module Examples.
Import MultiSource.

Definition fn (text : string) : Func := mkFunc PARAMS text.

Definition step (name kind text : string) : Filter :=
  mkFilter name None kind (fn text).

Definition world (a : App) : World App := mkWorld a None [].

(** Content [{a: 1}] under four steps: [select 0] leaves the object
    [{a: 1}], on which the [map] step has nothing to do; [select 'a']
    leaves the number [1], on which [select 'b'] gives up. *)
Definition object_a1 : Value := VObj [("a"%string, VNum 1)].

Definition select_0 : Filter := step "s0" "select" "return 0;".
Definition map_e : Filter := step "m" "map" "return e;".
Definition select_a : Filter := step "sa" "select" "return 'a';".
Definition select_b : Filter := step "sb" "select" "return 'b';".

Definition asymmetric_steps : list Filter :=
  [select_0; map_e; select_a; select_b].

Definition asymmetric_world : World App :=
  world (mkApp [mkSource "s" "u"] [mkContent "s" object_a1] [asymmetric_steps] 0).



(** The scenarios of the specification, in the single-source program. *)
Definition xs_123 : Value :=
  VArr [VObj [("x"%string, VNum 1)]; VObj [("x"%string, VNum 2)];
        VObj [("x"%string, VNum 3)]].

Definition scenario (c : Value) (steps : list Filter) : World SingleSource.App :=
  mkWorld (SingleSource.mkApp (Some "u"%string) c [steps] 0) None [].

(** The single-source program with one empty group and content [c]. *)
Definition single_world (c : Value) : World SingleSource.App :=
  mkWorld (SingleSource.mkApp (Some "u"%string) c [[]] 0) None [].

(** One source with content [7], one group with the step [map e*10], and
    the viewer showing the result [[70]] of the last run. *)
Definition map_x10 : Filter := step "m10" "map" "return e*10;".

Definition shown_app : App :=
  mkApp [mkSource "s" "u"] [mkContent "s" (VNum 7)] [[map_x10]] 0.

Definition shown_world : World App :=
  mkWorld shown_app None
    [ConsoleLog (VArr [VNum 7]); ViewerSet (VArr [VNum 70])].

(** No source is left (the one with id [a] was removed while its fetch
    was under way), no content. *)
Definition empty_world : World App := world (mkApp [] [] [] 0).

(** Two sources [a] and [b]; only the fetch of [b] has resolved. *)
Definition one_loaded : World App :=
  world (mkApp [mkSource "a" "u/a.json"; mkSource "b" "u/b.json"]
           [mkContent "b" (VNum 2)] [] 0).

(** Two sources; the fetch of [b] resolved before the fetch of [a]. *)
Definition out_of_order : World App :=
  world (mkApp [mkSource "a" "u/a.json"; mkSource "b" "u/b.json"]
           [mkContent "b" (VNum 2); mkContent "a" (VNum 1)] [] 0).

(** The pipeline of the persistence round trip: one group with one [map]
    step of body [return e.x;], active index [0]; any sources, content,
    step id and editor handle. *)
Definition roundtrip_step (ident : string) (ed : option string) : Filter :=
  mkFilter ident ed "map" (fn "return e.x;").

Definition roundtrip_app (srcs : list Source) (items : list ContentItem)
  (ident : string) (ed : option string) : App :=
  mkApp srcs items [[roundtrip_step ident ed]] 0.

Definition object_x5 : Value := VObj [("x"%string, VNum 5)].

(** Two sources and two groups, with editors opened on the first group. *)
Definition two_groups : App :=
  mkApp [mkSource "a" "u/a.json"; mkSource "b" "u/b.json"]
    [mkContent "a" (VNum 1)]
    [[mkFilter "f" (Some "return e.x>1;"%string) "filter" (fn "return e.x>1;");
      map_x10];
     [select_a]]
    1.

(** The same pipeline without editors and with other content. *)
Definition two_groups_bare : App :=
  mkApp [mkSource "a" "u/a.json"; mkSource "b" "u/b.json"]
    []
    [[step "f" "filter" "return e.x>1;"; map_x10]; [select_a]]
    1.

(** A pipeline one of whose steps has a body that is no function body. *)
Definition broken_step : Filter := step "bad" "map" "return e.;".

Definition broken_app : App :=
  mkApp [mkSource "a" "u/a.json"] [] [[select_a]; [map_x10; broken_step]] 0.

(** One source with content [7] and one group of two steps, no editor
    opened yet. *)
Definition two_steps : App :=
  mkApp [mkSource "s" "u"] [mkContent "s" (VNum 7)] [[map_e; map_x10]] 0.

(** The same with [text] typed into the editor of the first step. *)
Definition edited (text : string) : App :=
  mkApp [mkSource "s" "u"] [mkContent "s" (VNum 7)]
    [[mkFilter "m" (Some text) "map" (fn "return e;"); map_x10]] 0.

(** Two sources, both loaded, in the order of the sources. *)
Definition both_loaded : World App :=
  world (mkApp [mkSource "a" "u/a.json"; mkSource "b" "u/b.json"]
           [mkContent "a" (VNum 1); mkContent "b" (VNum 2)] [] 0).

End Examples.

(** * Properties *)

(** ** Strings *)

Lemma append_assoc (a b c : string) : ((a ++ b) ++ c = a ++ (b ++ c))%string.
Proof.
  induction a as [|x a IH]; simpl; [reflexivity|]. rewrite IH. reflexivity.
Qed.

Lemma length_append (a b : string) :
  String.length (a ++ b) = (String.length a + String.length b)%nat.
Proof.
  induction a as [|x a IH]; simpl; [reflexivity|]. rewrite IH. reflexivity.
Qed.

(** ** The executor *)

Section Executor.
Context {engine : Engine}.
Import MultiSource.

Lemma spec_run_aborted (steps : list Filter) :
  fold_left spec_step steps (Ok None) = Ok None.
Proof. induction steps as [|f steps IH]; simpl; auto. Qed.

Lemma spec_run_thrown (steps : list Filter) (e : Error) :
  fold_left spec_step steps (Thrown e) = Thrown e.
Proof. induction steps as [|f steps IH]; simpl; auto. Qed.

Lemma spec_run_stuck (steps : list Filter) :
  fold_left spec_step steps Stuck = Stuck.
Proof. induction steps as [|f steps IH]; simpl; auto. Qed.

Lemma spec_run_rbind (steps : list Filter) {A} (r : Result A)
      (k : A -> Result (option Value)) :
  fold_left spec_step steps (rbind r k)
  = rbind r (fun a => fold_left spec_step steps (k a)).
Proof.
  destruct r; simpl; auto using spec_run_thrown, spec_run_stuck.
Qed.

(** The loop of [process] is the left-to-right fold of the table. *)
Ltac destruct_call :=
  match goal with
  | |- context [rbind ?r _] => destruct r
  end.

Lemma run_filters_is_fold (steps : list Filter) (data : Value) :
  run_filters steps data = spec_run steps data.
Proof.
  unfold spec_run. revert data.
  induction steps as [|f steps IH]; intro data; simpl; [reflexivity|].
  destruct (String.eqb (type f) "filter") eqn:Efilter.
  { destruct data; auto.
    rewrite spec_run_rbind. destruct_call; simpl; auto. }
  destruct (String.eqb (type f) "flatmap") eqn:Eflat.
  { destruct (String.eqb (type f) "map") eqn:Emap.
    { apply String.eqb_eq in Eflat, Emap. congruence. }
    destruct data; auto.
    rewrite spec_run_rbind. destruct_call; simpl; auto. }
  destruct (String.eqb (type f) "select") eqn:Eselect.
  { destruct (String.eqb (type f) "map") eqn:Emap.
    { apply String.eqb_eq in Eselect, Emap. congruence. }
    destruct data as [| |b|n|s|l|props|g]; cbn -[JS.index];
      rewrite ?orb_true_r; try (symmetry; apply spec_run_aborted).
    - rewrite spec_run_rbind. destruct (call (func f) []) as [key| |]; auto.
      cbn [rbind]. rewrite spec_run_rbind.
      destruct (JS.index (VArr l) key); cbn [rbind]; auto.
    - rewrite spec_run_rbind. destruct (call (func f) []) as [key| |]; auto.
      cbn [rbind]. rewrite spec_run_rbind.
      destruct (JS.index (VObj props) key); cbn [rbind]; auto. }
  destruct (String.eqb (type f) "map") eqn:Emap.
  { destruct data; auto.
    rewrite spec_run_rbind. destruct_call; simpl; auto. }
  apply IH.
Qed.

Lemma spec_run_app (pre post : list Filter) (data d : Value) :
  spec_run pre data = Ok (Some d) ->
  spec_run (pre ++ post) data = spec_run post d.
Proof.
  unfold spec_run. intro H. rewrite fold_left_app, H. reflexivity.
Qed.

Lemma run_filters_app (pre post : list Filter) (data d : Value) :
  run_filters pre data = Ok (Some d) ->
  run_filters (pre ++ post) data = run_filters post d.
Proof.
  rewrite !run_filters_is_fold. apply spec_run_app.
Qed.

(** A [filter], [map] or [flatmap] step that meets a non-array executes
    [break]. *)
Lemma run_filters_skip (f : Filter) (rest : list Filter) (d : Value) :
  In (type f) ["filter"; "map"; "flatmap"]%string ->
  JS.isArray d = false ->
  run_filters (f :: rest) d = run_filters rest d.
Proof.
  intros Hkind Harr. simpl in Hkind.
  destruct Hkind as [E|[E|[E|[]]]]; simpl; rewrite <- E; simpl;
    destruct d; try discriminate; reflexivity.
Qed.

(** The guard of the [select] case is the negation of the precondition
    of the table. *)
Lemma select_guard (d : Value) :
  negb (JS.truthy d) || negb (String.eqb (JS.typeof d) "object") = true
  <-> d = VNull \/ JS.typeof d <> "object"%string.
Proof.
  destruct d as [| |b|n|s|l|props|g]; simpl; rewrite ?orb_true_r;
    split; intro H; auto; try (right; discriminate);
    try discriminate;
    destruct H as [H|H]; try discriminate; exfalso; apply H; reflexivity.
Qed.

(** A [select] step that meets [null] or a non-object executes
    [return]. *)
Lemma run_filters_halt (f : Filter) (rest : list Filter) (d : Value) :
  type f = "select"%string ->
  d = VNull \/ JS.typeof d <> "object"%string ->
  run_filters (f :: rest) d = Ok None.
Proof.
  intros Hkind Hd. apply select_guard in Hd.
  simpl. rewrite Hkind. simpl. rewrite Hd. reflexivity.
Qed.

Lemma process_runs_filters (w : World App) :
  process w
  = process_outcome w (run_filters (active_steps (this w)) (seed (this w))).
Proof.
  unfold process, process_outcome, active_steps, seed, logged, bind, get_this,
    emit, lift, ret. simpl.
  destruct (JS.at_ (filtersGroups (this w)) (activeFilterGroup (this w)))
    as [filters|]; simpl.
  - destruct (run_filters filters _) as [[d|]| |]; simpl;
      rewrite <- ?app_assoc; reflexivity.
  - rewrite <- app_assoc. reflexivity.
Qed.

(** C1.  A run of [process] logs the seed, the array of all loaded
    content values, and folds the steps of the active group over it from
    left to right.  A [filter], [map] or [flatmap] step reached while the
    data is not an array leaves the data as it is and the fold goes on with
    the next step; a [select] step reached while the data is [null] or not
    of type object ends the run on the spot, and the viewer is not called
    in that run. *)
Theorem process_folds_with_asymmetric_fallback (w : World App) :
  process w
  = process_outcome w (spec_run (active_steps (this w)) (seed (this w)))
  /\ (forall pre f post d,
        active_steps (this w) = pre ++ f :: post ->
        run_filters pre (seed (this w)) = Ok (Some d) ->
        In (type f) ["filter"; "map"; "flatmap"]%string ->
        JS.isArray d = false ->
        run_filters (pre ++ f :: post) (seed (this w)) = run_filters post d
        /\ process w = process_outcome w (run_filters post d))
  /\ (forall pre f post d,
        active_steps (this w) = pre ++ f :: post ->
        run_filters pre (seed (this w)) = Ok (Some d) ->
        type f = "select"%string ->
        d = VNull \/ JS.typeof d <> "object"%string ->
        run_filters (pre ++ f :: post) (seed (this w)) = Ok None
        /\ process w = (Ok tt, logged w [ConsoleLog (seed (this w))])).
Proof.
  split; [|split].
  - rewrite process_runs_filters, run_filters_is_fold. reflexivity.
  - intros pre f post d Hsteps Hpre Hkind Harr.
    assert (Hrun : run_filters (pre ++ f :: post) (seed (this w))
                   = run_filters post d).
    { erewrite run_filters_app by eassumption.
      apply run_filters_skip; assumption. }
    split; [exact Hrun|].
    rewrite process_runs_filters, Hsteps, Hrun. reflexivity.
  - intros pre f post d Hsteps Hpre Hkind Hd.
    assert (Hrun : run_filters (pre ++ f :: post) (seed (this w)) = Ok None).
    { erewrite run_filters_app by eassumption.
      apply run_filters_halt; assumption. }
    split; [exact Hrun|].
    rewrite process_runs_filters, Hsteps, Hrun. reflexivity.
Qed.



End Executor.

Lemma process_folds_with_asymmetric_fallback_witness :
  let w := Examples.asymmetric_world in
  let run := MultiSource.run_filters (engine := MiniJS.engine) in
  let seed := MultiSource.seed (this w) in
  (run ([Examples.select_0] ++ Examples.map_e
          :: [Examples.select_a; Examples.select_b]) seed
   = run [Examples.select_a; Examples.select_b] Examples.object_a1
   /\ MultiSource.process (engine := MiniJS.engine) w
      = MultiSource.process_outcome w
          (run [Examples.select_a; Examples.select_b] Examples.object_a1))
  /\ (run ([Examples.select_0; Examples.map_e; Examples.select_a]
             ++ Examples.select_b :: []) seed = Ok None
      /\ MultiSource.process (engine := MiniJS.engine) w
         = (Ok tt, MultiSource.logged w [ConsoleLog seed])).
Proof.
  destruct (process_folds_with_asymmetric_fallback
              (engine := MiniJS.engine) Examples.asymmetric_world)
    as (_ & Hskip & Hhalt).
  split.
  - apply Hskip; [reflexivity | reflexivity | simpl; auto | reflexivity].
  - apply (Hhalt _ _ _ (VNum 1));
      [reflexivity | reflexivity | reflexivity | right; discriminate].
Defined.




(** ** The executor of the single-source program *)

Section SingleExecutor.
Context {engine : Engine}.
Import SingleSource.

Lemma falsy_values (v : Value) :
  JS.truthy v = false
  <-> In v [VUndefined; VNull; VBool false; VNum 0; VStr EmptyString].
Proof.
  split.
  - destruct v as [| |b|n|s|l|props|g]; simpl; intro H; auto; try discriminate.
    + destruct b; [discriminate|]. auto.
    + apply negb_false_iff, Z.eqb_eq in H. subst n. auto.
    + apply negb_false_iff, String.eqb_eq in H. subst s. auto 6.
  - simpl. intros [H|[H|[H|[H|[H|[]]]]]]; subst v; reflexivity.
Qed.

(** With truthy content and an empty active group the run hands the
    content to the viewer as it is. *)
Lemma single_process_empty_group (w : World App) :
  JS.truthy (content (this w)) = true ->
  JS.at_ (filtersGroups (this w)) (activeFilterGroup (this w)) = Some [] ->
  process w
  = (Ok tt, mkWorld (this w) (localStorage w)
              (log w ++ [ViewerSet (content (this w))])).
Proof.
  intros Htruthy Hgroup.
  unfold process, bind, get_this, lift, emit, ret. simpl.
  rewrite Htruthy, Hgroup. reflexivity.
Qed.

(** C10.  In the single-source program the falsy values are [undefined]
    (no content), [null], [false], [0] and the empty string; whenever the
    content is one of them, [process] returns at once, whatever the groups
    and the active index are: no step runs, the viewer is not called, and
    the world is left as it was.  So with an empty active group the
    content is not handed to the viewer. *)
Theorem single_process_returns_on_falsy_content :
  (forall v : Value,
     JS.truthy v = false
     <-> In v [VUndefined; VNull; VBool false; VNum 0; VStr EmptyString])
  /\ (forall w : World App,
        JS.truthy (content (this w)) = false ->
        process w = (Ok tt, w)
        /\ displayed (log (snd (process w))) = displayed (log w)).
Proof.
  split; [exact falsy_values|].
  intros w Hfalsy.
  assert (H : process w = (Ok tt, w)).
  { unfold process, bind, get_this, ret. simpl. rewrite Hfalsy. reflexivity. }
  rewrite H. split; reflexivity.
Qed.

End SingleExecutor.

(** Content [[{x:1},{x:2},{x:3}]] under [filter e.x>1] then [map e.x*10]
    gives [[20,30]]. *)
Example scenario_filter_then_map :
  log (snd (SingleSource.process (engine := MiniJS.engine)
              (Examples.scenario Examples.xs_123
                 [Examples.step "f" "filter" "return e.x>1;";
                  Examples.step "m" "map" "return e.x*10;"])))
  = [ViewerSet (VArr [VNum 20; VNum 30])].
Proof. reflexivity. Qed.

(** Content [{a:[1,2,3]}] under [select 'a'] gives [[1,2,3]]. *)
Example scenario_select_key :
  log (snd (SingleSource.process (engine := MiniJS.engine)
              (Examples.scenario
                 (VObj [("a"%string, VArr [VNum 1; VNum 2; VNum 3])])
                 [Examples.step "s" "select" "return 'a';"])))
  = [ViewerSet (VArr [VNum 1; VNum 2; VNum 3])].
Proof. reflexivity. Qed.

(** A [map] step whose body throws: the exception leaves [process] and
    the viewer is not called. *)
Example scenario_step_throws :
  SingleSource.process (engine := MiniJS.engine)
    (Examples.scenario (VArr [VNum 1])
       [Examples.step "m" "map" "throw new Error('x');"])
  = (Thrown (UserThrow (VStr "x")),
     Examples.scenario (VArr [VNum 1])
       [Examples.step "m" "map" "throw new Error('x');"]).
Proof. reflexivity. Qed.

Lemma single_process_returns_on_falsy_content_witness :
  let run c := SingleSource.process (engine := MiniJS.engine)
                 (Examples.single_world c) in
  (run VNull = (Ok tt, Examples.single_world VNull)
   /\ run (VBool false) = (Ok tt, Examples.single_world (VBool false))
   /\ run (VNum 0) = (Ok tt, Examples.single_world (VNum 0))
   /\ run (VStr EmptyString) = (Ok tt, Examples.single_world (VStr EmptyString)))
  /\ displayed (log (snd (run VNull))) = None.
Proof.
  pose proof (single_process_returns_on_falsy_content
                (engine := MiniJS.engine)) as [_ H].
  repeat split; try (apply H; reflexivity).
Defined.


(** ** Persistence *)

Section Persistence.
Import MultiSource.

(** An event that is no call of the viewer leaves the displayed value. *)
Lemma displayed_other (l : list Event) (ev : Event) :
  is_ViewerSet ev = false -> displayed (l ++ [ev]) = displayed l.
Proof.
  intro Hev. induction l as [|x l IH]; simpl.
  - destruct ev; try reflexivity; discriminate.
  - rewrite IH. reflexivity.
Qed.

Lemma displayed_set (l : list Event) (v : Value) :
  displayed (l ++ [ViewerSet v]) = Some v.
Proof.
  induction l as [|x l IH]; simpl; [reflexivity|]. rewrite IH. reflexivity.
Qed.


Lemma depth_elem (x : Value) (elems : list Value) :
  In x elems -> (JSON.depth x <= list_max (List.map JSON.depth elems))%nat.
Proof.
  intro Hin.
  assert (H : Forall (fun k => (k <= list_max (List.map JSON.depth elems))%nat)
                (List.map JSON.depth elems))
    by (apply list_max_le; apply Nat.le_refl).
  rewrite Forall_forall in H. apply H, in_map, Hin.
Qed.

Lemma depth_prop (k : string) (x : Value) (props : list (string * Value)) :
  In (k, x) props ->
  (JSON.depth x
   <= list_max (List.map (fun kv => JSON.depth (snd kv)) props))%nat.
Proof.
  intro Hin.
  assert (H : Forall (fun n =>
                (n <= list_max (List.map (fun kv => JSON.depth (snd kv)) props))%nat)
                (List.map (fun kv => JSON.depth (snd kv)) props))
    by (apply list_max_le; apply Nat.le_refl).
  rewrite Forall_forall in H.
  apply H. change (JSON.depth x) with ((fun kv => JSON.depth (snd kv)) (k, x)).
  apply in_map, Hin.
Qed.

(** The replacer never returns a deeper value than it is given. *)
Lemma sterilizeFunction_depth (key : string) (v : Value) :
  (JSON.depth (sterilizeFunction key v) <= JSON.depth v)%nat.
Proof.
  unfold sterilizeFunction.
  destruct (String.eqb key "func" && String.eqb (JS.typeof v) "function").
  - destruct v; simpl; auto with arith.
  - destruct (String.eqb key "editor"); simpl; auto with arith.
Qed.

Lemma serialize_elems_total (ser : string -> Value -> Result (option string))
      (elems : list Value) :
  (forall x k, In x elems -> exists r, ser k x = Ok r) ->
  forall i, exists parts, JSON.serialize_elems ser i elems = Ok parts.
Proof.
  induction elems as [|x elems IH]; intros Hser i; simpl; [eauto|].
  destruct (Hser x (Str.of_Z i) (or_introl eq_refl)) as [r ->]. simpl.
  destruct (IH (fun y k Hy => Hser y k (or_intror Hy)) (i + 1)) as [parts ->].
  simpl. eauto.
Qed.

Lemma serialize_props_total (ser : string -> Value -> Result (option string))
      (props : list (string * Value)) :
  (forall k x, In (k, x) props -> exists r, ser k x = Ok r) ->
  exists parts, JSON.serialize_props ser props = Ok parts.
Proof.
  induction props as [|[k x] props IH]; intros Hser; simpl; [eauto|].
  destruct (Hser k x (or_introl eq_refl)) as [r ->]. simpl.
  destruct (IH (fun k' y Hy => Hser k' y (or_intror Hy))) as [parts ->].
  simpl. eauto.
Qed.

(** Serialization with [sterilizeFunction] as replacer ends: fuel above
    the depth of the value is never used up. *)
Lemma serialize_total (fuel : nat) :
  forall (key : string) (v : Value),
    (JSON.depth v < fuel)%nat ->
    exists r, JSON.SerializeJSONProperty fuel sterilizeFunction key v = Ok r.
Proof.
  induction fuel as [|fuel IH]; intros key v Hdepth; [inversion Hdepth|].
  simpl.
  pose proof (sterilizeFunction_depth key v) as Hle.
  destruct (sterilizeFunction key v) as [| |b|n|s|elems|props|g]; eauto.
  - destruct b; eauto.
  - destruct (@serialize_elems_total
                (JSON.SerializeJSONProperty fuel sterilizeFunction) elems)
      with (i := 0) as [parts ->]; [|simpl; eauto].
    intros x k Hin. apply IH.
    pose proof (depth_elem _ _ Hin). simpl in Hle. lia.
  - destruct (@serialize_props_total
                (JSON.SerializeJSONProperty fuel sterilizeFunction) props)
      as [parts ->]; [|simpl; eauto].
    intros k x Hin. apply IH.
    pose proof (depth_prop _ _ _ Hin). simpl in Hle. lia.
Qed.

(** An object always serializes to a text. *)
Lemma stringify_object (props : list (string * Value)) :
  exists text, JSON.stringify (VObj props) sterilizeFunction = Ok (Some text).
Proof.
  unfold JSON.stringify.
  remember (JSON.depth (VObj props)) as n eqn:Hn.
  cbn [JSON.SerializeJSONProperty].
  change (sterilizeFunction EmptyString (VObj props)) with (VObj props).
  cbv beta iota.
  destruct (@serialize_props_total
              (JSON.SerializeJSONProperty n sterilizeFunction) props)
    as [parts ->]; [|simpl; eauto].
  intros k x Hin. apply serialize_total.
  pose proof (depth_prop _ _ _ Hin) as Hd. subst n. simpl. lia.
Qed.

(** [save] always stores a text, and does nothing else. *)
Lemma save_stores (w : World App) :
  exists text,
    JSON.stringify (state_value (this w)) sterilizeFunction = Ok (Some text)
    /\ save w = (Ok tt, saved w text).
Proof.
  destruct (stringify_object
              [("sources"%string, VArr (List.map source_value (sources (this w))));
               ("filters"%string,
                VArr (List.map (fun g => VArr (List.map filter_value g))
                        (filtersGroups (this w))));
               ("active"%string, VNum (activeFilterGroup (this w)))])
    as [text Htext].
  exists text. split; [exact Htext|].
  unfold save, bind, get_this, lift. cbv beta iota.
  unfold state_value. cbn [this]. rewrite Htext. reflexivity.
Qed.

(** C9.  The handler of the group-deletion button leaves the groups, the
    active group index, the sources and the content as they are: all it
    does is one [save], which stores the serialization of that unchanged
    state. *)
Theorem group_delete_only_saves (w : World App) :
  exists text,
    JSON.stringify (state_value (this w)) sterilizeFunction = Ok (Some text)
    /\ btnFitlerGroupDel w
       = (Ok tt, mkWorld (this w) (Some text) (log w ++ [StorageSet text]))
    /\ filtersGroups (this (snd (btnFitlerGroupDel w))) = filtersGroups (this w)
    /\ activeFilterGroup (this (snd (btnFitlerGroupDel w)))
       = activeFilterGroup (this w)
    /\ sources (this (snd (btnFitlerGroupDel w))) = sources (this w)
    /\ content (this (snd (btnFitlerGroupDel w))) = content (this w)
    /\ displayed (log (snd (btnFitlerGroupDel w))) = displayed (log w).
Proof.
  destruct (save_stores w) as (text & Htext & Hsave).
  exists text. split; [exact Htext|].
  assert (H : btnFitlerGroupDel w
              = (Ok tt, mkWorld (this w) (Some text) (log w ++ [StorageSet text]))).
  { unfold btnFitlerGroupDel, try_catch. rewrite Hsave. reflexivity. }
  rewrite H. cbn [snd this log]. repeat split; try reflexivity.
  apply displayed_other. reflexivity.
Qed.

End Persistence.


(** ** Parsing inverts serialization *)

Section ParsePrint.
Import JSON.

(** One escaped character reads back as the character. *)
Lemma parse_chars_escape (a : ascii) (tail : string) :
  parse_chars (escape a ++ tail)
  = rbind (parse_chars tail) (fun r => Ok (String a (fst r), snd r)).
Proof.
  destruct a as [[] [] [] [] [] [] [] []]; reflexivity.
Qed.

(** A quoted string reads back as the string. *)
Lemma parse_chars_quote (s rest : string) :
  parse_chars (escape_all s ++ dq ++ rest) = Ok (s, rest).
Proof.
  induction s as [|a s IH].
  - reflexivity.
  - cbn [escape_all]. rewrite append_assoc, parse_chars_escape, IH.
    reflexivity.
Qed.

Lemma delimited_no_digit (rest : string) :
  delimited rest = true -> no_digit_ahead rest.
Proof.
  destruct rest as [|c rest]; simpl; [trivial|].
  unfold is_digit. intro H.
  repeat (apply orb_true_iff in H; destruct H as [H|H]);
    apply Nat.eqb_eq in H; rewrite H; reflexivity.
Qed.

Lemma take_digits_uint (d : Decimal.uint) (rest : string) :
  no_digit_ahead rest ->
  take_digits (NilEmpty.string_of_uint d ++ rest)
  = (NilEmpty.string_of_uint d, rest).
Proof.
  intro Hrest.
  induction d; cbn [NilEmpty.string_of_uint append];
    try (cbn [take_digits]; change (is_digit _) with true; cbv iota;
         rewrite IHd; reflexivity).
  destruct rest as [|c rest]; simpl in *; [reflexivity|].
  rewrite Hrest. reflexivity.
Qed.

Lemma unorm_D0 (d d' : Decimal.uint) :
  Decimal.unorm d = Decimal.D0 d' -> d' = Decimal.Nil.
Proof.
  induction d; simpl; intro H; try discriminate; auto.
  injection H as <-. reflexivity.
Qed.

(** The decimal digits of a positive number do not start with [0]. *)
Lemma to_uint_no_leading_zero (p : positive) (d : Decimal.uint) :
  Pos.to_uint p <> Decimal.D0 d.
Proof.
  intro H.
  assert (Hnorm : Decimal.unorm (Pos.to_uint p) = Pos.to_uint p).
  { rewrite <- (DecimalN.Unsigned.to_of (Pos.to_uint p)).
    change (N.of_uint (Pos.to_uint p)) with (Pos.of_uint (Pos.to_uint p)).
    rewrite DecimalPos.Unsigned.of_to. reflexivity. }
  rewrite H in Hnorm. simpl in Hnorm.
  apply unorm_D0 in Hnorm. subst d.
  exact (DecimalPos.Unsigned.to_uint_nonzero p H).
Qed.

Lemma uint_of_string_digits (d : Decimal.uint) :
  d <> Decimal.Nil ->
  NilZero.uint_of_string (NilEmpty.string_of_uint d) = Some d.
Proof.
  intro Hd. destruct d; [contradiction| ..];
    match goal with
    | |- _ = Some ?x => exact (NilEmpty.usu x)
    end.
Qed.

Lemma delimited_cases (rest : string) :
  delimited rest = true ->
  rest = EmptyString
  \/ exists c r, rest = String c r
                 /\ (nat_of_ascii c =? 46)%nat = false
                 /\ (nat_of_ascii c =? 101)%nat = false
                 /\ (nat_of_ascii c =? 69)%nat = false.
Proof.
  destruct rest as [|c r]; [auto|]. simpl. intro H. right. exists c, r.
  split; [reflexivity|].
  repeat (apply orb_true_iff in H; destruct H as [H|H]);
    apply Nat.eqb_eq in H; rewrite H; repeat split; reflexivity.
Qed.

(** A run of digits without a leading zero, with or without a sign,
    reads back as the number it writes. *)
Lemma parse_number_digits (neg : bool) (d : Decimal.uint) (rest : string) :
  d <> Decimal.Nil ->
  (forall d', d = Decimal.D0 d' -> d' = Decimal.Nil) ->
  delimited rest = true ->
  parse_number ((if neg then "-" else EmptyString)
                ++ NilEmpty.string_of_uint d ++ rest)
  = Ok (VNum ((if neg then -1 else 1) * Z.of_N (N.of_uint d)), rest).
Proof.
  intros Hd Hzero Hrest.
  pose proof (take_digits_uint d rest (delimited_no_digit _ Hrest)) as Htake.
  pose proof (uint_of_string_digits Hd) as Hread.
  assert (Hlead : match NilEmpty.string_of_uint d with
                  | String c more =>
                      (nat_of_ascii c =? 48)%nat && negb (String.eqb more EmptyString)
                      = false
                      /\ (nat_of_ascii c =? 45)%nat = false
                  | EmptyString => False
                  end).
  { destruct d; try contradiction; cbn [NilEmpty.string_of_uint];
      try (split; reflexivity).
    rewrite (Hzero d eq_refl). split; reflexivity. }
  destruct (NilEmpty.string_of_uint d) as [|c more] eqn:Hdigits; [contradiction|].
  destruct Hlead as [Hlead Hminus].
  unfold parse_number.
  destruct neg; cbn [append]; [change (nat_of_ascii "-" =? 45)%nat with true|
                               rewrite Hminus]; cbv iota;
    change (String c (more ++ rest)) with (String c more ++ rest)%string;
    rewrite Htake, Hlead, Hread;
    destruct (delimited_cases _ Hrest) as [->|(c' & r & -> & H1 & H2 & H3)];
    try rewrite H1, H2, H3; reflexivity.
Qed.

(** [Str.of_Z] and [parse_number] are inverse. *)
Lemma parse_number_of_Z (n : Z) (rest : string) :
  delimited rest = true ->
  parse_number (Str.of_Z n ++ rest) = Ok (VNum n, rest).
Proof.
  intro Hrest. unfold Str.of_Z.
  destruct n as [|p|p]; cbn [Z.to_int NilZero.string_of_int].
  - exact (@parse_number_digits false (Decimal.D0 Decimal.Nil) rest
             ltac:(discriminate) ltac:(intros d' H; injection H as <-; reflexivity) Hrest).
  - assert (Hnil := DecimalPos.Unsigned.to_uint_nonnil p).
    pose proof (@parse_number_digits false (Pos.to_uint p) rest Hnil) as H.
    replace (NilZero.string_of_uint (Pos.to_uint p))
      with (NilEmpty.string_of_uint (Pos.to_uint p))
      by (destruct (Pos.to_uint p); [contradiction|reflexivity..]).
    cbn [append] in H. rewrite H; auto.
    + change (N.of_uint (Pos.to_uint p)) with (Pos.of_uint (Pos.to_uint p)).
      rewrite DecimalPos.Unsigned.of_to. reflexivity.
    + intros d' Hd'. exfalso. exact (to_uint_no_leading_zero p Hd').
  - assert (Hnil := DecimalPos.Unsigned.to_uint_nonnil p).
    pose proof (@parse_number_digits true (Pos.to_uint p) rest Hnil) as H.
    replace (NilZero.string_of_uint (Pos.to_uint p))
      with (NilEmpty.string_of_uint (Pos.to_uint p))
      by (destruct (Pos.to_uint p); [contradiction|reflexivity..]).
    change (String "-" (NilEmpty.string_of_uint (Pos.to_uint p)) ++ rest)%string
      with ("-" ++ NilEmpty.string_of_uint (Pos.to_uint p) ++ rest)%string.
    rewrite H; auto.
    + change (N.of_uint (Pos.to_uint p)) with (Pos.of_uint (Pos.to_uint p)).
      rewrite DecimalPos.Unsigned.of_to. reflexivity.
    + intros d' Hd'. exfalso. exact (to_uint_no_leading_zero p Hd').
Qed.

Lemma join_after_first (p : string) (parts : list string) (tail : string) :
  (Str.join "," (p :: parts) ++ tail)%string = (p ++ after_first parts tail)%string.
Proof.
  revert p. induction parts as [|q parts IH]; intro p.
  - reflexivity.
  - change (Str.join "," (p :: q :: parts))
      with (p ++ "," ++ Str.join "," (q :: parts))%string.
    rewrite !append_assoc. cbn [after_first fold_right].
    rewrite IH. reflexivity.
Qed.

Lemma append_nil_r (s : string) : (s ++ EmptyString)%string = s.
Proof. induction s as [|a s IH]; simpl; [reflexivity|]. rewrite IH. reflexivity. Qed.

Lemma substring_all (s : string) : String.substring 0 (String.length s) s = s.
Proof. induction s as [|a s IH]; simpl; [reflexivity|]. rewrite IH. reflexivity. Qed.

Lemma is_digit_dispatch (c : ascii) :
  is_digit c = true ->
  is_ws c = false
  /\ (nat_of_ascii c =? 34)%nat = false
  /\ (nat_of_ascii c =? 91)%nat = false
  /\ (nat_of_ascii c =? 123)%nat = false
  /\ (nat_of_ascii c =? 116)%nat = false
  /\ (nat_of_ascii c =? 102)%nat = false
  /\ (nat_of_ascii c =? 110)%nat = false
  /\ (nat_of_ascii c =? 93)%nat = false.
Proof.
  unfold is_digit, is_ws. intro H. apply andb_true_iff in H.
  destruct H as [Hlo Hhi]. apply Nat.leb_le in Hlo, Hhi.
  repeat split; rewrite ?orb_false_iff; repeat split; apply Nat.eqb_neq; lia.
Qed.

Lemma of_Z_head (n : Z) :
  exists c t, Str.of_Z n = String c t /\ (c = "-"%char \/ is_digit c = true).
Proof.
  unfold Str.of_Z. destruct n as [|p|p]; cbn [Z.to_int NilZero.string_of_int].
  - exists "0"%char, EmptyString. split; [reflexivity|right; reflexivity].
  - pose proof (DecimalPos.Unsigned.to_uint_nonnil p) as Hnil.
    destruct (Pos.to_uint p); [contradiction| ..];
      cbn [NilZero.string_of_uint NilEmpty.string_of_uint];
      eexists _, _; (split; [reflexivity|right; reflexivity]).
  - eexists _, _. split; [reflexivity|left; reflexivity].
Qed.

(** A number is read by [parse_number]. *)
Lemma parse_value_number (fuel : nat) (n : Z) (rest : string) :
  delimited rest = true ->
  parse_value (S fuel) (Str.of_Z n ++ rest) = Ok (VNum n, rest).
Proof.
  intro Hrest. rewrite <- (parse_number_of_Z n rest Hrest).
  destruct (of_Z_head n) as (c & t & -> & [->|Hdigit]).
  - reflexivity.
  - destruct (is_digit_dispatch c Hdigit)
      as (Hws & H34 & H91 & H123 & H116 & H102 & H110 & _).
    cbn [append parse_value skip_ws]. rewrite Hws. cbv zeta.
    rewrite H34, H91, H123, H116, H102, H110, Hdigit, orb_true_r.
    reflexivity.
Qed.

(** The first character of the text of a value starts no white space and
    closes no array. *)
Lemma print_head (v : Value) :
  exists c t, print v = String c t
              /\ is_ws c = false /\ (nat_of_ascii c =? 93)%nat = false.
Proof.
  destruct v as [| |[]|n|s|elems|props|g]; cbn [print];
    try (eexists _, _; repeat split; reflexivity).
  destruct (of_Z_head n) as (c & t & -> & [->|Hdigit]).
  - eexists _, _; repeat split; reflexivity.
  - destruct (is_digit_dispatch c Hdigit) as (Hws & _ & _ & _ & _ & _ & _ & H93).
    eexists _, _; repeat split; assumption.
Qed.

Lemma delimited_after_first (parts : list string) (close : ascii) (rest : string) :
  (nat_of_ascii close =? 93)%nat || (nat_of_ascii close =? 125)%nat = true ->
  delimited (after_first parts (String close rest)) = true.
Proof.
  intro Hclose. destruct parts as [|p parts]; simpl; [|reflexivity].
  apply orb_true_iff in Hclose. destruct Hclose as [H|H]; rewrite H;
    rewrite ?orb_true_r; reflexivity.
Qed.

Lemma size_pos (v : Value) : (1 <= size v)%nat.
Proof. destruct v; simpl; lia. Qed.

Lemma size_elem (x : Value) (elems : list Value) :
  In x elems -> (size x <= list_sum (List.map size elems))%nat.
Proof.
  induction elems as [|y elems IH]; simpl; [intros []|].
  intros [->|Hin]; [lia|]. specialize (IH Hin). lia.
Qed.

Lemma length_le_sizes (elems : list Value) :
  (List.length elems <= list_sum (List.map size elems))%nat.
Proof.
  induction elems as [|y elems IH]; simpl; [lia|].
  pose proof (size_pos y). lia.
Qed.

(** The elements of an array after the first. *)
Lemma parse_elems_print (pv : string -> Result (Value * string))
      (xs : list Value) (rest : string) :
  (forall y tail, In y xs -> delimited tail = true ->
                  pv (print y ++ tail)%string = Ok (y, tail)) ->
  forall (fuel : nat) (acc : list Value),
    (List.length xs < fuel)%nat ->
    parse_elems pv fuel (after_first (List.map print xs) (String "]" rest)) acc
    = Ok (VArr (rev acc ++ xs), rest).
Proof.
  induction xs as [|x xs IH]; intros Hpv fuel acc Hfuel;
    (destruct fuel as [|fuel]; [simpl in Hfuel; lia|]).
  - cbn. rewrite app_nil_r. reflexivity.
  - cbn [List.map after_first fold_right parse_elems append skip_ws].
    change (is_ws ",") with false. cbv iota.
    change (nat_of_ascii "," =? 93)%nat with false.
    change (nat_of_ascii "," =? 44)%nat with true. cbv iota.
    fold (after_first (List.map print xs) (String "]" rest)).
    rewrite Hpv; [|left; reflexivity|apply delimited_after_first; reflexivity].
    cbn [rbind fst snd].
    rewrite IH.
    + cbn [rev]. rewrite <- app_assoc. reflexivity.
    + intros y tail Hy. apply Hpv. right. exact Hy.
    + simpl in Hfuel. lia.
Qed.

Lemma parse_member_print (pv : string -> Result (Value * string))
      (k : string) (v : Value) (tail : string) :
  pv (print v ++ tail)%string = Ok (v, tail) ->
  parse_member pv (member_text (k, v) ++ tail) = Ok ((k, v), tail).
Proof.
  intro Hpv. unfold member_text, quote, parse_member. cbn [fst snd].
  rewrite !append_assoc. cbn [dq append skip_ws].
  change (is_ws (ascii_of_nat 34)) with false. cbv iota.
  change (nat_of_ascii (ascii_of_nat 34) =? 34)%nat with true. cbv iota.
  change (String (ascii_of_nat 34) (String ":" (print v ++ tail)))
    with (dq ++ String ":" (print v ++ tail))%string.
  rewrite parse_chars_quote. cbn [rbind fst snd skip_ws].
  change (is_ws ":") with false. cbv iota.
  change (nat_of_ascii ":" =? 58)%nat with true. cbv iota.
  rewrite Hpv. reflexivity.
Qed.

Lemma define_fresh (k : string) (v : Value) (acc : list (string * Value)) :
  existsb (String.eqb k) (List.map fst acc) = false ->
  define k v acc = acc ++ [(k, v)].
Proof.
  induction acc as [|[k' v'] acc IH]; simpl; [reflexivity|].
  intro H. apply orb_false_iff in H. destruct H as [Hk Hrest].
  rewrite String.eqb_sym, Hk, (IH Hrest). reflexivity.
Qed.

Lemma distinct_middle (l1 l2 : list string) (k : string) :
  distinct (l1 ++ k :: l2) = true -> existsb (String.eqb k) l1 = false.
Proof.
  induction l1 as [|x l1 IH]; simpl; [reflexivity|].
  intro H. apply andb_true_iff in H. destruct H as [Hx Hrest].
  apply negb_true_iff in Hx. rewrite existsb_app in Hx.
  apply orb_false_iff in Hx. destruct Hx as [_ Hx]. simpl in Hx.
  apply orb_false_iff in Hx. destruct Hx as [Hx _].
  rewrite String.eqb_sym, Hx, (IH Hrest). reflexivity.
Qed.

(** The members of an object after the first. *)
Lemma parse_members_print (pv : string -> Result (Value * string))
      (ps : list (string * Value)) (rest : string) :
  (forall k y tail, In (k, y) ps -> delimited tail = true ->
                    pv (print y ++ tail)%string = Ok (y, tail)) ->
  forall (fuel : nat) (acc : list (string * Value)),
    (List.length ps < fuel)%nat ->
    distinct (List.map fst (acc ++ ps)) = true ->
    parse_members pv fuel
      (after_first (List.map member_text ps) (String "}" rest)) acc
    = Ok (VObj (acc ++ ps), rest).
Proof.
  induction ps as [|[k v] ps IH]; intros Hpv fuel acc Hfuel Hkeys;
    (destruct fuel as [|fuel]; [simpl in Hfuel; lia|]).
  - cbn. rewrite app_nil_r. reflexivity.
  - cbn [List.map after_first fold_right parse_members append skip_ws].
    change (is_ws ",") with false. cbv iota.
    change (nat_of_ascii "," =? 125)%nat with false.
    change (nat_of_ascii "," =? 44)%nat with true. cbv iota.
    fold (after_first (List.map member_text ps) (String "}" rest)).
    rewrite parse_member_print;
      [|apply (Hpv k); [left; reflexivity|apply delimited_after_first; reflexivity]].
    cbn [rbind fst snd].
    rewrite map_app in Hkeys. cbn [List.map fst] in Hkeys.
    rewrite (define_fresh _ _ _ (distinct_middle _ _ _ Hkeys)).
    rewrite IH.
    + rewrite <- app_assoc. reflexivity.
    + intros k' y tail Hy. apply (Hpv k'). right. exact Hy.
    + simpl in Hfuel. lia.
    + rewrite <- app_assoc, map_app. exact Hkeys.
Qed.

Lemma size_prop (k : string) (x : Value) (props : list (string * Value)) :
  In (k, x) props ->
  (size x <= list_sum (List.map (fun kv => size (snd kv)) props))%nat.
Proof.
  induction props as [|[k' y] props IH]; simpl; [intros []|].
  intros [H|Hin]; [injection H as _ ->; lia|]. specialize (IH Hin). lia.
Qed.

Lemma length_le_prop_sizes (props : list (string * Value)) :
  (List.length props <= list_sum (List.map (fun kv => size (snd kv)) props))%nat.
Proof.
  induction props as [|[k y] props IH]; simpl; [lia|].
  pose proof (size_pos y). lia.
Qed.

Lemma prefix_append (a b : string) : String.prefix a (a ++ b) = true.
Proof.
  induction a as [|x a IH]; simpl; [destruct b; reflexivity|].
  destruct (ascii_dec x x) as [_|Hneq]; [exact IH|contradiction].
Qed.

Lemma substring_skip (a b : string) (m : nat) :
  String.substring (String.length a) m (a ++ b) = String.substring 0 m b.
Proof. induction a as [|x a IH]; simpl; [reflexivity|exact IH]. Qed.

Lemma keyword_ok (kw : string) (v : Value) (rest : string) :
  keyword kw v (kw ++ rest) = Ok (v, rest).
Proof.
  unfold keyword. rewrite prefix_append, length_append, Nat.add_comm,
    Nat.add_sub, substring_skip, substring_all. reflexivity.
Qed.

(** Parsing inverts printing: the text of a JSON value, followed by
    something that delimits it, reads back as that value and leaves what
    follows, given fuel above the size of the value. *)
Lemma parse_print (fuel : nat) :
  forall (v : Value) (rest : string),
    is_json v = true ->
    (size v < fuel)%nat ->
    delimited rest = true ->
    parse_value fuel (print v ++ rest) = Ok (v, rest).
Proof.
  induction fuel as [|fuel IH]; intros v rest Hjson Hsize Hrest; [lia|].
  destruct v as [| |b|n|s|elems|props|g]; try discriminate.
  - change (parse_value (S fuel) (print VNull ++ rest))
      with (keyword "null" VNull ("null" ++ rest)).
    apply keyword_ok.
  - destruct b.
    + change (parse_value (S fuel) (print (VBool true) ++ rest))
        with (keyword "true" (VBool true) ("true" ++ rest)).
      apply keyword_ok.
    + change (parse_value (S fuel) (print (VBool false) ++ rest))
        with (keyword "false" (VBool false) ("false" ++ rest)).
      apply keyword_ok.
  - apply parse_value_number, Hrest.
  - cbn [print]. unfold quote. rewrite !append_assoc.
    cbn [dq append parse_value skip_ws].
    change (is_ws (ascii_of_nat 34)) with false. cbv iota zeta.
    change (nat_of_ascii (ascii_of_nat 34) =? 34)%nat with true. cbv iota.
    change (String (ascii_of_nat 34) rest) with (dq ++ rest)%string.
    rewrite parse_chars_quote. reflexivity.
  - change (forallb is_json elems = true) in Hjson.
    rewrite forallb_forall in Hjson.
    cbn [print size] in *.
    destruct elems as [|x xs].
    + reflexivity.
    + rewrite !append_assoc. cbn [List.map].
      change ("]" ++ rest)%string with (String "]" rest).
      rewrite join_after_first.
      destruct (print_head x) as (c & t & Hhead & Hws & H93).
      cbn [append parse_value skip_ws]. change (is_ws "[") with false.
      cbv iota zeta. change (nat_of_ascii "[" =? 34)%nat with false.
      change (nat_of_ascii "[" =? 91)%nat with true. cbv iota.
      rewrite Hhead at 1. cbn [append skip_ws]. rewrite Hws, H93.
      simpl in Hsize.
      rewrite IH;
        [|apply Hjson; left; reflexivity|lia
         |apply delimited_after_first; reflexivity].
      cbn [rbind fst snd].
      rewrite parse_elems_print with (acc := [x]).
      * reflexivity.
      * intros y tail Hy Htail. apply IH; [|
          pose proof (size_elem _ _ Hy); lia|exact Htail].
        apply Hjson. right. exact Hy.
      * pose proof (length_le_sizes xs). pose proof (size_pos x). lia.
  - change (forallb (fun kv => is_json (snd kv)) props
            && distinct (List.map fst props) = true) in Hjson.
    apply andb_true_iff in Hjson. destruct Hjson as [Hvalues Hkeys].
    rewrite forallb_forall in Hvalues.
    cbn [print size] in *.
    destruct props as [|[k x] ps].
    + reflexivity.
    + rewrite !append_assoc. cbn [List.map].
      change ("}" ++ rest)%string with (String "}" rest).
      rewrite join_after_first.
      fold (member_text (k, x)).
      change (List.map (fun kv => (quote (fst kv) ++ ":" ++ print (snd kv))%string) ps)
        with (List.map member_text ps).
      cbn [append parse_value skip_ws]. change (is_ws "{") with false.
      cbv iota zeta. change (nat_of_ascii "{" =? 34)%nat with false.
      change (nat_of_ascii "{" =? 91)%nat with false.
      change (nat_of_ascii "{" =? 123)%nat with true. cbv iota.
      assert (Hskip : skip_ws (member_text (k, x)
                               ++ after_first (List.map member_text ps)
                                    (String "}" rest))
                      = String (ascii_of_nat 34)
                          (escape_all k ++ dq ++ ":" ++ print x
                           ++ after_first (List.map member_text ps)
                                (String "}" rest))).
      { unfold member_text, quote. cbn [fst snd]. rewrite !append_assoc.
        reflexivity. }
      rewrite Hskip.
      change (nat_of_ascii (ascii_of_nat 34) =? 125)%nat with false.
      cbv iota.
      simpl in Hsize.
      rewrite parse_member_print;
        [|apply IH; [apply (Hvalues (k, x)); left; reflexivity|lia
                    |apply delimited_after_first; reflexivity]].
      cbn [rbind fst snd].
      rewrite parse_members_print with (acc := [(k, x)]).
      * reflexivity.
      * intros k' y tail Hy Htail. apply IH; [|
          pose proof (size_prop _ _ _ Hy); lia|exact Htail].
        apply (Hvalues (k', y)). right. exact Hy.
      * pose proof (length_le_prop_sizes ps). pose proof (size_pos x). lia.
      * exact Hkeys.
Qed.

Lemma list_sum_le {A} (f g : A -> nat) (l : list A) :
  (forall x, In x l -> (f x <= g x)%nat) ->
  (list_sum (List.map f l) <= list_sum (List.map g l))%nat.
Proof.
  induction l as [|x l IH]; simpl; intro H; [lia|].
  pose proof (H x (or_introl eq_refl)).
  specialize (IH (fun y Hy => H y (or_intror Hy))). lia.
Qed.

Lemma length_join (parts : list string) :
  (list_sum (List.map String.length parts)
   <= String.length (Str.join "," parts))%nat.
Proof.
  induction parts as [|p parts IH]; [simpl; lia|].
  destruct parts as [|q parts]; [simpl; lia|].
  change (Str.join "," (p :: q :: parts))
    with (p ++ "," ++ Str.join "," (q :: parts))%string.
  rewrite !length_append.
  change (list_sum (List.map String.length (p :: q :: parts)))
    with (String.length p + list_sum (List.map String.length (q :: parts)))%nat.
  lia.
Qed.

(** A text is at least as long as the value it writes has nodes. *)
Lemma size_le_length (n : nat) :
  forall v : Value, (size v <= n)%nat -> (size v <= String.length (print v))%nat.
Proof.
  induction n as [|n IH]; intros v Hn;
    [pose proof (size_pos v); lia|].
  destruct v as [| |[]|m|s|elems|props|g]; try (simpl; lia).
  - destruct (of_Z_head m) as (c & t & Hm & _). cbn [print size].
    rewrite Hm. simpl. lia.
  - cbn [print size] in *. rewrite !length_append. cbn [String.length].
    pose proof (length_join (List.map print elems)) as Hjoin.
    rewrite map_map in Hjoin.
    assert (Hsum : (list_sum (List.map size elems)
                    <= list_sum (List.map (fun x => String.length (print x)) elems))%nat).
    { apply list_sum_le. intros x Hx. apply IH.
      pose proof (size_elem _ _ Hx). lia. }
    lia.
  - cbn [print size] in *. rewrite !length_append. cbn [String.length].
    pose proof (length_join
                  (List.map (fun kv => (quote (fst kv) ++ ":" ++ print (snd kv))%string)
                     props)) as Hjoin.
    rewrite map_map in Hjoin.
    assert (Hsum : (list_sum (List.map (fun kv => size (snd kv)) props)
                    <= list_sum
                         (List.map (fun kv => String.length
                                      (quote (fst kv) ++ ":" ++ print (snd kv))%string)
                            props))%nat).
    { apply list_sum_le. intros [k x] Hx. cbn [fst snd].
      rewrite !length_append.
      assert (size x <= String.length (print x))%nat; [|lia].
      apply IH. pose proof (size_prop _ _ _ Hx). lia. }
    lia.
Qed.

(** [JSON.parse], without a reviver, inverts the text of a JSON value. *)
Lemma parse_text_print (v : Value) :
  is_json v = true -> parse_text (print v) = Ok v.
Proof.
  intro Hjson. unfold parse_text.
  rewrite <- (append_nil_r (print v)) at 2.
  rewrite parse_print; [reflexivity|exact Hjson| |reflexivity].
  pose proof (@size_le_length (size v) v (Nat.le_refl _)). lia.
Qed.

End ParsePrint.

(** ** Persist, then load *)

Section RoundTrip.
Context {engine : Engine}.
Import MultiSource JSON.

Lemma of_Z_not_editor (i : Z) : String.eqb (Str.of_Z i) "editor" = false.
Proof.
  destruct (of_Z_head i) as (c & t & -> & [->|Hdigit]); [reflexivity|].
  cbn [String.eqb].
  destruct (Ascii.eqb c "e") eqn:E; [|reflexivity].
  apply Ascii.eqb_eq in E. subst c. discriminate.
Qed.

Lemma serialize_elems_mono (ser ser' : string -> Value -> Result (option string))
      (elems : list Value) :
  (forall k x r, ser k x = Ok r -> ser' k x = Ok r) ->
  forall i parts,
    serialize_elems ser i elems = Ok parts ->
    serialize_elems ser' i elems = Ok parts.
Proof.
  intro Hmono. induction elems as [|x elems IH]; intros i parts; simpl; [auto|].
  destruct (ser (Str.of_Z i) x) as [r| |] eqn:Hx; try discriminate.
  rewrite (Hmono _ _ _ Hx). simpl.
  destruct (serialize_elems ser (i + 1) elems) as [ps| |] eqn:Hrest;
    try discriminate.
  rewrite (IH _ _ Hrest). auto.
Qed.

Lemma serialize_props_mono (ser ser' : string -> Value -> Result (option string))
      (props : list (string * Value)) :
  (forall k x r, ser k x = Ok r -> ser' k x = Ok r) ->
  forall parts,
    serialize_props ser props = Ok parts ->
    serialize_props ser' props = Ok parts.
Proof.
  intro Hmono. induction props as [|[k x] props IH]; intros parts; simpl; [auto|].
  destruct (ser k x) as [r| |] eqn:Hx; try discriminate.
  rewrite (Hmono _ _ _ Hx). simpl.
  destruct (serialize_props ser props) as [ps| |]; try discriminate.
  rewrite (IH _ eq_refl). auto.
Qed.

(** More fuel does not change what a serialization returns. *)
Lemma serialize_mono (replacer : string -> Value -> Value) (fuel : nat) :
  forall fuel' key v r,
    (fuel <= fuel')%nat ->
    SerializeJSONProperty fuel replacer key v = Ok r ->
    SerializeJSONProperty fuel' replacer key v = Ok r.
Proof.
  induction fuel as [|fuel IH]; intros fuel' key v r Hle; [discriminate|].
  destruct fuel' as [|fuel']; [lia|]. simpl.
  destruct (replacer key v) as [| |b|n|s|elems|props|g]; auto.
  - destruct (serialize_elems _ 0 elems) as [parts| |] eqn:H; try discriminate.
    rewrite (@serialize_elems_mono _ (SerializeJSONProperty fuel' replacer)
               elems (fun k x r' => IH fuel' k x r' ltac:(lia)) _ _ H).
    auto.
  - destruct (serialize_props _ props) as [parts| |] eqn:H; try discriminate.
    rewrite (@serialize_props_mono _ (SerializeJSONProperty fuel' replacer)
               props (fun k x r' => IH fuel' k x r' ltac:(lia)) _ H).
    auto.
Qed.

Lemma serialize_elems_map {A} (ser : string -> Value -> Result (option string))
      (h : A -> Value) (t : A -> string) (l : list A) :
  (forall x i, ser (Str.of_Z i) (h x) = Ok (Some (t x))) ->
  forall i, serialize_elems ser i (List.map h l) = Ok (List.map t l).
Proof.
  intro H. induction l as [|x l IH]; intro i; simpl; [reflexivity|].
  rewrite H. simpl. rewrite IH. reflexivity.
Qed.

Lemma sterilize_object (key : string) (props : list (string * Value)) :
  String.eqb key "editor" = false ->
  sterilizeFunction key (VObj props) = VObj props.
Proof.
  intro H. unfold sterilizeFunction. simpl. rewrite andb_false_r, H. reflexivity.
Qed.

Lemma sterilize_array (key : string) (elems : list Value) :
  String.eqb key "editor" = false ->
  sterilizeFunction key (VArr elems) = VArr elems.
Proof.
  intro H. unfold sterilizeFunction. simpl. rewrite andb_false_r, H. reflexivity.
Qed.

Lemma serialize_source (fuel : nat) (key : string) (s : Source) :
  String.eqb key "editor" = false ->
  SerializeJSONProperty (S (S fuel)) sterilizeFunction key (source_value s)
  = Ok (Some (print (source_value s))).
Proof.
  intro Hkey. unfold source_value.
  cbn [SerializeJSONProperty]. rewrite sterilize_object by exact Hkey.
  reflexivity.
Qed.

Lemma serialize_filter (fuel : nat) (key : string) (f : Filter) :
  String.eqb key "editor" = false ->
  SerializeJSONProperty (S (S fuel)) sterilizeFunction key (filter_value f)
  = Ok (Some (print (filter_tree f))).
Proof.
  intro Hkey. unfold filter_value, filter_tree.
  cbn [SerializeJSONProperty]. rewrite sterilize_object by exact Hkey.
  destruct (editor f); reflexivity.
Qed.

Lemma serialize_array {A} (fuel : nat) (key : string)
      (h t : A -> Value) (l : list A) :
  String.eqb key "editor" = false ->
  (forall x i, SerializeJSONProperty fuel sterilizeFunction (Str.of_Z i) (h x)
               = Ok (Some (print (t x)))) ->
  SerializeJSONProperty (S fuel) sterilizeFunction key (VArr (List.map h l))
  = Ok (Some (print (VArr (List.map t l)))).
Proof.
  intros Hkey H. cbn [SerializeJSONProperty]. rewrite sterilize_array by exact Hkey.
  rewrite (serialize_elems_map _ h (fun x => print (t x)) l H).
  cbn [rbind print]. rewrite map_map. reflexivity.
Qed.

(** What [save] stores is the text of [state_tree]. *)
Lemma stringify_state (a : App) :
  JSON.stringify (state_value a) sterilizeFunction
  = Ok (Some (print (state_tree a))).
Proof.
  destruct (stringify_object
              [("sources"%string, VArr (List.map source_value (sources a)));
               ("filters"%string,
                VArr (List.map (fun g => VArr (List.map filter_value g))
                        (filtersGroups a)));
               ("active"%string, VNum (activeFilterGroup a))])
    as [text Htext].
  fold (state_value a) in Htext. rewrite Htext. do 2 f_equal.
  unfold JSON.stringify in Htext.
  apply (@serialize_mono sterilizeFunction _
           (5 + JSON.depth (state_value a))) in Htext; [|lia].
  assert (Hshape : SerializeJSONProperty (5 + JSON.depth (state_value a))
                     sterilizeFunction "" (state_value a)
                   = Ok (Some (print (state_tree a)))).
  { generalize (JSON.depth (state_value a)). intro fuel.
    unfold state_value, state_tree.
    change (5 + fuel)%nat with (S (4 + fuel)).
    cbn [SerializeJSONProperty].
    change (sterilizeFunction EmptyString (VObj ?x)) with (VObj x).
    cbv beta iota. cbn [serialize_props].
    change (4 + fuel)%nat with (S (3 + fuel)).
    rewrite (@serialize_array _ (3 + fuel) "sources" source_value source_value);
      [|reflexivity|intros; apply serialize_source, of_Z_not_editor].
    cbn [rbind].
    rewrite (@serialize_array _ (3 + fuel) "filters"
               (fun g => VArr (List.map filter_value g))
               (fun g => VArr (List.map filter_tree g)));
      [|reflexivity|].
    - reflexivity.
    - intros g i. apply serialize_array; [apply of_Z_not_editor|].
      intros f j. apply serialize_filter, of_Z_not_editor. }
  congruence.
Qed.

Lemma internalize_elems_map {A} (walk : string -> Value -> Result Value)
      (h t : A -> Value) (l : list A) :
  (forall x, In x l -> forall i, walk (Str.of_Z i) (h x) = Ok (t x)) ->
  forall i, internalize_elems walk i (List.map h l) = Ok (List.map t l).
Proof.
  induction l as [|x l IH]; intros H i; simpl; [reflexivity|].
  rewrite (H x (or_introl eq_refl)). simpl.
  rewrite IH by (intros y Hy; apply H; right; exact Hy). reflexivity.
Qed.

(** The reviver leaves everything but strings alone. *)
Lemma desterilize_object (key : string) (props : list (string * Value)) :
  desterilizeFunction key (VObj props) = Ok (VObj props).
Proof. unfold desterilizeFunction. simpl. rewrite andb_false_r. reflexivity. Qed.

Lemma desterilize_array (key : string) (elems : list Value) :
  desterilizeFunction key (VArr elems) = Ok (VArr elems).
Proof. unfold desterilizeFunction. simpl. rewrite andb_false_r. reflexivity. Qed.

Lemma internalize_source (key : string) (s : Source) :
  internalize desterilizeFunction key (source_value s) = Ok (source_value s).
Proof.
  unfold source_value. cbn [internalize internalize_props].
  change (desterilizeFunction "id" (VStr (sourceId s))) with (Ok (VStr (sourceId s))).
  change (desterilizeFunction "url" (VStr (url s))) with (Ok (VStr (url s))).
  cbn [rbind]. apply desterilize_object.
Qed.

Lemma internalize_filter (key : string) (f : Filter) :
  compiles PARAMS (getFunctionContent (func f)) = true ->
  internalize desterilizeFunction key (filter_tree f) = Ok (revived_filter f).
Proof.
  intro Hc. unfold filter_tree, revived_filter.
  cbn [internalize internalize_props].
  change (desterilizeFunction "id" (VStr (id f))) with (Ok (VStr (id f))).
  change (desterilizeFunction "type" (VStr (type f))) with (Ok (VStr (type f))).
  assert (Hfunc : desterilizeFunction "func" (VStr (getFunctionContent (func f)))
                  = Ok (VFun (mkFunc PARAMS (getFunctionContent (func f))))).
  { unfold desterilizeFunction, new_Function. simpl. rewrite Hc. reflexivity. }
  rewrite Hfunc. cbn [rbind]. apply desterilize_object.
Qed.

Lemma internalize_array {A} (key : string) (h t : A -> Value) (l : list A) :
  (forall x, In x l ->
             forall i, internalize desterilizeFunction (Str.of_Z i) (h x) = Ok (t x)) ->
  internalize desterilizeFunction key (VArr (List.map h l))
  = Ok (VArr (List.map t l)).
Proof.
  intro H. cbn [internalize].
  rewrite (internalize_elems_map _ h t l H). cbn [rbind].
  apply desterilize_array.
Qed.

Lemma internalize_state (a : App) :
  bodies_compile a ->
  internalize desterilizeFunction EmptyString (state_tree a)
  = Ok (revived_state a).
Proof.
  intro Hc. unfold state_tree, revived_state.
  assert (Hsources : internalize desterilizeFunction "sources"
                       (VArr (List.map source_value (sources a)))
                     = Ok (VArr (List.map source_value (sources a)))).
  { apply internalize_array. intros. apply internalize_source. }
  assert (Hfilters : internalize desterilizeFunction "filters"
                       (VArr (List.map (fun g => VArr (List.map filter_tree g))
                                (filtersGroups a)))
                     = Ok (VArr (List.map (fun g => VArr (List.map revived_filter g))
                                   (filtersGroups a)))).
  { apply internalize_array. intros g Hg i. apply internalize_array.
    intros f Hf j. apply internalize_filter. exact (Hc g f Hg Hf). }
  remember (VArr (List.map source_value (sources a))) as srcs.
  remember (VArr (List.map (fun g => VArr (List.map filter_tree g))
                    (filtersGroups a))) as groups.
  cbn [internalize internalize_props].
  rewrite Hsources, Hfilters. cbn [rbind]. subst srcs.
  apply desterilize_object.
Qed.

Lemma all_some_map {A B} (h : A -> Value) (elem : Value -> option B)
      (t : A -> B) (l : list A) :
  (forall x, elem (h x) = Some (t x)) ->
  as_array elem (VArr (List.map h l)) = Some (List.map t l).
Proof.
  intro H. unfold as_array. induction l as [|x l IH]; simpl; [reflexivity|].
  rewrite H, IH. reflexivity.
Qed.

(** The three fields that [load] reads from the revived record. *)
Lemma members_revived (a : App) :
  rbind (member (revived_state a) "filters")
    (typed (as_array (as_array as_filter)))
  = Ok (List.map (List.map reloaded) (filtersGroups a))
  /\ rbind (member (revived_state a) "active") (typed as_number)
     = Ok (activeFilterGroup a)
  /\ rbind (member (revived_state a) "sources") (typed (as_array as_source))
     = Ok (sources a).
Proof.
  unfold member, revived_state, typed.
  cbn [JS.lookup String.eqb Ascii.eqb Bool.eqb rbind as_number].
  rewrite (@all_some_map _ _ source_value as_source (fun s => s))
    by (intros [i u]; reflexivity).
  rewrite (@all_some_map _ _ (fun g => VArr (List.map revived_filter g))
             (as_array as_filter) (List.map reloaded))
    by (intro g; apply all_some_map; intro f; reflexivity).
  rewrite map_id. repeat split.
Qed.

Lemma is_json_state (a : App) : is_json (state_tree a) = true.
Proof.
  unfold state_tree. cbn [is_json forallb snd fst List.map distinct].
  assert (Hsrc : forallb is_json (List.map source_value (sources a)) = true).
  { apply forallb_forall. intros v Hv. apply in_map_iff in Hv.
    destruct Hv as (s & <- & _). reflexivity. }
  assert (Hgroups : forallb is_json
                      (List.map (fun g => VArr (List.map filter_tree g))
                         (filtersGroups a)) = true).
  { apply forallb_forall. intros v Hv. apply in_map_iff in Hv.
    destruct Hv as (g & <- & _). cbn [is_json].
    apply forallb_forall. intros v Hv. apply in_map_iff in Hv.
    destruct Hv as (f & <- & _). reflexivity. }
  change (is_json (VArr (List.map source_value (sources a))))
    with (forallb is_json (List.map source_value (sources a))).
  change (is_json (VArr (List.map (fun g => VArr (List.map filter_tree g))
                           (filtersGroups a))))
    with (forallb is_json (List.map (fun g => VArr (List.map filter_tree g))
                             (filtersGroups a))).
  rewrite Hsrc, Hgroups. reflexivity.
Qed.

Lemma fetch_all_log (l : list Source) (w : World App) :
  fetch_all l w
  = (Ok tt, mkWorld (this w) (localStorage w)
              (log w ++ List.map (fun s => Fetch (url s)) l)).
Proof.
  revert w. induction l as [|s l IH]; intro w.
  - simpl. unfold ret. rewrite app_nil_r. destruct w; reflexivity.
  - cbn [fetch_all]. unfold bind, emit. rewrite IH. cbn.
    rewrite <- app_assoc. reflexivity.
Qed.

(** Persist, then load: for every application state whose stored step
    bodies compile, [load] reads from the record that [save] stored the
    same sources and the same active index, and the same groups with every
    step rebuilt from its body text; it keeps the content it had and starts
    one fetch per source. *)
Lemma save_then_load (a : App) (store : option string) (events events' : list Event)
      (fresh : App) :
  bodies_compile a ->
  let w1 := snd (save (mkWorld a store events)) in
  localStorage w1 = Some (print (state_tree a))
  /\ load (mkWorld fresh (localStorage w1) events')
     = (Ok tt,
        mkWorld (mkApp (sources a) (content fresh)
                   (List.map (List.map reloaded) (filtersGroups a))
                   (activeFilterGroup a))
          (localStorage w1)
          (events' ++ List.map (fun s => Fetch (url s)) (sources a))).
Proof.
  intros Hc w1.
  assert (Hstore : localStorage w1 = Some (print (state_tree a))).
  { unfold w1. destruct (save_stores (mkWorld a store events))
      as (text & Htext & ->).
    cbn [this] in Htext. rewrite stringify_state in Htext.
    injection Htext as <-. reflexivity. }
  split; [exact Hstore|]. rewrite Hstore.
  unfold load. cbn [localStorage].
  assert (Hnonempty : String.eqb (print (state_tree a)) EmptyString = false)
    by reflexivity.
  rewrite Hnonempty.
  assert (Hparse : JSON.parse (print (state_tree a)) desterilizeFunction
                   = Ok (revived_state a)).
  { unfold JSON.parse. rewrite (parse_text_print _ (is_json_state a)).
    cbn [rbind]. apply internalize_state, Hc. }
  destruct (members_revived a) as (Hfilters & Hactive & Hsources).
  cbv [bind lift set_filtersGroups set_activeFilterGroup set_sources
       get_this put_this].
  rewrite Hparse, Hfilters, Hactive, Hsources, fetch_all_log. reflexivity.
Qed.

End RoundTrip.


(** ** Frames of the handlers *)

Section Frames.
Context {engine : Engine}.
Import MultiSource.

Section Preserves.
Variable R : World App -> World App -> Prop.
Hypothesis R_refl : forall w, R w w.
Hypothesis R_trans : forall w1 w2 w3, R w1 w2 -> R w2 w3 -> R w1 w3.

Lemma preserves_ret {A} (a : A) : preserves R (ret a).
Proof. intro w. apply R_refl. Qed.

Lemma preserves_lift {A} (r : Result A) : preserves R (lift r).
Proof. intro w. apply R_refl. Qed.

Lemma preserves_throw {A} (e : Error) : preserves R (throw (A := A) e).
Proof. intro w. apply R_refl. Qed.

Lemma preserves_stuck {A} : preserves R (stuck (A := A)).
Proof. intro w. apply R_refl. Qed.

Lemma preserves_get_this : preserves R get_this.
Proof. intro w. apply R_refl. Qed.

Lemma preserves_bind {A B} (m : M A) (k : A -> M B) :
  preserves R m -> (forall a, preserves R (k a)) -> preserves R (bind m k).
Proof.
  intros Hm Hk w. unfold bind. specialize (Hm w).
  destruct (m w) as [[a|e|] w1]; simpl in *; auto.
  eapply R_trans; [exact Hm|apply Hk].
Qed.

Lemma preserves_try_catch (m : M unit) (h : Error -> M unit) :
  preserves R m -> (forall e, preserves R (h e)) -> preserves R (try_catch m h).
Proof.
  intros Hm Hh w. unfold try_catch. specialize (Hm w).
  destruct (m w) as [[a|e|] w1]; simpl in *; auto.
  eapply R_trans; [exact Hm|apply Hh].
Qed.

End Preserves.

Lemma same_this_refl (w : World App) : same_this w w.
Proof. reflexivity. Qed.

Lemma same_this_trans (w1 w2 w3 : World App) :
  same_this w1 w2 -> same_this w2 w3 -> same_this w1 w3.
Proof. unfold same_this. congruence. Qed.

Lemma only_editors_refl (w : World App) : only_editors w w.
Proof. repeat split. Qed.

Lemma only_editors_trans (w1 w2 w3 : World App) :
  only_editors w1 w2 -> only_editors w2 w3 -> only_editors w1 w3.
Proof.
  unfold only_editors, same_pipeline.
  intros (H1 & H2 & H3) (H1' & H2' & H3'). intuition congruence.
Qed.

Lemma process_same_this : preserves same_this process.
Proof.
  intro w. rewrite process_runs_filters. unfold process_outcome.
  destruct (run_filters _ _) as [[d|]| |]; reflexivity.
Qed.

Lemma save_same_this : preserves same_this save.
Proof.
  intro w. destruct (save_stores w) as (text & _ & ->). reflexivity.
Qed.

Lemma emit_same_this (ev : Event) : preserves same_this (emit ev).
Proof. intro w. reflexivity. Qed.

(** Reading an element is reading inside the array. *)
Lemma get_Some {A} (l : list A) (i : Z) (x : A) :
  JS.get l i = Some x ->
  (0 <=? i) && (i <? Z.of_nat (List.length l)) = true
  /\ nth_error l (Z.to_nat i) = Some x.
Proof.
  unfold JS.get. destruct (i <? 0) eqn:Hneg; [discriminate|].
  intro Hnth. split; [|exact Hnth].
  apply Z.ltb_ge in Hneg.
  assert (Hlt : (Z.to_nat i < List.length l)%nat)
    by (apply nth_error_Some; congruence).
  apply andb_true_iff. split; [apply Z.leb_le; lia|apply Z.ltb_lt; lia].
Qed.

Lemma get_at {A} (l : list A) (i : Z) (x : A) :
  JS.get l i = Some x -> JS.at_ l i = Some x.
Proof.
  unfold JS.get, JS.at_. destruct (i <? 0) eqn:Hneg; [discriminate|].
  rewrite Hneg. auto.
Qed.

Lemma map_set_nth {A B} (f : A -> B) (i : nat) (x y : A) (l : list A) :
  nth_error l i = Some y -> f x = f y ->
  List.map f (JS.set_nth i x l) = List.map f l.
Proof.
  revert i. induction l as [|z l IH]; intros [|i] Hnth Hf; simpl in *;
    try discriminate.
  - injection Hnth as ->. rewrite Hf. reflexivity.
  - rewrite (IH i Hnth Hf). reflexivity.
Qed.

(** Replacing the active group by one with the same steps, up to editor
    handles, changes editor handles only. *)
Lemma assign_same_steps (group group' : list Filter) (w : World App) :
  JS.get (filtersGroups (this w)) (activeFilterGroup (this w)) = Some group ->
  List.map persistent group' = List.map persistent group ->
  fst (assign_active_group group' w) = Ok tt
  /\ only_editors w (snd (assign_active_group group' w)).
Proof.
  intros Hget Hsame. apply get_Some in Hget. destruct Hget as [Hrange Hnth].
  unfold assign_active_group, bind, get_this, set_filtersGroups, put_this.
  cbv beta iota. cbn [this]. rewrite Hrange. cbn.
  split; [reflexivity|].
  unfold only_editors, same_pipeline. cbn.
  repeat split.
  apply map_set_nth with (y := group); assumption.
Qed.

Lemma attach_editor_only_editors (filter : Filter) :
  preserves only_editors (attach_editor filter).
Proof.
  intro w. unfold attach_editor, bind, get_this. cbv beta iota.
  destruct (JS.get (filtersGroups (this w)) (activeFilterGroup (this w)))
    as [group|] eqn:Hget; [|apply only_editors_refl].
  destruct (JS.findIndex _ group) as [idx|]; [|apply only_editors_refl].
  destruct (nth_error group idx) as [e|] eqn:Hnth; [|apply only_editors_refl].
  eapply assign_same_steps; [exact Hget|].
  eapply map_set_nth; [exact Hnth|reflexivity].
Qed.

Lemma attach_editors_only_editors (filters : list Filter) :
  preserves only_editors (attach_editors filters).
Proof.
  induction filters as [|f filters IH]; simpl.
  - apply preserves_ret, only_editors_refl.
  - apply preserves_bind.
    + exact only_editors_trans.
    + apply attach_editor_only_editors.
    + intros _. exact IH.
Qed.

(** [updateDisplay] changes editor handles only. *)
Lemma updateDisplay_only_editors : preserves only_editors updateDisplay.
Proof.
  intro w. unfold updateDisplay, bind, get_this. cbv beta iota.
  destruct (JS.at_ _ _); [apply attach_editors_only_editors|apply only_editors_refl].
Qed.

Lemma pipeline_kept_refl (w : World App) : pipeline_kept w w.
Proof. repeat split. Qed.






Lemma nth_error_set_nth {A} (i : nat) (x : A) (l : list A) :
  (i < List.length l)%nat -> nth_error (JS.set_nth i x l) i = Some x.
Proof.
  revert i. induction l as [|y l IH]; intros [|i] Hlt; simpl in *;
    try lia; [reflexivity|].
  apply IH. lia.
Qed.

Lemma at_in_range {A} (l : list A) (i : Z) (x : A) :
  0 <= i -> nth_error l (Z.to_nat i) = Some x -> JS.at_ l i = Some x.
Proof.
  intros Hi Hnth. unfold JS.at_.
  destruct (i <? 0) eqn:Hneg; [apply Z.ltb_lt in Hneg; lia|].
  rewrite Hneg. exact Hnth.
Qed.


(** C3 fails on the code for the reset button: [btnFiltersReset] empties
    the active group and saves, and never runs [process].  Every run of
    [process] logs its seed and, unless it is aborted, calls the viewer;
    a reset adds neither to the log, so the viewer keeps showing the
    result of the steps that are gone. *)
Theorem reset_saves_without_recompute (w : World App) :
  let w' := snd (btnFiltersReset w) in
  List.filter is_ConsoleLog (log w') = List.filter is_ConsoleLog (log w)
  /\ List.filter is_ViewerSet (log w') = List.filter is_ViewerSet (log w)
  /\ displayed (log w') = displayed (log w)
  /\ (JS.get (filtersGroups (this w)) (activeFilterGroup (this w)) = None ->
      btnFiltersReset w = (Ok tt, w))
  /\ (forall group,
        JS.get (filtersGroups (this w)) (activeFilterGroup (this w)) = Some group ->
        exists text,
          btnFiltersReset w
          = (Ok tt, mkWorld (reset_app (this w)) (Some text)
                      (log w ++ [StorageSet text]))).
Proof.
  cbv zeta.
  destruct (JS.get (filtersGroups (this w)) (activeFilterGroup (this w)))
    as [group|] eqn:Hget.
  - set (w1 := mkWorld (reset_app (this w)) (localStorage w) (log w)).
    destruct (save_stores w1) as (text & _ & Hsave).
    assert (Hrun : btnFiltersReset w
                   = (Ok tt, mkWorld (reset_app (this w)) (Some text)
                               (log w ++ [StorageSet text]))).
    { destruct (get_Some _ _ Hget) as [Hrange Hnth].
      unfold btnFiltersReset, bind at 1. unfold get_this at 1.
      cbv beta iota. rewrite Hget.
      unfold bind at 1. unfold assign_active_group, bind at 1.
      unfold get_this at 1. cbv beta iota. rewrite Hrange.
      unfold set_filtersGroups, bind at 1. unfold get_this at 1, put_this.
      cbv beta iota. fold (reset_app (this w)). fold w1.
      unfold bind at 1. unfold updateDisplay, bind at 1.
      unfold get_this at 1. cbv beta iota.
      assert (Hat : JS.at_ (filtersGroups (this w1)) (activeFilterGroup (this w1))
                    = Some []).
      { apply andb_true_iff in Hrange. destruct Hrange as [Hlo Hhi].
        apply Z.leb_le in Hlo. apply Z.ltb_lt in Hhi.
        unfold w1, reset_app. cbn [this filtersGroups activeFilterGroup].
        apply at_in_range; [exact Hlo|].
        apply nth_error_set_nth. lia. }
      rewrite Hat. cbn [attach_editors]. unfold ret at 1. cbv beta iota.
      rewrite Hsave. reflexivity. }
    rewrite Hrun. cbn [snd log].
    rewrite !filter_app. cbn. rewrite !app_nil_r.
    repeat split; try discriminate.
    + apply displayed_other. reflexivity.
    + intros g _. exists text. reflexivity.
  - assert (Hrun : btnFiltersReset w = (Ok tt, w)).
    { unfold btnFiltersReset, bind, get_this. cbv beta iota.
      rewrite Hget. reflexivity. }
    rewrite Hrun. repeat split; try reflexivity; intros; discriminate.
Qed.

Lemma storage_kept_refl (w : World App) : storage_kept w w.
Proof. split; reflexivity. Qed.

Lemma storage_kept_trans (w1 w2 w3 : World App) :
  storage_kept w1 w2 -> storage_kept w2 w3 -> storage_kept w1 w3.
Proof. unfold storage_kept. intuition congruence. Qed.

Lemma process_storage_kept : preserves storage_kept process.
Proof.
  intro w. rewrite process_runs_filters. unfold process_outcome, storage_kept.
  destruct (run_filters _ _) as [[d|]| |]; cbn;
    rewrite filter_app; cbn; rewrite app_nil_r; split; reflexivity.
Qed.

Lemma updateDisplay_storage_kept : preserves storage_kept updateDisplay.
Proof.
  intro w. destruct (updateDisplay_only_editors w) as (_ & Hstore & Hlog).
  unfold storage_kept. rewrite Hstore, Hlog. split; reflexivity.
Qed.

Lemma assign_storage_kept (group : list Filter) :
  preserves storage_kept (assign_active_group group).
Proof.
  intro w. unfold assign_active_group, bind, get_this, set_filtersGroups,
             put_this, stuck.
  cbv beta iota.
  destruct ((0 <=? _) && _); [split; reflexivity|].
  destruct (_ =? _); split; reflexivity.
Qed.

(** ... and for the two step-level mutations. *)
Lemma selectTypeChange_storage_kept (filter_id value : string) :
  preserves storage_kept (selectTypeChange filter_id value).
Proof.
  intro w. unfold selectTypeChange, bind at 1. unfold get_this at 1.
  cbv beta iota.
  destruct (JS.at_ _ _) as [g|]; [|apply storage_kept_refl].
  destruct (JS.findIndex _ g) as [idx|]; [|apply storage_kept_refl].
  destruct (String.eqb value EmptyString); [apply storage_kept_refl|].
  destruct (JS.get _ _) as [group|]; [|apply storage_kept_refl].
  destruct (nth_error group idx) as [e|]; [|apply storage_kept_refl].
  apply preserves_bind; [exact storage_kept_trans| |intros _].
  - apply assign_storage_kept.
  - apply process_storage_kept.
Qed.

Lemma removeFilterClick_storage_kept (filter_id : string) :
  preserves storage_kept (removeFilterClick filter_id).
Proof.
  intro w. unfold removeFilterClick, bind at 1. unfold get_this at 1.
  cbv beta iota.
  destruct (JS.get _ _) as [group|]; [|apply storage_kept_refl].
  apply preserves_bind; [exact storage_kept_trans| |intros _].
  - apply assign_storage_kept.
  - apply preserves_bind; [exact storage_kept_trans| |intros _].
    + apply updateDisplay_storage_kept.
    + apply process_storage_kept.
Qed.


(** ** Sources and content *)

Lemma refresh_same_this : preserves same_this (process ;; save).
Proof.
  apply preserves_bind; [exact same_this_trans| |intros _].
  - apply process_same_this.
  - apply save_same_this.
Qed.

(** C5 fails on the code for the fetch of a newly added source: when it
    resolves, the content item is appended whatever the sources are, also
    when the source with that id is gone. *)
Theorem source_fetch_always_appends (w : World App) (id : string) (item : Value) :
  content (this (snd (sourceFetched id item w)))
  = content (this w) ++ [mkContent id item]
  /\ sources (this (snd (sourceFetched id item w))) = sources (this w).
Proof.
  set (a1 := mkApp (sources (this w)) (content (this w) ++ [mkContent id item])
               (filtersGroups (this w)) (activeFilterGroup (this w))).
  set (w1 := mkWorld a1 (localStorage w) (log w)).
  assert (Hstart : sourceFetched id item w
                   = try_catch (process ;; save)
                       (fun error => emit (Alert "Failed to load source") ;;
                                     emit (ConsoleError error)) w1)
    by reflexivity.
  assert (Hthis : same_this w1 (snd (sourceFetched id item w))).
  { rewrite Hstart.
    apply preserves_try_catch; [exact same_this_trans| |intro e].
    - apply refresh_same_this.
    - apply preserves_bind; [exact same_this_trans| |intros _];
        apply emit_same_this. }
  unfold same_this in Hthis. rewrite Hthis. split; reflexivity.
Qed.

(** The sibling path: the fetch of an edited source is dropped when no
    content item has its id. *)
Lemma edit_fetch_drops_unknown (w : World App) (id : string) (item : Value) :
  JS.findIndex (fun e => String.eqb (contentId e) id) (content (this w)) = None ->
  editFetched id item w = (Ok tt, w).
Proof.
  intro Hnone. unfold editFetched, try_catch, bind, get_this. cbv beta iota.
  rewrite Hnone. reflexivity.
Qed.

(** The remove button of a source: the source found by id and the
    content item at the same position are spliced out, then the pipeline
    is recomputed and saved. *)
Lemma remove_source_steps (w : World App) (id : string) (idx : nat) :
  id <> EmptyString ->
  JS.findIndex (fun e => String.eqb (sourceId e) id) (sources (this w)) = Some idx ->
  removeSourceClick (Some id) w
  = (process ;; save)
      (mkWorld (mkApp (JS.splice1 idx (sources (this w)))
                  (JS.splice1 idx (content (this w)))
                  (filtersGroups (this w)) (activeFilterGroup (this w)))
         (localStorage w) (log w)).
Proof.
  intros Hid Hidx. unfold removeSourceClick.
  destruct (String.eqb id EmptyString) eqn:E;
    [apply String.eqb_eq in E; contradiction|].
  unfold bind at 1. unfold get_this at 1. cbv beta iota.
  rewrite Hidx. reflexivity.
Qed.

(** C6 fails on the code where content and sources are not aligned: the
    remove button deletes the source found by id, and the content item at
    the position of that source, whatever its id. *)
Theorem remove_source_is_positional (w : World App) (id : string) (idx : nat) :
  id <> EmptyString ->
  JS.findIndex (fun e => String.eqb (sourceId e) id) (sources (this w)) = Some idx ->
  sources (this (snd (removeSourceClick (Some id) w)))
  = JS.splice1 idx (sources (this w))
  /\ content (this (snd (removeSourceClick (Some id) w)))
     = JS.splice1 idx (content (this w)).
Proof.
  intros Hid Hidx.
  rewrite (remove_source_steps w Hid Hidx), refresh_same_this.
  split; reflexivity.
Qed.

(** Where the content items are in the order of their sources and the
    ids are distinct, position and id agree: the remove button then
    removes exactly the source and the content item with the given id. *)
Lemma splice1_by_id {A} (key : A -> string) (id : string) (l : list A) (idx : nat) :
  NoDup (List.map key l) ->
  JS.findIndex (fun e => String.eqb (key e) id) l = Some idx ->
  JS.splice1 idx l = List.filter (fun e => negb (String.eqb (key e) id)) l.
Proof.
  revert idx. induction l as [|x l IH]; intros idx Hnodup Hidx; simpl in *;
    [discriminate|].
  inversion Hnodup as [|? ? Hnotin Hrest]; subst.
  destruct (String.eqb (key x) id) eqn:E; simpl.
  - injection Hidx as <-. simpl.
    apply String.eqb_eq in E.
    symmetry. apply forallb_filter_id.
    apply forallb_forall. intros y Hy.
    apply negb_true_iff, String.eqb_neq. intro Heq.
    apply Hnotin. rewrite E, <- Heq. apply in_map, Hy.
  - destruct (JS.findIndex _ l) as [i|] eqn:Hi; [|discriminate].
    injection Hidx as <-. simpl. f_equal. apply IH; auto.
Qed.

(** X24.  When the content items are aligned with the sources (same
    ids at the same positions, no id twice), the remove button of a source
    removes that source and its content item, and the alignment holds
    afterwards. *)
Lemma remove_source_aligned (w : World App) (id : string) :
  id <> EmptyString ->
  List.map contentId (content (this w)) = List.map sourceId (sources (this w)) ->
  NoDup (List.map sourceId (sources (this w))) ->
  In id (List.map sourceId (sources (this w))) ->
  let w' := snd (removeSourceClick (Some id) w) in
  sources (this w')
  = List.filter (fun e => negb (String.eqb (sourceId e) id)) (sources (this w))
  /\ content (this w')
     = List.filter (fun e => negb (String.eqb (contentId e) id)) (content (this w))
  /\ List.map contentId (content (this w')) = List.map sourceId (sources (this w')).
Proof.
  intros Hid Haligned Hnodup Hin. cbv zeta.
  assert (Hfind : forall {A} (key : A -> string) (l : list A),
             In id (List.map key l) ->
             exists idx, JS.findIndex (fun e => String.eqb (key e) id) l = Some idx).
  { intros A key l. induction l as [|x l IH]; simpl; [intros []|].
    intros [Hx|Hl].
    - apply String.eqb_eq in Hx. rewrite Hx. eauto.
    - destruct (String.eqb (key x) id); [eauto|].
      destruct (IH Hl) as [i ->]. eauto. }
  assert (Hsame : forall (ss : list Source) (cs : list ContentItem),
             List.map contentId cs = List.map sourceId ss ->
             JS.findIndex (fun e => String.eqb (contentId e) id) cs
             = JS.findIndex (fun e => String.eqb (sourceId e) id) ss).
  { induction ss as [|s ss IH]; intros [|c cs] Hmap; simpl in *;
      try discriminate; [reflexivity|].
    injection Hmap as Hhead Htail. rewrite Hhead.
    destruct (String.eqb (sourceId s) id); [reflexivity|].
    rewrite (IH cs Htail). reflexivity. }
  destruct (Hfind _ sourceId (sources (this w)) Hin) as [idx Hidx].
  rewrite (remove_source_steps w Hid Hidx), refresh_same_this.
  cbn [this sources content].
  rewrite (splice1_by_id sourceId id (sources (this w)) Hnodup Hidx).
  rewrite (splice1_by_id contentId id (content (this w))).
  - repeat split.
    clear - Haligned.
    revert Haligned. generalize (content (this w)).
    induction (sources (this w)) as [|s ss IH]; intros [|c cs] Hmap;
      simpl in *; try discriminate; [reflexivity|].
    injection Hmap as Hhead Htail. rewrite Hhead.
    destruct (String.eqb (sourceId s) id); simpl; [|rewrite Hhead; f_equal];
      apply IH; assumption.
  - rewrite Haligned. exact Hnodup.
  - rewrite (Hsame _ _ Haligned). exact Hidx.
Qed.

End Frames.



(** A negative index that [at] resolves from the end: [-1] becomes the
    active index, [updateDisplay] fails on [filtersGroups[-1]], the error
    goes to the console, and neither [process] nor [save] runs. *)
Example select_group_negative_index :
  MultiSource.selectFilterGroupChange (engine := MiniJS.engine) (-1)
    Examples.shown_world
  = (Ok tt,
     mkWorld (MultiSource.with_active Examples.shown_app (-1)) None
       (log Examples.shown_world
        ++ [ConsoleError
              (TypeError "filtersGroups[activeFilterGroup] is undefined")])).
Proof. reflexivity. Qed.

Lemma reset_saves_without_recompute_witness :
  let w := Examples.shown_world in
  let w' := snd (MultiSource.btnFiltersReset w) in
  MultiSource.filtersGroups (this w') = [[]]
  /\ displayed (log w') = Some (VArr [VNum 70])
  /\ displayed (log (snd (MultiSource.process (engine := MiniJS.engine) w')))
     = Some (VArr [VNum 7]).
Proof.
  destruct (reset_saves_without_recompute Examples.shown_world)
    as (_ & _ & Hshown & _ & Hreset).
  destruct (Hreset [Examples.map_x10] eq_refl) as [text Hrun].
  split; [|split].
  - rewrite Hrun. reflexivity.
  - rewrite Hshown. reflexivity.
  - rewrite Hrun. cbn [snd]. rewrite process_runs_filters. reflexivity.
Defined.

(** At the failing input of C5: no source is left, the fetch for the id
    [a] resolves, and the content holds an item no source accounts for. *)
Lemma source_fetch_always_appends_witness :
  let w' := snd (MultiSource.sourceFetched (engine := MiniJS.engine)
                   "a" (VNum 1) Examples.empty_world) in
  MultiSource.content (this w') = [mkContent "a" (VNum 1)]
  /\ MultiSource.sources (this w') = [].
Proof.
  exact (source_fetch_always_appends (engine := MiniJS.engine)
           Examples.empty_world "a" (VNum 1)).
Defined.

(** At the failing input of C6: the source [a] has no content item yet;
    removing it deletes the content item of [b]. *)
Lemma remove_source_is_positional_witness :
  let w' := snd (MultiSource.removeSourceClick (engine := MiniJS.engine)
                   (Some "a"%string) Examples.one_loaded) in
  MultiSource.sources (this w') = [mkSource "b" "u/b.json"]
  /\ MultiSource.content (this w') = [].
Proof.
  apply (remove_source_is_positional (engine := MiniJS.engine)
           Examples.one_loaded (id := "a") (idx := 0)).
  - discriminate.
  - reflexivity.
Defined.

(** ... and where the fetches resolved out of order, removing [a] leaves
    the content item of [a] behind, with no source of that id. *)
Lemma remove_source_leaves_orphan :
  let w' := snd (MultiSource.removeSourceClick (engine := MiniJS.engine)
                   (Some "a"%string) Examples.out_of_order) in
  List.map sourceId (MultiSource.sources (this w')) = ["b"%string]
  /\ List.map contentId (MultiSource.content (this w')) = ["a"%string].
Proof.
  vm_compute. split; reflexivity.
Qed.


(** ** The step function codec *)

Section CodecProperties.
Context {engine : Engine}.

Lemma lastIndexOf_nonneg (c : ascii) (s : string) :
  0 <= Str.lastIndexOf c (s ++ String c EmptyString).
Proof.
  induction s as [|a s IH]; simpl.
  - rewrite Ascii.eqb_refl. lia.
  - destruct (0 <=? _) eqn:E; [|apply Z.leb_gt in E]; lia.
Qed.

(** The last occurrence of a character a string ends with is its last
    position. *)
Lemma lastIndexOf_last (c : ascii) (s : string) :
  Str.lastIndexOf c (s ++ String c EmptyString) = Str.len s.
Proof.
  unfold Str.len. induction s as [|a s IH].
  - simpl. rewrite Ascii.eqb_refl. reflexivity.
  - cbn [append Str.lastIndexOf String.length]. rewrite IH.
    destruct (0 <=? Z.of_nat (String.length s)) eqn:E;
      [|apply Z.leb_gt in E]; lia.
Qed.

Lemma substring_prefix (m r : string) :
  String.substring 0 (String.length m) (m ++ r) = m.
Proof.
  induction m as [|a m IH]; simpl.
  - destruct r; reflexivity.
  - rewrite IH. reflexivity.
Qed.

Lemma is_space_nl : Str.is_space (ascii_of_nat 10) = true.
Proof. reflexivity. Qed.

Lemma trimEnd_space (s : string) (a : ascii) :
  Str.is_space a = true ->
  Str.trimEnd (s ++ String a EmptyString) = Str.trimEnd s.
Proof.
  intro Ha. induction s as [|x s IH]; simpl.
  - rewrite Ha. reflexivity.
  - rewrite IH. reflexivity.
Qed.

Lemma trimStart_append (s u : string) :
  Str.trimStart (s ++ u)
  = match Str.trimStart s with
    | EmptyString => Str.trimStart u
    | t => (t ++ u)%string
    end.
Proof.
  induction s as [|x s IH]; simpl; [reflexivity|].
  destruct (Str.is_space x); [exact IH|reflexivity].
Qed.

(** A line feed before and after a text does not show in its trimmed
    form. *)
Lemma trim_between_lines (text : string) :
  Str.trim (Str.nl ++ text ++ Str.nl) = Str.trim text.
Proof.
  unfold Str.trim, Str.nl. cbn [append Str.trimStart].
  rewrite is_space_nl, trimStart_append.
  destruct (Str.trimStart text) as [|x t] eqn:E.
  - reflexivity.
  - apply trimEnd_space, is_space_nl.
Qed.

(** Encoding after decoding: the body text of a function built by [new
    Function(["e", "idx", "list"], text)] is [text], trimmed. *)
Lemma getFunctionContent_new_Function (text : string) :
  getFunctionContent (mkFunc PARAMS text) = Str.trim text.
Proof.
  unfold getFunctionContent.
  set (head := ("function anonymous(e,idx,list" ++ Str.nl ++ ") {")%string).
  set (mid := (Str.nl ++ text ++ Str.nl)%string).
  assert (Htext : JS.function_toString (mkFunc PARAMS text)
                  = (head ++ mid ++ String "}" EmptyString)%string).
  { unfold JS.function_toString, head, mid, PARAMS. cbn [params body Str.join].
    rewrite !append_assoc. reflexivity. }
  rewrite Htext.
  assert (Hlast : Str.lastIndexOf "}" (head ++ mid ++ String "}" EmptyString)
                  = Str.len (head ++ mid)).
  { rewrite <- append_assoc. apply lastIndexOf_last. }
  assert (Hfirst : Str.indexOf "{" (head ++ mid ++ String "}" EmptyString) = 32)
    by reflexivity.
  rewrite Hlast, Hfirst.
  unfold Str.slice, Str.clamp, Str.len.
  rewrite !length_append. change (String.length head) with 33%nat.
  cbn [String.length].
  set (n := String.length mid).
  change (32 + 1) with 33.
  replace (33 <? 0) with false by reflexivity.
  destruct (Z.of_nat (33 + n) <? 0) eqn:E; [apply Z.ltb_lt in E; lia|].
  rewrite Z.min_l by lia. rewrite Z.min_l by lia.
  replace (Z.to_nat (Z.of_nat (33 + n) - 33)) with n by lia.
  change (Z.to_nat 33) with 33%nat.
  unfold head. cbn [append Str.nl String.substring].
  fold Str.nl. unfold n. rewrite substring_prefix.
  apply trim_between_lines.
Qed.

(** C7, amended.  For every body text that the engine accepts as a
    function body, decoding constructs a callable with exactly the three
    positional parameters [e], [idx], [list], in that order, whose body is
    the text: its source reads back as that text between the braces, and
    encoding it gives the text, trimmed.  A text the engine does not
    accept makes decoding throw a [SyntaxError]. *)
Theorem decode_takes_e_idx_list (text : string) :
  (compiles PARAMS text = true ->
   desterilizeFunction "func" (VStr text)
   = Ok (VFun (mkFunc ["e"; "idx"; "list"]%string text))
   /\ JS.function_toString (mkFunc ["e"; "idx"; "list"]%string text)
      = ("function anonymous(e,idx,list" ++ Str.nl ++ ") {" ++ Str.nl
         ++ text ++ Str.nl ++ "}")%string
   /\ getFunctionContent (mkFunc ["e"; "idx"; "list"]%string text)
      = Str.trim text)
  /\ (compiles PARAMS text = false ->
      desterilizeFunction "func" (VStr text) = Thrown (SyntaxError text)).
Proof.
  split; intro Hc.
  - split; [|split].
    + unfold desterilizeFunction, new_Function. simpl. rewrite Hc. reflexivity.
    + reflexivity.
    + apply getFunctionContent_new_Function.
  - unfold desterilizeFunction, new_Function. simpl. rewrite Hc. reflexivity.
Qed.

(** C2.  For a pipeline state whose groups are one group with one [map]
    step of body [return e.x;] and whose active index is [0], whatever its
    sources, content, step id and editor handle: [save] followed by [load]
    (into any application state, from the record that [save] stored)
    rebuilds the same groups, editor handles apart, the same active index
    and the same sources; on an engine that accepts the body and evaluates
    it as JavaScript does, the transform of the rebuilt step returns [5]
    when it is invoked on the object [{x: 5}]. *)
Theorem save_then_load_rebuilds_transform
    (srcs : list Source) (items : list ContentItem) (ident : string)
    (ed : option string) (store : option string)
    (events events' : list Event) (fresh : MultiSource.App) :
  compiles PARAMS "return e.x;" = true ->
  call (Examples.fn "return e.x;") [Examples.object_x5] = Ok (VNum 5) ->
  let w := mkWorld (Examples.roundtrip_app srcs items ident ed) store events in
  let w1 := snd (MultiSource.save w) in
  let r := MultiSource.load (mkWorld fresh (localStorage w1) events') in
  fst r = Ok tt
  /\ List.map (List.map persistent) (MultiSource.filtersGroups (this (snd r)))
     = List.map (List.map persistent) (MultiSource.filtersGroups (this w))
  /\ MultiSource.activeFilterGroup (this (snd r))
     = MultiSource.activeFilterGroup (this w)
  /\ MultiSource.sources (this (snd r)) = MultiSource.sources (this w)
  /\ exists rebuilt,
       MultiSource.filtersGroups (this (snd r)) = [[rebuilt]]
       /\ call (func rebuilt) [Examples.object_x5] = Ok (VNum 5).
Proof.
  intros Hcompiles Hcall. cbv zeta.
  assert (Hbodies : MultiSource.bodies_compile
                      (Examples.roundtrip_app srcs items ident ed)).
  { intros g f [<-|[]] [<-|[]]. exact Hcompiles. }
  destruct (save_then_load store events events' fresh Hbodies) as [_ Hload].
  cbv zeta in Hload. rewrite Hload.
  cbn [fst snd this MultiSource.filtersGroups MultiSource.activeFilterGroup
         MultiSource.sources Examples.roundtrip_app List.map].
  repeat split.
  exists (MultiSource.reloaded (Examples.roundtrip_step ident ed)).
  split; [reflexivity|exact Hcall].
Qed.

End CodecProperties.

Lemma decode_takes_e_idx_list_witness :
  desterilizeFunction (engine := MiniJS.engine) "func" (VStr "return e.x;")
  = Ok (VFun (mkFunc ["e"; "idx"; "list"]%string "return e.x;"))
  /\ JS.function_toString (mkFunc ["e"; "idx"; "list"]%string "return e.x;")
     = ("function anonymous(e,idx,list" ++ Str.nl ++ ") {" ++ Str.nl
        ++ "return e.x;" ++ Str.nl ++ "}")%string
  /\ getFunctionContent (mkFunc ["e"; "idx"; "list"]%string "return e.x;")
     = Str.trim "return e.x;".
Proof.
  apply (decode_takes_e_idx_list (engine := MiniJS.engine) "return e.x;").
  reflexivity.
Defined.

(** C7 as stated fails: the parameters of a decoded function are not
    named [element], [index], [list].  A body that reads [element] finds
    no such variable; the first argument is bound to [e], the second to
    [idx]. *)
Lemma decode_parameters_are_not_element_index_list :
  let decode text :=
    desterilizeFunction (engine := MiniJS.engine) "func" (VStr text) in
  let args := [VNum 5; VNum 0; VArr [VNum 5]] in
  (exists f, decode "return element;"%string = Ok (VFun f)
             /\ params f <> ["element"; "index"; "list"]%string
             /\ call (Engine := MiniJS.engine) f args
                = Thrown (ReferenceError "element"))
  /\ (exists f, decode "return e;"%string = Ok (VFun f)
                /\ call (Engine := MiniJS.engine) f args = Ok (VNum 5))
  /\ (exists f, decode "return idx;"%string = Ok (VFun f)
                /\ call (Engine := MiniJS.engine) f args = Ok (VNum 0)).
Proof.
  cbv zeta. split; [|split]; eexists; split; try reflexivity.
  split; [discriminate|reflexivity].
Qed.

Lemma save_then_load_rebuilds_transform_witness :
  let a := Examples.roundtrip_app [mkSource "s" "u/s.json"] [] "f1" None in
  let w1 := snd (MultiSource.save (Examples.world a)) in
  let r := MultiSource.load (engine := MiniJS.engine)
             (mkWorld (MultiSource.mkApp [] [] [] 0) (localStorage w1) []) in
  fst r = Ok tt
  /\ List.map (List.map persistent) (MultiSource.filtersGroups (this (snd r)))
     = List.map (List.map persistent) (MultiSource.filtersGroups a)
  /\ MultiSource.activeFilterGroup (this (snd r)) = 0
  /\ MultiSource.sources (this (snd r)) = [mkSource "s" "u/s.json"]
  /\ exists rebuilt,
       MultiSource.filtersGroups (this (snd r)) = [[rebuilt]]
       /\ call (Engine := MiniJS.engine) (func rebuilt) [Examples.object_x5]
          = Ok (VNum 5).
Proof.
  apply (save_then_load_rebuilds_transform (engine := MiniJS.engine)
           [mkSource "s" "u/s.json"] [] "f1" None None [] []
           (MultiSource.mkApp [] [] [] 0));
    reflexivity.
Defined.



(** * Further properties *)

(** ** Persistence, continued *)

Section MorePersistence.
Context {engine : Engine}.
Import MultiSource JSON.

Lemma trimStart_idempotent (s : string) :
  Str.trimStart (Str.trimStart s) = Str.trimStart s.
Proof.
  induction s as [|a s IH]; simpl; [reflexivity|].
  destruct (Str.is_space a) eqn:E; [exact IH|]. simpl. rewrite E. reflexivity.
Qed.

Lemma trimEnd_idempotent (s : string) :
  Str.trimEnd (Str.trimEnd s) = Str.trimEnd s.
Proof.
  induction s as [|a s IH]; simpl; [reflexivity|].
  destruct (Str.trimEnd s) as [|b t] eqn:E.
  - destruct (Str.is_space a) eqn:Ea; simpl; [reflexivity|].
    rewrite Ea. reflexivity.
  - cbn [Str.trimEnd]. cbn [Str.trimEnd] in IH. rewrite IH. reflexivity.
Qed.

(** Trimming the end of a text that does not start with white space
    leaves it so. *)
Lemma trimStart_trimEnd (s : string) :
  Str.trimStart (Str.trimEnd (Str.trimStart s)) = Str.trimEnd (Str.trimStart s).
Proof.
  induction s as [|a s IH]; simpl; [reflexivity|].
  destruct (Str.is_space a) eqn:E; [exact IH|].
  cbn [Str.trimEnd].
  destruct (Str.trimEnd s); rewrite ?E; simpl; rewrite E; reflexivity.
Qed.

Lemma trim_idempotent (s : string) : Str.trim (Str.trim s) = Str.trim s.
Proof.
  unfold Str.trim. rewrite trimStart_trimEnd. apply trimEnd_idempotent.
Qed.

(** The body text of a transform that was rebuilt from its body text is
    that body text. *)
Lemma getFunctionContent_reloaded (f : Filter) :
  getFunctionContent (func (reloaded f)) = getFunctionContent (func f).
Proof.
  unfold reloaded. cbn [func]. rewrite getFunctionContent_new_Function.
  unfold getFunctionContent. apply trim_idempotent.
Qed.

Lemma filter_tree_reloaded (f : Filter) : filter_tree (reloaded f) = filter_tree f.
Proof.
  unfold filter_tree. rewrite getFunctionContent_reloaded. reflexivity.
Qed.

Lemma filter_tree_persistent (f : Filter) : filter_tree (persistent f) = filter_tree f.
Proof. reflexivity. Qed.

Lemma map_filter_tree (l l' : list (list Filter)) :
  List.map (List.map persistent) l' = List.map (List.map persistent) l ->
  List.map (fun g => VArr (List.map filter_tree g)) l'
  = List.map (fun g => VArr (List.map filter_tree g)) l.
Proof.
  intro H.
  assert (Hvia : forall gs : list (list Filter),
             List.map (fun g => VArr (List.map filter_tree g)) gs
             = List.map (fun g => VArr (List.map filter_tree g))
                 (List.map (List.map persistent) gs)).
  { intro gs. rewrite map_map. apply map_ext. intro g.
    rewrite map_map. reflexivity. }
  rewrite (Hvia l'), (Hvia l), H. reflexivity.
Qed.

(** What [save] leaves in storage. *)
Lemma save_storage (w : World App) :
  localStorage (snd (save w)) = Some (print (state_tree (this w))).
Proof.
  destruct (save_stores w) as (text & Htext & ->).
  rewrite stringify_state in Htext. injection Htext as <-. reflexivity.
Qed.

End MorePersistence.
Section MorePersistence2.
Context {engine : Engine}.
Import MultiSource JSON.

(** X1.  Persist, then load.  For every application state whose stored
    step bodies compile, [load], run in any application state on the record
    that [save] stored, returns normally with the same sources and the
    same active index, with every step of every group rebuilt from its
    body text (same id, same kind, no editor), keeps the content it had,
    and starts one fetch per source, in order. *)
Theorem persist_then_load_round_trip
    (a fresh : App) (store : option string) (events events' : list Event) :
  bodies_compile a ->
  let w1 := snd (save (mkWorld a store events)) in
  let r := load (mkWorld fresh (localStorage w1) events') in
  fst r = Ok tt
  /\ this (snd r) = reloaded_app a (content fresh)
  /\ List.map (List.map id) (filtersGroups (this (snd r)))
     = List.map (List.map id) (filtersGroups a)
  /\ List.map (List.map type) (filtersGroups (this (snd r)))
     = List.map (List.map type) (filtersGroups a)
  /\ localStorage (snd r) = localStorage w1
  /\ log (snd r) = events' ++ List.map (fun s => Fetch (url s)) (sources a).
Proof.
  intros Hc. cbv zeta.
  destruct (save_then_load store events events' fresh Hc) as [_ Hload].
  cbv zeta in Hload. rewrite Hload. cbn [fst snd this localStorage log].
  unfold reloaded_app. cbn [filtersGroups].
  repeat split; rewrite map_map; apply map_ext; intro g; rewrite map_map;
    reflexivity.
Qed.

(** X2.  A [load] that fails while it reads the stored text has changed
    nothing.  When [JSON.parse] throws (the text is no JSON, or the reviver
    meets a step body that does not compile), [load] throws the same error;
    when the stored record is [null], reading its first field throws a
    [TypeError].  Both happen before the first assignment: the application
    state, the stored record and the log are as they were, and no fetch is
    started. *)
Theorem load_that_throws_changes_nothing (w : World App) (state : string) :
  localStorage w = Some state ->
  state <> EmptyString ->
  (forall e,
     JSON.parse state desterilizeFunction = Thrown e ->
     load w = (Thrown e, w))
  /\ (JSON.parse state desterilizeFunction = Ok VNull ->
      exists what, load w = (Thrown (TypeError what), w)).
Proof.
  intros Hstore Hstate. apply String.eqb_neq in Hstate.
  unfold load. rewrite Hstore, Hstate. unfold bind at 1, lift at 1.
  split.
  - intros e Hparse. rewrite Hparse. reflexivity.
  - intro Hparse. rewrite Hparse. eexists. reflexivity.
Qed.

Lemma internalize_filters_fail (g : list Filter) :
  forallb (fun f => compiles PARAMS (getFunctionContent (func f))) g = false ->
  forall i,
  exists f,
    In f g
    /\ compiles PARAMS (getFunctionContent (func f)) = false
    /\ internalize_elems (internalize desterilizeFunction) i
         (List.map filter_tree g)
       = Thrown (SyntaxError (getFunctionContent (func f))).
Proof.
  induction g as [|f g IH]; cbn [forallb List.map internalize_elems];
    [discriminate|]. intros Hbad i.
  destruct (compiles PARAMS (getFunctionContent (func f))) eqn:Hc.
  - destruct (IH Hbad (i + 1)) as (f' & Hin & Hc' & Hrun).
    exists f'. split; [right; exact Hin|]. split; [exact Hc'|].
    rewrite (internalize_filter _ f Hc). cbn [rbind]. rewrite Hrun.
    reflexivity.
  - exists f. split; [left; reflexivity|]. split; [exact Hc|].
    unfold filter_tree. cbn [internalize internalize_props].
    change (desterilizeFunction "id" (VStr (id f))) with (Ok (VStr (id f))).
    change (desterilizeFunction "type" (VStr (type f))) with (Ok (VStr (type f))).
    assert (Hfunc : desterilizeFunction "func" (VStr (getFunctionContent (func f)))
                    = Thrown (SyntaxError (getFunctionContent (func f)))).
    { unfold desterilizeFunction, new_Function. simpl. rewrite Hc. reflexivity. }
    rewrite Hfunc. reflexivity.
Qed.

Lemma internalize_filters_ok (g : list Filter) (i : Z) :
  forallb (fun f => compiles PARAMS (getFunctionContent (func f))) g = true ->
  internalize_elems (internalize desterilizeFunction) i (List.map filter_tree g)
  = Ok (List.map revived_filter g).
Proof.
  intro Hall. rewrite forallb_forall in Hall.
  apply internalize_elems_map. intros f Hf j.
  apply internalize_filter, Hall, Hf.
Qed.

Lemma internalize_groups_fail (groups : list (list Filter)) :
  (exists g f, In g groups /\ In f g
               /\ compiles PARAMS (getFunctionContent (func f)) = false) ->
  forall i,
  exists f,
    compiles PARAMS (getFunctionContent (func f)) = false
    /\ (exists g, In g groups /\ In f g)
    /\ internalize_elems (internalize desterilizeFunction) i
         (List.map (fun g => VArr (List.map filter_tree g)) groups)
       = Thrown (SyntaxError (getFunctionContent (func f))).
Proof.
  induction groups as [|g groups IH]; intros (g0 & f0 & Hg0 & Hf0 & Hc0) i;
    [destruct Hg0|].
  cbn [List.map internalize_elems internalize].
  destruct (forallb (fun f => compiles PARAMS (getFunctionContent (func f))) g)
    eqn:Hall.
  - rewrite (internalize_filters_ok g 0 Hall). cbn [rbind].
    rewrite desterilize_array. cbn [rbind].
    destruct (IH) with (i := i + 1) as (f & Hc & (g' & Hg' & Hf') & Hrun).
    { destruct Hg0 as [<-|Hin].
      - rewrite forallb_forall in Hall. rewrite (Hall f0 Hf0) in Hc0.
        discriminate.
      - exists g0, f0. auto. }
    exists f. split; [exact Hc|]. split; [exists g'; split; [right|]; assumption|].
    rewrite Hrun. reflexivity.
  - destruct (internalize_filters_fail g Hall 0) as (f & Hin & Hc & Hrun).
    exists f. split; [exact Hc|]. split; [exists g; split; [left; reflexivity|exact Hin]|].
    rewrite Hrun. reflexivity.
Qed.

(** X3.  One stored step body that does not compile fails the whole
    [load]: [JSON.parse] lets the [SyntaxError] of [new Function] through,
    nothing of the stored record is taken over, not even the sources and
    the steps that do compile, and no fetch is started. *)
Theorem load_fails_on_a_step_that_does_not_compile
    (a fresh : App) (store : option string) (events events' : list Event)
    (g : list Filter) (f : Filter) :
  In g (filtersGroups a) -> In f g ->
  compiles PARAMS (getFunctionContent (func f)) = false ->
  let w1 := snd (save (mkWorld a store events)) in
  exists bad,
    compiles PARAMS (getFunctionContent (func bad)) = false
    /\ (exists g', In g' (filtersGroups a) /\ In bad g')
    /\ load (mkWorld fresh (localStorage w1) events')
       = (Thrown (SyntaxError (getFunctionContent (func bad))),
          mkWorld fresh (localStorage w1) events').
Proof.
  intros Hg Hf Hc. cbv zeta. rewrite save_storage. cbn [this].
  destruct (@internalize_groups_fail (filtersGroups a)) with (i := 0)
    as (bad & Hbad & Hwhere & Hrun); [exists g, f; auto|].
  exists bad. split; [exact Hbad|]. split; [exact Hwhere|].
  unfold load. cbn [localStorage].
  assert (Hnonempty : String.eqb (print (state_tree a)) EmptyString = false)
    by reflexivity.
  rewrite Hnonempty.
  assert (Hparse : JSON.parse (print (state_tree a)) desterilizeFunction
                   = Thrown (SyntaxError (getFunctionContent (func bad)))).
  { unfold JSON.parse. rewrite (parse_text_print _ (is_json_state a)).
    cbn [rbind]. unfold state_tree.
    assert (Hsources : internalize desterilizeFunction "sources"
                         (VArr (List.map source_value (sources a)))
                       = Ok (VArr (List.map source_value (sources a)))).
    { apply internalize_array. intros. apply internalize_source. }
    remember (VArr (List.map source_value (sources a))) as srcs.
    cbn [internalize internalize_props].
    rewrite Hsources. cbn [rbind]. rewrite Hrun. reflexivity. }
  unfold bind at 1. unfold lift at 1. rewrite Hparse. reflexivity.
Qed.

(** X4.  What [save] stores depends on the sources, the active index and
    the id, kind and transform of every step, and on nothing else: the
    content and the editor handles never reach the stored record. *)
Theorem save_ignores_content_and_editors
    (a a' : App) (store store' : option string) (events events' : list Event) :
  sources a' = sources a ->
  activeFilterGroup a' = activeFilterGroup a ->
  List.map (List.map persistent) (filtersGroups a')
  = List.map (List.map persistent) (filtersGroups a) ->
  localStorage (snd (save (mkWorld a' store' events')))
  = localStorage (snd (save (mkWorld a store events))).
Proof.
  intros Hsrc Hact Hgroups. rewrite !save_storage. cbn [this].
  unfold state_tree. rewrite Hsrc, Hact, (map_filter_tree _ _ Hgroups).
  reflexivity.
Qed.

(** X5.  One round trip is a fixed point of persistence: saving the
    state that [load] rebuilt stores the very record it was loaded from,
    whatever content has arrived in between. *)
Theorem save_after_load_stores_the_same_record
    (a fresh : App) (store : option string) (events events' : list Event)
    (items : list ContentItem) :
  bodies_compile a ->
  let w1 := snd (save (mkWorld a store events)) in
  let w2 := snd (load (mkWorld fresh (localStorage w1) events')) in
  let w3 := mkWorld (mkApp (sources (this w2)) items (filtersGroups (this w2))
                       (activeFilterGroup (this w2)))
              (localStorage w2) (log w2) in
  localStorage (snd (save w3)) = localStorage w1.
Proof.
  intros Hc. cbv zeta.
  destruct (save_then_load store events events' fresh Hc) as [_ Hload].
  cbv zeta in Hload. rewrite Hload. cbn [snd this sources filtersGroups
    activeFilterGroup localStorage log].
  rewrite !save_storage. cbn [this]. unfold state_tree.
  cbn [sources filtersGroups activeFilterGroup].
  rewrite map_map.
  assert (Hgroups :
    List.map (fun g => VArr (List.map filter_tree (List.map reloaded g)))
      (filtersGroups a)
    = List.map (fun g => VArr (List.map filter_tree g)) (filtersGroups a)).
  { apply map_ext. intro g. rewrite map_map. f_equal. apply map_ext.
    intro f. apply filter_tree_reloaded. }
  rewrite Hgroups. reflexivity.
Qed.

End MorePersistence2.

Lemma persist_then_load_round_trip_witness :
  let w1 := snd (MultiSource.save (Examples.world Examples.two_groups)) in
  let r := MultiSource.load (engine := MiniJS.engine)
             (mkWorld (MultiSource.mkApp [] [] [] 0) (localStorage w1) []) in
  fst r = Ok tt
  /\ this (snd r) = Examples.two_groups_bare
  /\ log (snd r) = [Fetch "u/a.json"; Fetch "u/b.json"].
Proof.
  destruct (@persist_then_load_round_trip MiniJS.engine
              Examples.two_groups (MultiSource.mkApp [] [] [] 0) None [] [])
    as (Hok & Hthis & _ & _ & _ & Hlog).
  - intros g f [<-|[<-|[]]] Hf; simpl in Hf;
      repeat (destruct Hf as [<-|Hf]; [reflexivity|]); destruct Hf.
  - split; [exact Hok|].
    split; [exact (eq_trans Hthis eq_refl)|exact Hlog].
Defined.

Lemma load_that_throws_changes_nothing_witness :
  let w := mkWorld Examples.two_groups (Some "{"%string) [] in
  let w' := mkWorld Examples.two_groups (Some "null"%string) [] in
  MultiSource.load (engine := MiniJS.engine) w
  = (Thrown (SyntaxError "unterminated object"), w)
  /\ exists what,
       MultiSource.load (engine := MiniJS.engine) w'
       = (Thrown (TypeError what), w').
Proof.
  split.
  - apply (proj1 (@load_that_throws_changes_nothing MiniJS.engine
                    (mkWorld Examples.two_groups (Some "{"%string) [])
                    "{" eq_refl ltac:(discriminate))).
    reflexivity.
  - apply (proj2 (@load_that_throws_changes_nothing MiniJS.engine
                    (mkWorld Examples.two_groups (Some "null"%string) [])
                    "null" eq_refl ltac:(discriminate))).
    reflexivity.
Defined.

Lemma load_fails_on_a_step_that_does_not_compile_witness :
  let w1 := snd (MultiSource.save (Examples.world Examples.broken_app)) in
  let w := mkWorld (MultiSource.mkApp [] [] [] 0) (localStorage w1) [] in
  exists bad,
    MultiSource.load (engine := MiniJS.engine) w
    = (Thrown (SyntaxError (getFunctionContent (func bad))), w).
Proof.
  destruct (@load_fails_on_a_step_that_does_not_compile
              MiniJS.engine Examples.broken_app
              (MultiSource.mkApp [] [] [] 0) None [] []
              [Examples.map_x10; Examples.broken_step] Examples.broken_step)
    as (bad & _ & _ & Hload).
  - right. left. reflexivity.
  - right. left. reflexivity.
  - reflexivity.
  - exists bad. exact Hload.
Defined.

Lemma save_ignores_content_and_editors_witness :
  localStorage (snd (MultiSource.save (Examples.world Examples.two_groups)))
  = localStorage (snd (MultiSource.save (Examples.world Examples.two_groups_bare))).
Proof.
  apply (@save_ignores_content_and_editors Examples.two_groups_bare
           Examples.two_groups None None [] []); reflexivity.
Defined.

Lemma save_after_load_stores_the_same_record_witness :
  let w1 := snd (MultiSource.save (Examples.world Examples.two_groups)) in
  let w2 := snd (MultiSource.load (engine := MiniJS.engine)
                   (mkWorld (MultiSource.mkApp [] [] [] 0) (localStorage w1) [])) in
  let w3 := mkWorld (MultiSource.mkApp (MultiSource.sources (this w2))
                       [mkContent "a" (VNum 1)]
                       (MultiSource.filtersGroups (this w2))
                       (MultiSource.activeFilterGroup (this w2)))
              (localStorage w2) (log w2) in
  localStorage (snd (MultiSource.save w3)) = localStorage w1.
Proof.
  apply (@save_after_load_stores_the_same_record MiniJS.engine
           Examples.two_groups (MultiSource.mkApp [] [] [] 0) None [] []
           [mkContent "a" (VNum 1)]).
  intros g f [<-|[<-|[]]] Hf; simpl in Hf;
    repeat (destruct Hf as [<-|Hf]; [reflexivity|]); destruct Hf.
Defined.

(** ** The step handlers, continued *)

Section MoreHandlers.
Context {engine : Engine}.
Import MultiSource JSON.

Lemma set_nth_set_nth {A} (i : nat) (x y : A) (l : list A) :
  JS.set_nth i x (JS.set_nth i y l) = JS.set_nth i x l.
Proof.
  revert i. induction l as [|z l IH]; intros [|i]; simpl; try reflexivity.
  rewrite IH. reflexivity.
Qed.

Lemma set_nth_same {A} (i : nat) (x : A) (l : list A) :
  nth_error l i = Some x -> JS.set_nth i x l = l.
Proof.
  revert i. induction l as [|z l IH]; intros [|i]; simpl; try discriminate.
  - intros [= ->]. reflexivity.
  - intro H. rewrite (IH _ H). reflexivity.
Qed.

Lemma set_nth_middle {A} (pre : list A) (x y : A) (post : list A) :
  JS.set_nth (List.length pre) x (pre ++ y :: post) = pre ++ x :: post.
Proof. induction pre as [|z pre IH]; simpl; [|rewrite IH]; reflexivity. Qed.

Lemma set_nth_length {A} (i : nat) (x : A) (l : list A) :
  List.length (JS.set_nth i x l) = List.length l.
Proof.
  revert i. induction l as [|z l IH]; intros [|i]; simpl; try reflexivity.
  rewrite IH. reflexivity.
Qed.

Lemma findIndex_Some {A} (p : A -> bool) (l : list A) (i : nat) :
  JS.findIndex p l = Some i ->
  exists x, nth_error l i = Some x /\ p x = true.
Proof.
  revert i. induction l as [|y l IH]; simpl; [discriminate|]. intro i.
  destruct (p y) eqn:Hp.
  - intros [= <-]. exists y. split; [reflexivity|exact Hp].
  - destruct (JS.findIndex p l) as [j|]; [|discriminate].
    intros [= <-]. apply IH. reflexivity.
Qed.

Lemma findIndex_middle {A} (p : A -> bool) (pre : list A) (x : A) (post : list A) :
  forallb (fun y => negb (p y)) pre = true -> p x = true ->
  JS.findIndex p (pre ++ x :: post) = Some (List.length pre).
Proof.
  intros Hpre Hx. induction pre as [|y pre IH]; simpl.
  - rewrite Hx. reflexivity.
  - simpl in Hpre. apply andb_true_iff in Hpre. destruct Hpre as [Hy Hpre].
    apply negb_true_iff in Hy. rewrite Hy, (IH Hpre). reflexivity.
Qed.

(** The write [this.filtersGroups[this.activeFilterGroup] = group] when
    the active group exists. *)
Lemma assign_in_range (w : World App) (old group : list Filter) :
  JS.get (filtersGroups (this w)) (activeFilterGroup (this w)) = Some old ->
  assign_active_group group w
  = (Ok tt, mkWorld (with_active_group (this w) group) (localStorage w) (log w)).
Proof.
  intro Hget. apply get_Some in Hget. destruct Hget as [Hrange _].
  unfold assign_active_group, bind, get_this. cbv beta iota zeta.
  rewrite Hrange. reflexivity.
Qed.

Lemma get_with_active_group (a : App) (old group : list Filter) :
  JS.get (filtersGroups a) (activeFilterGroup a) = Some old ->
  JS.get (filtersGroups (with_active_group a group))
    (activeFilterGroup (with_active_group a group)) = Some group.
Proof.
  intro Hget. apply get_Some in Hget. destruct Hget as [Hrange Hnth].
  unfold with_active_group. cbn [filtersGroups activeFilterGroup].
  unfold JS.get. apply andb_true_iff in Hrange. destruct Hrange as [Hlo Hhi].
  apply Z.leb_le in Hlo. apply Z.ltb_lt in Hhi.
  assert (Hneg : (activeFilterGroup a <? 0) = false) by (apply Z.ltb_ge; lia).
  rewrite Hneg. apply nth_error_set_nth. lia.
Qed.

Lemma with_active_group_twice (a : App) (g1 g2 : list Filter) :
  with_active_group (with_active_group a g1) g2 = with_active_group a g2.
Proof.
  unfold with_active_group. cbn [sources content filtersGroups activeFilterGroup].
  rewrite set_nth_set_nth. reflexivity.
Qed.

Lemma with_active_group_same (a : App) (g : list Filter) :
  JS.get (filtersGroups a) (activeFilterGroup a) = Some g ->
  with_active_group a g = a.
Proof.
  intro Hget. apply get_Some in Hget. destruct Hget as [_ Hnth].
  unfold with_active_group. rewrite (set_nth_same _ _ Hnth).
  destruct a; reflexivity.
Qed.

(** The second loop of [updateDisplay], started with editors opened on
    the steps [done] and the steps [todo] still to visit. *)
Lemma attach_editors_from (todo done : list Filter) (w : World App) :
  JS.get (filtersGroups (this w)) (activeFilterGroup (this w))
  = Some (List.map with_editor done ++ todo) ->
  NoDup (List.map id (done ++ todo)) ->
  attach_editors todo w
  = (Ok tt,
     mkWorld (with_active_group (this w) (List.map with_editor (done ++ todo)))
       (localStorage w) (log w)).
Proof.
  revert done w. induction todo as [|f rest IH]; intros done w Hget Hnodup.
  - rewrite app_nil_r in *. erewrite with_active_group_same by exact Hget.
    destruct w; reflexivity.
  - cbn [attach_editors]. unfold bind at 1.
    assert (Hfind : JS.findIndex (fun e => String.eqb (id e) (id f))
                      (List.map with_editor done ++ f :: rest)
                    = Some (List.length (List.map with_editor done))).
    { apply findIndex_middle; [|apply String.eqb_refl].
      apply forallb_forall. intros y Hy. apply in_map_iff in Hy.
      destruct Hy as (d & <- & Hd). apply negb_true_iff, String.eqb_neq.
      cbn [with_editor id]. intro Heq.
      rewrite map_app in Hnodup. cbn [List.map] in Hnodup.
      apply NoDup_remove_2 in Hnodup. apply Hnodup, in_or_app. left.
      rewrite <- Heq. apply in_map, Hd. }
    assert (Hnth : nth_error (List.map with_editor done ++ f :: rest)
                     (List.length (List.map with_editor done)) = Some f).
    { rewrite nth_error_app2 by lia. rewrite Nat.sub_diag. reflexivity. }
    assert (Hstep : attach_editor f w
                    = (Ok tt,
                       mkWorld (with_active_group (this w)
                                  (List.map with_editor (done ++ [f]) ++ rest))
                         (localStorage w) (log w))).
    { unfold attach_editor, bind at 1. unfold get_this at 1. cbv beta iota zeta.
      rewrite Hget, Hfind, Hnth. erewrite assign_in_range by exact Hget.
      rewrite set_nth_middle, map_app, <- app_assoc. reflexivity. }
    rewrite Hstep.
    rewrite (IH (done ++ [f])); cbn [this localStorage log].
    + rewrite with_active_group_twice, <- app_assoc. reflexivity.
    + eapply get_with_active_group. exact Hget.
    + rewrite <- app_assoc. exact Hnodup.
Qed.

(** X6.  [updateDisplay] on an existing active group whose steps have
    distinct ids opens an editor on every step, holding the body text of
    that step's transform; ids, kinds and transforms stay, and so does
    everything else: nothing is logged, shown or stored. *)
Theorem updateDisplay_opens_an_editor_on_every_step
    (w : World App) (g : list Filter) :
  JS.get (filtersGroups (this w)) (activeFilterGroup (this w)) = Some g ->
  NoDup (List.map id g) ->
  updateDisplay w
  = (Ok tt,
     mkWorld (with_active_group (this w) (List.map with_editor g))
       (localStorage w) (log w)).
Proof.
  intros Hget Hnodup. unfold updateDisplay, bind, get_this. cbv beta iota.
  erewrite get_at by exact Hget.
  apply (attach_editors_from g [] w); [exact Hget|exact Hnodup].
Qed.

(** X7.  When the text in a step's editor is no function body, the
    debounced change handler throws the [SyntaxError] of [new Function]
    before it has written anything: the step keeps its old transform,
    nothing is recomputed and nothing is stored. *)
Theorem edit_that_does_not_compile_changes_nothing
    (w : World App) (index : nat) (g : list Filter) (filter : Filter)
    (text : string) :
  JS.get (filtersGroups (this w)) (activeFilterGroup (this w)) = Some g ->
  nth_error g index = Some filter ->
  editor filter = Some text ->
  compiles PARAMS text = false ->
  handleFilterChange index w = (Thrown (SyntaxError text), w).
Proof.
  intros Hget Hnth Heditor Hc.
  unfold handleFilterChange. unfold bind at 1, get_this at 1. cbv beta iota.
  erewrite get_at by exact Hget. rewrite Hnth, Hget, Hnth, Heditor.
  unfold bind at 1, lift at 1, new_Function. rewrite Hc. reflexivity.
Qed.


Lemma try_catch_emit (m : M unit) (ev : Error -> Event) (w : World App) :
  (forall e, fst (try_catch m (fun error => emit (ev error)) w) <> Thrown e)
  /\ this (snd (try_catch m (fun error => emit (ev error)) w)) = this (snd (m w)).
Proof.
  unfold try_catch. destruct (m w) as [[[]| |] w1]; cbn; split;
    try reflexivity; intros e'; discriminate.
Qed.

Lemma updateDisplay_on (w : World App) (g : list Filter) :
  JS.get (filtersGroups (this w)) (activeFilterGroup (this w)) = Some g ->
  NoDup (List.map id g) ->
  updateDisplay w
  = (Ok tt,
     mkWorld (with_active_group (this w) (List.map with_editor g))
       (localStorage w) (log w)).
Proof.
  intros Hget Hnodup. unfold updateDisplay, bind, get_this. cbv beta iota.
  erewrite get_at by exact Hget.
  apply (attach_editors_from g [] w); [exact Hget|exact Hnodup].
Qed.

(** The refresh that ends the mutating handlers, on an existing group
    whose steps have distinct ids. *)
Lemma refresh_opens_editors (w : World App) (g : list Filter) :
  JS.get (filtersGroups (this w)) (activeFilterGroup (this w)) = Some g ->
  NoDup (List.map id g) ->
  this (snd ((updateDisplay ;; process ;; save) w))
  = with_active_group (this w) (List.map with_editor g).
Proof.
  intros Hget Hnodup. unfold bind at 1.
  rewrite (@updateDisplay_on w g Hget Hnodup). rewrite (refresh_same_this _).
  reflexivity.
Qed.

(** X9.  The add button appends to an existing active group one step of
    kind [select] with body [return e;] under the fresh id, and the refresh
    opens an editor on every step of the group; the handler never throws. *)
Theorem add_step_appends_a_select_step
    (w : World App) (uuid : string) (g : list Filter) :
  compiles PARAMS "return e;" = true ->
  JS.get (filtersGroups (this w)) (activeFilterGroup (this w)) = Some g ->
  NoDup (List.map id g) ->
  ~ In uuid (List.map id g) ->
  let r := bntFiltersAdd uuid w in
  this (snd r)
  = with_active_group (this w) (List.map with_editor (g ++ [new_step uuid]))
  /\ (forall e, fst r <> Thrown e).
Proof.
  intros Hc Hget Hnodup Hfresh r.
  set (w1 := mkWorld (with_active_group (this w) (g ++ [new_step uuid]))
               (localStorage w) (log w)).
  assert (Hrun : bntFiltersAdd uuid w
                 = try_catch (updateDisplay ;; process ;; save)
                     (fun error => emit (ConsoleLogError error)) w1).
  { unfold bntFiltersAdd. unfold bind at 1, get_this at 1. cbv beta iota.
    unfold bind at 1. rewrite Hget. unfold ret at 1. cbv beta iota.
    unfold bind at 1. unfold bind at 1, get_this at 1. cbv beta iota.
    rewrite Hget. unfold bind at 1, lift at 1, new_Function. rewrite Hc.
    cbv beta iota. erewrite assign_in_range by exact Hget. reflexivity. }
  subst r. rewrite Hrun.
  destruct (try_catch_emit (updateDisplay ;; process ;; save) ConsoleLogError w1)
    as [Hnothrow Hthis].
  split; [|exact Hnothrow].
  rewrite Hthis. erewrite refresh_opens_editors.
  - unfold w1. cbn [this]. apply with_active_group_twice.
  - unfold w1. cbn [this]. eapply get_with_active_group. exact Hget.
  - rewrite map_app. cbn [List.map new_step id].
    clear - Hnodup Hfresh. induction g as [|x g IH]; cbn.
    + constructor; [intros []|constructor].
    + inversion Hnodup as [|? ? Hx Hg]; subst. constructor.
      * intro Hin. apply in_app_or in Hin. destruct Hin as [Hin|[Heq|[]]].
        -- exact (Hx Hin).
        -- apply Hfresh. left. symmetry. exact Heq.
      * apply IH; [exact Hg|]. intro Hin. apply Hfresh. right. exact Hin.
Qed.

(** X10.  The add button on a missing group just past the end of the
    groups (the state of a first visit: no group, active index 0) creates
    the group, holding the one new step with its editor. *)
Theorem add_step_creates_the_group (w : World App) (uuid : string) :
  compiles PARAMS "return e;" = true ->
  activeFilterGroup (this w) = Z.of_nat (List.length (filtersGroups (this w))) ->
  let r := bntFiltersAdd uuid w in
  this (snd r)
  = mkApp (sources (this w)) (content (this w))
      (filtersGroups (this w) ++ [[with_editor (new_step uuid)]])
      (activeFilterGroup (this w))
  /\ (forall e, fst r <> Thrown e).
Proof.
  intros Hc Hactive r.
  set (n := List.length (filtersGroups (this w))) in *.
  assert (Hnone : JS.get (filtersGroups (this w)) (activeFilterGroup (this w))
                  = None).
  { unfold JS.get. rewrite Hactive.
    assert (Hneg : (Z.of_nat n <? 0) = false) by (apply Z.ltb_ge; lia).
    rewrite Hneg, Nat2Z.id. apply nth_error_None. unfold n. lia. }
  set (w0 := mkWorld (mkApp (sources (this w)) (content (this w))
                        (filtersGroups (this w) ++ [[]])
                        (activeFilterGroup (this w)))
               (localStorage w) (log w)).
  assert (Hsome : JS.get (filtersGroups (this w0)) (activeFilterGroup (this w0))
                  = Some []).
  { unfold w0. cbn [this filtersGroups activeFilterGroup]. unfold JS.get.
    rewrite Hactive.
    assert (Hneg : (Z.of_nat n <? 0) = false) by (apply Z.ltb_ge; lia).
    rewrite Hneg, Nat2Z.id. rewrite nth_error_app2 by (unfold n; lia).
    unfold n. rewrite Nat.sub_diag. reflexivity. }
  set (w1 := mkWorld (with_active_group (this w0) [new_step uuid])
               (localStorage w) (log w)).
  assert (Hrun : bntFiltersAdd uuid w
                 = try_catch (updateDisplay ;; process ;; save)
                     (fun error => emit (ConsoleLogError error)) w1).
  { unfold bntFiltersAdd. unfold bind at 1, get_this at 1. cbv beta iota.
    unfold bind at 1. rewrite Hnone.
    assert (Hcreate : assign_active_group [] w = (Ok tt, w0)).
    { unfold assign_active_group, bind, get_this. cbv beta iota zeta.
      rewrite Hactive. fold n.
      assert (Hout : (0 <=? Z.of_nat n) && (Z.of_nat n <? Z.of_nat n) = false)
        by (apply andb_false_iff; right; apply Z.ltb_ge; lia).
      rewrite Hout, Z.eqb_refl. unfold set_filtersGroups, bind, get_this, put_this.
      cbv beta iota. unfold w0. rewrite Hactive. reflexivity. }
    rewrite Hcreate. unfold bind at 1. unfold bind at 1, get_this at 1.
    cbv beta iota. rewrite Hsome. unfold bind at 1, lift at 1, new_Function.
    rewrite Hc. cbv beta iota. erewrite assign_in_range by exact Hsome.
    reflexivity. }
  subst r. rewrite Hrun.
  destruct (try_catch_emit (updateDisplay ;; process ;; save) ConsoleLogError w1)
    as [Hnothrow Hthis].
  split; [|exact Hnothrow].
  rewrite Hthis. rewrite (@refresh_opens_editors w1 [new_step uuid]).
  - unfold w1. cbn [this]. rewrite with_active_group_twice.
    unfold with_active_group, w0.
    cbn [this sources content filtersGroups activeFilterGroup List.map].
    rewrite Hactive, Nat2Z.id. fold n. unfold n. rewrite set_nth_middle.
    reflexivity.
  - unfold w1. cbn [this]. eapply get_with_active_group. exact Hsome.
  - cbn. constructor; [intros []|constructor].
Qed.

Lemma NoDup_map_filter {A B} (key : A -> B) (p : A -> bool) (l : list A) :
  NoDup (List.map key l) -> NoDup (List.map key (List.filter p l)).
Proof.
  induction l as [|x l IH]; cbn; [intros; constructor|].
  intro Hnodup. inversion Hnodup as [|? ? Hx Hl]; subst.
  destruct (p x); cbn; [|apply IH, Hl].
  constructor; [|apply IH, Hl].
  intro Hin. apply Hx. apply in_map_iff in Hin.
  destruct Hin as (y & Hy & Hin). apply filter_In in Hin.
  rewrite <- Hy. apply in_map, Hin.
Qed.

(** X11.  The remove button of a step drops from the active group every
    step with that step's id and keeps the others in order, with their
    editors reopened; sources, content and the other groups stay. *)
Theorem remove_step_removes_by_id
    (w : World App) (filter_id : string) (g : list Filter) :
  JS.get (filtersGroups (this w)) (activeFilterGroup (this w)) = Some g ->
  NoDup (List.map id g) ->
  this (snd (removeFilterClick filter_id w))
  = with_active_group (this w)
      (List.map with_editor
         (List.filter (fun e => negb (String.eqb (id e) filter_id)) g)).
Proof.
  intros Hget Hnodup.
  set (kept := List.filter (fun e => negb (String.eqb (id e) filter_id)) g).
  set (w1 := mkWorld (with_active_group (this w) kept) (localStorage w) (log w)).
  assert (Hrun : removeFilterClick filter_id w = (updateDisplay ;; process) w1).
  { unfold removeFilterClick. unfold bind at 1, get_this at 1. cbv beta iota.
    rewrite Hget. unfold bind at 1.
    erewrite assign_in_range by exact Hget. reflexivity. }
  rewrite Hrun. unfold bind.
  rewrite (@updateDisplay_on w1 kept).
  - rewrite (process_same_this _). cbn [this]. unfold w1. cbn [this].
    apply with_active_group_twice.
  - unfold w1. cbn [this]. eapply get_with_active_group. exact Hget.
  - apply NoDup_map_filter, Hnodup.
Qed.

(** X12.  The kind selector of a step writes the selected value, any
    non-empty string, into the first step of the active group that has the
    step's id; the id, the editor and the transform of that step stay, and
    so do the other steps. *)
Theorem kind_change_sets_the_kind
    (w : World App) (filter_id value : string) (g : list Filter) (idx : nat) :
  JS.get (filtersGroups (this w)) (activeFilterGroup (this w)) = Some g ->
  JS.findIndex (fun e => String.eqb (id e) filter_id) g = Some idx ->
  value <> EmptyString ->
  exists e,
    nth_error g idx = Some e
    /\ id e = filter_id
    /\ this (snd (selectTypeChange filter_id value w))
       = with_active_group (this w)
           (JS.set_nth idx (mkFilter (id e) (editor e) value (func e)) g).
Proof.
  intros Hget Hfind Hvalue.
  destruct (findIndex_Some _ _ Hfind) as (e & Hnth & Hid).
  exists e. split; [exact Hnth|]. split; [apply String.eqb_eq, Hid|].
  unfold selectTypeChange. unfold bind at 1, get_this at 1. cbv beta iota.
  erewrite get_at by exact Hget. rewrite Hfind.
  apply String.eqb_neq in Hvalue. rewrite Hvalue, Hget, Hnth.
  unfold bind at 1. erewrite assign_in_range by exact Hget.
  rewrite (process_same_this _). reflexivity.
Qed.

(** What a run of [process] adds to the log: the seed, then at most one
    call of the viewer. *)
Lemma process_log (w : World App) :
  exists evs,
    log (snd (process w)) = log w ++ ConsoleLog (seed (this w)) :: evs
    /\ (evs = [] \/ exists v, evs = [ViewerSet v]).
Proof.
  rewrite process_runs_filters. unfold process_outcome, logged.
  destruct (run_filters _ _) as [[v|]| |]; cbn [snd log];
    eexists; (split; [reflexivity|]); eauto.
Qed.

(** X21.  Changing the kind of a step writes the kind and runs
    [process] on the new pipeline, and does nothing else: the handler is
    that one run, which logs the seed and calls the viewer at most once,
    and [save] is never called.  However the handler ends, the stored
    record is the one from before, with the old kind. *)
Theorem kind_change_never_saves (filter_id value : string) :
  preserves storage_kept (selectTypeChange filter_id value)
  /\ forall (w : World App) (g : list Filter) (idx : nat),
       JS.get (filtersGroups (this w)) (activeFilterGroup (this w)) = Some g ->
       JS.findIndex (fun e => String.eqb (id e) filter_id) g = Some idx ->
       value <> EmptyString ->
       exists e,
         nth_error g idx = Some e
         /\ selectTypeChange filter_id value w
            = process
                (mkWorld
                   (with_active_group (this w)
                      (JS.set_nth idx
                         (mkFilter (id e) (editor e) value (func e)) g))
                   (localStorage w) (log w))
         /\ exists evs,
              log (snd (selectTypeChange filter_id value w))
              = log w ++ ConsoleLog (seed (this w)) :: evs
              /\ (evs = [] \/ exists v, evs = [ViewerSet v]).
Proof.
  split; [apply selectTypeChange_storage_kept|].
  intros w g idx Hget Hfind Hvalue.
  destruct (findIndex_Some _ _ Hfind) as (e & Hnth & _).
  exists e. split; [exact Hnth|].
  assert (Hrun : selectTypeChange filter_id value w
                 = process
                     (mkWorld
                        (with_active_group (this w)
                           (JS.set_nth idx
                              (mkFilter (id e) (editor e) value (func e)) g))
                        (localStorage w) (log w))).
  { unfold selectTypeChange. unfold bind at 1, get_this at 1. cbv beta iota.
    erewrite get_at by exact Hget. rewrite Hfind.
    apply String.eqb_neq in Hvalue. rewrite Hvalue, Hget, Hnth.
    unfold bind at 1. erewrite assign_in_range by exact Hget. reflexivity. }
  split; [exact Hrun|]. rewrite Hrun.
  apply (process_log
           (mkWorld
              (with_active_group (this w)
                 (JS.set_nth idx (mkFilter (id e) (editor e) value (func e)) g))
              (localStorage w) (log w))).
Qed.

Lemma attach_editor_returns (f : Filter) (w : World App) (g : list Filter) :
  JS.get (filtersGroups (this w)) (activeFilterGroup (this w)) = Some g ->
  fst (attach_editor f w) = Ok tt
  /\ exists g',
       JS.get (filtersGroups (this (snd (attach_editor f w))))
         (activeFilterGroup (this (snd (attach_editor f w)))) = Some g'.
Proof.
  intro Hget. unfold attach_editor, bind, get_this. cbv beta iota zeta.
  rewrite Hget.
  destruct (JS.findIndex _ g) as [idx|]; [|split; [reflexivity|eauto]].
  destruct (nth_error g idx) as [e|]; [|split; [reflexivity|eauto]].
  change (fst (assign_active_group
                 (JS.set_nth idx
                    (mkFilter (id e) (Some (getFunctionContent (func f)))
                       (type e) (func e)) g) w) = Ok tt
          /\ exists g',
               JS.get
                 (filtersGroups
                    (this (snd (assign_active_group
                                  (JS.set_nth idx
                                     (mkFilter (id e)
                                        (Some (getFunctionContent (func f)))
                                        (type e) (func e)) g) w))))
                 (activeFilterGroup
                    (this (snd (assign_active_group
                                  (JS.set_nth idx
                                     (mkFilter (id e)
                                        (Some (getFunctionContent (func f)))
                                        (type e) (func e)) g) w))))
               = Some g').
  erewrite assign_in_range by exact Hget. split; [reflexivity|].
  eexists. cbn [snd this]. eapply get_with_active_group. exact Hget.
Qed.

Lemma attach_editors_returns (filters : list Filter) :
  forall (w : World App) (g : list Filter),
    JS.get (filtersGroups (this w)) (activeFilterGroup (this w)) = Some g ->
    fst (attach_editors filters w) = Ok tt.
Proof.
  induction filters as [|f filters IH]; intros w g Hget; [reflexivity|].
  cbn [attach_editors]. unfold bind.
  destruct (attach_editor_returns f w Hget) as [Hok (g' & Hget')].
  destruct (attach_editor f w) as [r w1]. cbn [fst snd] in *. subst r.
  apply (IH w1 g' Hget').
Qed.

(** [updateDisplay] returns on an existing group, whatever its ids. *)
Lemma updateDisplay_returns (w : World App) (g : list Filter) :
  JS.get (filtersGroups (this w)) (activeFilterGroup (this w)) = Some g ->
  fst (updateDisplay w) = Ok tt.
Proof.
  intro Hget. unfold updateDisplay, bind, get_this. cbv beta iota.
  erewrite get_at by exact Hget. apply (attach_editors_returns g w Hget).
Qed.

(** X22.  Removing a step drops it from the active group, rebuilds the
    display and runs [process] on the new pipeline, and does nothing else:
    the display is rebuilt without logging anything, the run logs the seed
    and calls the viewer at most once, and [save] is never called.
    However the handler ends, the stored record still holds the removed
    step. *)
Theorem remove_step_never_saves (filter_id : string) :
  preserves storage_kept (removeFilterClick filter_id)
  /\ forall (w : World App) (g : list Filter),
       JS.get (filtersGroups (this w)) (activeFilterGroup (this w)) = Some g ->
       exists w2,
         updateDisplay
           (mkWorld
              (with_active_group (this w)
                 (List.filter (fun e => negb (String.eqb (id e) filter_id)) g))
              (localStorage w) (log w))
         = (Ok tt, w2)
         /\ removeFilterClick filter_id w = process w2
         /\ exists evs,
              log (snd (removeFilterClick filter_id w))
              = log w ++ ConsoleLog (seed (this w)) :: evs
              /\ (evs = [] \/ exists v, evs = [ViewerSet v]).
Proof.
  split; [apply removeFilterClick_storage_kept|].
  intros w g Hget.
  set (w1 := mkWorld
               (with_active_group (this w)
                  (List.filter (fun e => negb (String.eqb (id e) filter_id)) g))
               (localStorage w) (log w)).
  assert (Hget1 : JS.get (filtersGroups (this w1)) (activeFilterGroup (this w1))
                  = Some (List.filter
                            (fun e => negb (String.eqb (id e) filter_id)) g)).
  { unfold w1. cbn [this]. eapply get_with_active_group. exact Hget. }
  pose proof (updateDisplay_returns w1 Hget1) as Hok.
  pose proof (updateDisplay_only_editors w1) as Hsame.
  destruct (updateDisplay w1) as [r w2] eqn:Hshow. cbn [fst snd] in *. subst r.
  exists w2. split; [reflexivity|].
  assert (Hrun : removeFilterClick filter_id w = process w2).
  { unfold removeFilterClick. unfold bind at 1, get_this at 1. cbv beta iota.
    rewrite Hget. unfold bind at 1.
    erewrite assign_in_range by exact Hget. fold w1.
    unfold bind at 1. rewrite Hshow. reflexivity. }
  split; [exact Hrun|]. rewrite Hrun.
  destruct (process_log w2) as (evs & Hlog & Hevs).
  exists evs. split; [|exact Hevs]. rewrite Hlog.
  destruct Hsame as ((_ & Hcontent & _) & _ & Hlog2).
  rewrite Hlog2. unfold seed. rewrite Hcontent. reflexivity.
Qed.

Lemma trimEnd_nonempty (c : ascii) (s : string) :
  Str.is_space c = false -> Str.trimEnd (String c s) <> EmptyString.
Proof.
  intro Hc. cbn [Str.trimEnd]. destruct (Str.trimEnd s); [|discriminate].
  rewrite Hc. discriminate.
Qed.

Lemma trim_blank (s : string) :
  String.eqb (Str.trim s) EmptyString = all_space s.
Proof.
  unfold Str.trim. induction s as [|c s IH]; [reflexivity|].
  cbn [Str.trimStart all_space]. destruct (Str.is_space c) eqn:Hc.
  - exact IH.
  - apply String.eqb_neq, trimEnd_nonempty, Hc.
Qed.

(** X13.  The add-source form: a field that is absent or made of white
    space only changes nothing; any other field appends one source, under
    the fresh id and with the trimmed field as url, and starts one fetch
    of that url.  The content is not touched and nothing is stored at this
    point. *)
Theorem submit_source_appends_the_trimmed_url
    (w : World App) (input : option string) (uuid : string) :
  submitSource input uuid w
  = match input with
    | None => (Ok tt, w)
    | Some raw =>
        if all_space raw then (Ok tt, w)
        else (Ok tt,
              mkWorld (mkApp (sources (this w) ++ [mkSource uuid (Str.trim raw)])
                         (content (this w)) (filtersGroups (this w))
                         (activeFilterGroup (this w)))
                (localStorage w) (log w ++ [Fetch (Str.trim raw)]))
    end.
Proof.
  unfold submitSource. destruct input as [raw|]; [|reflexivity].
  rewrite trim_blank. destruct (all_space raw); reflexivity.
Qed.

Lemma nth_error_set_nth_other {A} (i j : nat) (x : A) (l : list A) :
  j <> i -> nth_error (JS.set_nth i x l) j = nth_error l j.
Proof.
  revert i j. induction l as [|y l IH]; intros [|i] [|j] Hne;
    cbn; try reflexivity; [contradiction|].
  apply IH. intro H. apply Hne. rewrite H. reflexivity.
Qed.

Lemma nth_error_set_nth_at {A} (i : nat) (x y : A) (l : list A) :
  nth_error l i = Some y -> nth_error (JS.set_nth i x l) i = Some x.
Proof.
  revert i. induction l as [|z l IH]; intros [|i]; cbn; try discriminate.
  - reflexivity.
  - apply IH.
Qed.

(** X14.  Editing a source replaces at most one url, then at most one
    data value, and nothing else.  On submit the sources either stay as
    they are or change at one position only, the first with the id of the
    form, where the source keeps that id and gets the trimmed url; content
    and groups stay.  When the fetch resolves the content either stays as
    it is or changes at one position only, the first with that id, where
    the item keeps the id and gets the fetched data; sources and groups
    stay.  So the ids and their order are kept throughout. *)
Theorem edit_source_keeps_ids
    (w : World App) (id_field url_field : option string)
    (id : string) (item : Value) :
  let a := this w in
  let a1 := this (snd (submitEdit id_field url_field w)) in
  let a2 := this (snd (editFetched id item w)) in
  (List.map sourceId (sources a1) = List.map sourceId (sources a)
   /\ content a1 = content a
   /\ filtersGroups a1 = filtersGroups a
   /\ (sources a1 = sources a
       \/ exists idx i raw,
            id_field = Some i /\ url_field = Some raw
            /\ JS.findIndex (fun e => String.eqb (sourceId e) i) (sources a)
               = Some idx
            /\ nth_error (sources a1) idx = Some (mkSource i (Str.trim raw))
            /\ forall j, j <> idx ->
                         nth_error (sources a1) j = nth_error (sources a) j))
  /\ (List.map contentId (content a2) = List.map contentId (content a)
      /\ sources a2 = sources a
      /\ filtersGroups a2 = filtersGroups a
      /\ (content a2 = content a
          \/ exists idx,
               JS.findIndex (fun e => String.eqb (contentId e) id) (content a)
               = Some idx
               /\ nth_error (content a2) idx = Some (mkContent id item)
               /\ forall j, j <> idx ->
                            nth_error (content a2) j = nth_error (content a) j)).
Proof.
  cbv zeta. split.
  - unfold submitEdit. destruct id_field as [i|], url_field as [raw|];
      try (repeat split; try reflexivity; left; reflexivity).
    destruct (String.eqb i EmptyString || String.eqb (Str.trim raw) EmptyString);
      [repeat split; try reflexivity; left; reflexivity|].
    cbv [bind get_this set_sources put_this emit ret].
    destruct (JS.findIndex _ (sources (this w))) as [idx|] eqn:Hfind;
      [|repeat split; try reflexivity; left; reflexivity].
    destruct (findIndex_Some _ _ Hfind) as (s & Hnth & Hid).
    cbn [snd this sources content filtersGroups].
    split; [|split; [reflexivity|split; [reflexivity|]]].
    + eapply map_set_nth; [exact Hnth|]. cbn. symmetry.
      apply String.eqb_eq, Hid.
    + right. exists idx, i, raw. repeat split; try assumption.
      * eapply nth_error_set_nth_at. exact Hnth.
      * intros j Hj. apply nth_error_set_nth_other, Hj.
  - unfold editFetched.
    set (h := fun e : Error =>
                emit (ConsoleError e) ;; emit (Alert "Failed to load source")).
    set (m := a <- get_this ;;
              match JS.findIndex (fun e => String.eqb (contentId e) id)
                      (content a) with
              | Some contentIdx =>
                  set_content (JS.set_nth contentIdx (mkContent id item) (content a)) ;;
                  process ;; save
              | None => ret tt
              end).
    assert (Hcatch : this (snd (try_catch m h w)) = this (snd (m w))).
    { unfold try_catch. destruct (m w) as [[[]| |] w1]; reflexivity. }
    rewrite Hcatch.
    assert (Hm : m w
                 = match JS.findIndex (fun e => String.eqb (contentId e) id)
                           (content (this w)) with
                   | Some contentIdx =>
                       (process ;; save)
                         (mkWorld (mkApp (sources (this w))
                                     (JS.set_nth contentIdx (mkContent id item)
                                        (content (this w)))
                                     (filtersGroups (this w))
                                     (activeFilterGroup (this w)))
                            (localStorage w) (log w))
                   | None => (Ok tt, w)
                   end).
    { unfold m. unfold bind at 1, get_this at 1. cbv beta iota.
      destruct (JS.findIndex _ (content (this w))); reflexivity. }
    rewrite Hm. clear Hm Hcatch.
    destruct (JS.findIndex _ (content (this w))) as [idx|] eqn:Hfind;
      [|repeat split; try reflexivity; left; reflexivity].
    destruct (findIndex_Some _ _ Hfind) as (c & Hnth & Hid).
    rewrite (refresh_same_this _). cbn [this sources content filtersGroups].
    split; [|split; [reflexivity|split; [reflexivity|]]].
    + eapply map_set_nth; [exact Hnth|]. cbn. symmetry.
      apply String.eqb_eq, Hid.
    + right. exists idx. repeat split.
      * eapply nth_error_set_nth_at. exact Hnth.
      * intros j Hj. apply nth_error_set_nth_other, Hj.
Qed.

Lemma filter_storage_app (l : list Event) (evs : list Event) :
  forallb (fun ev => negb (is_StorageSet ev)) evs = true ->
  List.filter is_StorageSet (l ++ evs) = List.filter is_StorageSet l.
Proof.
  intro H. rewrite filter_app.
  assert (Hnone : List.filter is_StorageSet evs = []).
  { induction evs as [|ev evs IH]; [reflexivity|]. cbn in *.
    apply andb_true_iff in H. destruct H as [Hev H].
    apply negb_true_iff in Hev. rewrite Hev. apply IH, H. }
  rewrite Hnone. apply app_nil_r.
Qed.

(** X15.  Start-up never writes to storage: [load], and the handlers of
    the fetches it starts, leave the stored record as it is, whether they
    return or throw. *)
Theorem startup_never_stores :
  preserves storage_kept load
  /\ (forall items, preserves storage_kept (loadFetched items))
  /\ (forall e, preserves storage_kept (loadFetchFailed e)).
Proof.
  assert (Hemit : forall ev, is_StorageSet ev = false ->
                             preserves storage_kept (emit ev)).
  { intros ev Hev w. unfold emit. split; [reflexivity|]. cbn.
    apply filter_storage_app. cbn. rewrite Hev. reflexivity. }
  assert (Hfail : forall e, preserves storage_kept
                              (emit (ConsoleError e) ;;
                               emit (Alert "Failed to load sources"))).
  { intro e. apply preserves_bind; [exact storage_kept_trans| |intros _];
      apply Hemit; reflexivity. }
  split; [|split].
  - intro w. unfold load.
    destruct (localStorage w) as [state|] eqn:Hstore; [|apply storage_kept_refl].
    destruct (String.eqb state EmptyString); [apply storage_kept_refl|].
    cbv [bind lift set_filtersGroups set_activeFilterGroup set_sources
         get_this put_this].
    destruct (JSON.parse state desterilizeFunction) as [data| |];
      [|apply storage_kept_refl..].
    destruct (rbind (member data "filters") _) as [filters| |];
      [|apply storage_kept_refl..].
    destruct (rbind (member data "active") _) as [active| |];
      [|split; reflexivity..].
    destruct (rbind (member data "sources") _) as [srcs| |];
      [|split; reflexivity..].
    rewrite fetch_all_log. split; cbn; [reflexivity|].
    apply filter_storage_app, forallb_forall. intros ev Hev.
    apply in_map_iff in Hev. destruct Hev as (s & <- & _). reflexivity.
  - intros items. unfold loadFetched.
    apply preserves_try_catch; [exact storage_kept_trans| |exact Hfail].
    apply preserves_bind; [exact storage_kept_trans| |intros _].
    + intro w. split; reflexivity.
    + apply process_storage_kept.
  - intro e. apply Hfail.
Qed.

End MoreHandlers.

Lemma updateDisplay_opens_an_editor_on_every_step_witness :
  MultiSource.updateDisplay (Examples.world Examples.two_steps)
  = (Ok tt,
     Examples.world
       (MultiSource.mkApp [mkSource "s" "u"] [mkContent "s" (VNum 7)]
          [[mkFilter "m" (Some "return e;"%string) "map" (Examples.fn "return e;");
            mkFilter "m10" (Some "return e*10;"%string) "map"
              (Examples.fn "return e*10;")]] 0)).
Proof.
  apply (@updateDisplay_opens_an_editor_on_every_step
           (Examples.world Examples.two_steps)
           [Examples.map_e; Examples.map_x10]).
  - reflexivity.
  - repeat constructor; simpl; intuition discriminate.
Defined.

Lemma edit_that_does_not_compile_changes_nothing_witness :
  let w := Examples.world (Examples.edited "return e.;") in
  MultiSource.handleFilterChange (engine := MiniJS.engine) 0 w
  = (Thrown (SyntaxError "return e.;"), w).
Proof.
  apply (@edit_that_does_not_compile_changes_nothing MiniJS.engine
           (Examples.world (Examples.edited "return e.;")) 0
           [mkFilter "m" (Some "return e.;"%string) "map" (Examples.fn "return e;");
            Examples.map_x10]
           (mkFilter "m" (Some "return e.;"%string) "map" (Examples.fn "return e;"))
           "return e.;"); reflexivity.
Defined.


Lemma add_step_appends_a_select_step_witness :
  let r := MultiSource.bntFiltersAdd (engine := MiniJS.engine) "n"
             (Examples.world Examples.two_steps) in
  this (snd r)
  = MultiSource.mkApp [mkSource "s" "u"] [mkContent "s" (VNum 7)]
      [[mkFilter "m" (Some "return e;"%string) "map" (Examples.fn "return e;");
        mkFilter "m10" (Some "return e*10;"%string) "map"
          (Examples.fn "return e*10;");
        mkFilter "n" (Some "return e;"%string) "select"
          (Examples.fn "return e;")]] 0
  /\ (forall e, fst r <> Thrown e).
Proof.
  apply (@add_step_appends_a_select_step MiniJS.engine
           (Examples.world Examples.two_steps) "n"
           [Examples.map_e; Examples.map_x10]).
  - reflexivity.
  - reflexivity.
  - repeat constructor; simpl; intuition discriminate.
  - simpl; intuition discriminate.
Defined.

Lemma add_step_creates_the_group_witness :
  let r := MultiSource.bntFiltersAdd (engine := MiniJS.engine) "n"
             Examples.empty_world in
  this (snd r)
  = MultiSource.mkApp [] []
      [[mkFilter "n" (Some "return e;"%string) "select"
          (Examples.fn "return e;")]] 0
  /\ (forall e, fst r <> Thrown e).
Proof.
  apply (@add_step_creates_the_group MiniJS.engine Examples.empty_world "n");
    reflexivity.
Defined.

Lemma remove_step_removes_by_id_witness :
  this (snd (MultiSource.removeFilterClick (engine := MiniJS.engine) "m"
               (Examples.world Examples.two_steps)))
  = MultiSource.mkApp [mkSource "s" "u"] [mkContent "s" (VNum 7)]
      [[mkFilter "m10" (Some "return e*10;"%string) "map"
          (Examples.fn "return e*10;")]] 0.
Proof.
  apply (@remove_step_removes_by_id MiniJS.engine
           (Examples.world Examples.two_steps) "m"
           [Examples.map_e; Examples.map_x10]).
  - reflexivity.
  - repeat constructor; simpl; intuition discriminate.
Defined.

Lemma kind_change_sets_the_kind_witness :
  exists e,
    nth_error [Examples.map_e; Examples.map_x10] 1 = Some e
    /\ id e = "m10"%string
    /\ this (snd (MultiSource.selectTypeChange (engine := MiniJS.engine)
                    "m10" "sort" (Examples.world Examples.two_steps)))
       = MultiSource.with_active_group Examples.two_steps
           (JS.set_nth 1 (mkFilter (id e) (editor e) "sort" (func e))
              [Examples.map_e; Examples.map_x10]).
Proof.
  apply (@kind_change_sets_the_kind MiniJS.engine
           (Examples.world Examples.two_steps) "m10" "sort"
           [Examples.map_e; Examples.map_x10] 1).
  - reflexivity.
  - reflexivity.
  - discriminate.
Defined.

(** ** The executor, continued *)

Section MoreExecutor.
Context {engine : Engine}.
Import MultiSource.

Lemma filter_from_pure (f : Func) (p : Value -> Value) (whole : Value)
      (l : list Value) (i : Z) :
  (forall x i whole, call f [x; VNum i; whole] = Ok (p x)) ->
  filter_from f whole i l = Ok (List.filter (fun x => JS.truthy (p x)) l).
Proof.
  intro Hp. revert i. induction l as [|x l IH]; intro i; cbn; [reflexivity|].
  rewrite Hp, IH. cbn. destruct (JS.truthy (p x)); reflexivity.
Qed.

Lemma map_from_pure (f : Func) (p : Value -> Value) (whole : Value)
      (l : list Value) (i : Z) :
  (forall x i whole, call f [x; VNum i; whole] = Ok (p x)) ->
  map_from f whole i l = Ok (List.map p l).
Proof.
  intro Hp. revert i. induction l as [|x l IH]; intro i; cbn; [reflexivity|].
  rewrite Hp, IH. reflexivity.
Qed.

Lemma flatMap_from_pure (f : Func) (p : Value -> Value) (whole : Value)
      (l : list Value) (i : Z) :
  (forall x i whole, call f [x; VNum i; whole] = Ok (p x)) ->
  flatMap_from f whole i l
  = Ok (List.flat_map (fun x => match p x with
                                | VArr inner => inner
                                | y => [y]
                                end) l).
Proof.
  intro Hp. revert i. induction l as [|x l IH]; intro i; cbn; [reflexivity|].
  rewrite Hp, IH. cbn. destruct (p x); reflexivity.
Qed.

(** X16.  For a transform that computes a function [p] of the element
    alone, the three array steps are the list operations: a [filter] step
    keeps, in order, the elements on which [p] is truthy; a [map] step
    applies [p] to every element; a [flatmap] step does the same and
    splices in, one level deep, the results that are arrays. *)
Theorem pure_steps_are_list_operations
    (f : Filter) (p : Value -> Value) (rest : list Filter) (l : list Value) :
  (forall x i whole, call (func f) [x; VNum i; whole] = Ok (p x)) ->
  (type f = "filter"%string ->
   run_filters (f :: rest) (VArr l)
   = run_filters rest (VArr (List.filter (fun x => JS.truthy (p x)) l)))
  /\ (type f = "map"%string ->
      run_filters (f :: rest) (VArr l) = run_filters rest (VArr (List.map p l)))
  /\ (type f = "flatmap"%string ->
      run_filters (f :: rest) (VArr l)
      = run_filters rest
          (VArr (List.flat_map (fun x => match p x with
                                         | VArr inner => inner
                                         | y => [y]
                                         end) l))).
Proof.
  intro Hp. repeat split; intro Hkind; cbn [run_filters]; rewrite Hkind;
    cbn [String.eqb Ascii.eqb Bool.eqb andb].
  - unfold array_filter. erewrite filter_from_pure by exact Hp. reflexivity.
  - unfold array_map. erewrite map_from_pure by exact Hp. reflexivity.
  - unfold array_flatMap. erewrite flatMap_from_pure by exact Hp. reflexivity.
Qed.

(** X17.  A step whose kind is none of [filter], [flatmap], [select]
    and [map] is skipped by the executor: a run gives what the run without
    such steps gives, on every data. *)
Theorem run_filters_ignores_unknown_kinds (steps : list Filter) (data : Value) :
  run_filters
    (List.filter
       (fun f => existsb (String.eqb (type f))
                   ["filter"; "flatmap"; "select"; "map"]%string) steps) data
  = run_filters steps data.
Proof.
  revert data. induction steps as [|f steps IH]; intro data; [reflexivity|].
  cbn [List.filter existsb run_filters].
  destruct (String.eqb (type f) "filter") eqn:Hfilter;
    [|destruct (String.eqb (type f) "flatmap") eqn:Hflatmap;
      [|destruct (String.eqb (type f) "select") eqn:Hselect;
        [|destruct (String.eqb (type f) "map") eqn:Hmap]]];
    cbn [orb run_filters]; rewrite ?Hfilter, ?Hflatmap, ?Hselect, ?Hmap;
    try apply IH.
  - destruct data; try apply IH.
    destruct (array_filter (func f) elems); cbn [rbind]; [apply IH|reflexivity..].
  - destruct data; try apply IH.
    destruct (array_flatMap (func f) elems); cbn [rbind]; [apply IH|reflexivity..].
  - destruct (negb (JS.truthy data) || negb (String.eqb (JS.typeof data) "object"));
      [reflexivity|].
    destruct (call (func f) []) as [key| |]; cbn [rbind]; [|reflexivity..].
    destruct (JS.index data key); cbn [rbind]; [apply IH|reflexivity..].
  - destruct data; try apply IH.
    destruct (array_map (func f) elems); cbn [rbind]; [apply IH|reflexivity..].
Qed.

(** X18.  The executor of the single-source program is the executor of
    the multi-source program with the [flatmap] steps left out: it has no
    [flatmap] case, so such a step falls to [default] there. *)
Theorem single_run_is_multi_run_without_flatmap
    (steps : list Filter) (data : Value) :
  SingleSource.run_filters steps data
  = run_filters
      (List.filter (fun f => negb (String.eqb (type f) "flatmap")) steps) data.
Proof.
  revert data. induction steps as [|f steps IH]; intro data; [reflexivity|].
  cbn [List.filter SingleSource.run_filters].
  destruct (String.eqb (type f) "flatmap") eqn:Hflatmap; cbn [negb].
  - apply String.eqb_eq in Hflatmap. rewrite Hflatmap.
    cbn [String.eqb Ascii.eqb Bool.eqb andb]. apply IH.
  - cbn [run_filters]. rewrite Hflatmap.
    destruct (String.eqb (type f) "filter").
    + destruct data; try apply IH.
      destruct (array_filter (func f) elems); cbn [rbind];
        [apply IH|reflexivity..].
    + destruct (String.eqb (type f) "select").
      * destruct (negb (JS.truthy data)
                  || negb (String.eqb (JS.typeof data) "object"));
          [reflexivity|].
        destruct (call (func f) []) as [key| |]; cbn [rbind]; [|reflexivity..].
        destruct (JS.index data key); cbn [rbind]; [apply IH|reflexivity..].
      * destruct (String.eqb (type f) "map"); [|apply IH].
        destruct data; try apply IH.
        destruct (array_map (func f) elems); cbn [rbind];
          [apply IH|reflexivity..].
Qed.

End MoreExecutor.

Lemma pure_steps_are_list_operations_witness :
  MultiSource.run_filters (engine := MiniJS.engine)
    [Examples.step "k" "filter" "return e;"] (VArr [VNum 0; VNum 3; VNull])
  = Ok (Some (VArr [VNum 3]))
  /\ MultiSource.run_filters (engine := MiniJS.engine)
       [Examples.step "k" "flatmap" "return e;"]
       (VArr [VArr [VNum 1; VArr [VNum 2]]; VNum 3])
     = Ok (Some (VArr [VNum 1; VArr [VNum 2]; VNum 3])).
Proof.
  split.
  - apply (proj1 (@pure_steps_are_list_operations MiniJS.engine
                    (Examples.step "k" "filter" "return e;") (fun x => x) []
                    [VNum 0; VNum 3; VNull] (fun x i whole => eq_refl))).
    reflexivity.
  - apply (proj2 (proj2 (@pure_steps_are_list_operations MiniJS.engine
                    (Examples.step "k" "flatmap" "return e;") (fun x => x) []
                    [VArr [VNum 1; VArr [VNum 2]]; VNum 3]
                    (fun x i whole => eq_refl)))).
    reflexivity.
Defined.

(** ** Selecting by position *)

Section SelectByIndex.
Context {engine : Engine}.
Import MultiSource.

Lemma of_uint_acc_pos (d : Decimal.uint) (acc : positive) :
  Nat.of_uint_acc d (Pos.to_nat acc) = Pos.to_nat (Pos.of_uint_acc d acc).
Proof.
  revert acc. induction d; intro acc; cbn [Nat.of_uint_acc Pos.of_uint_acc];
    [reflexivity|..]; rewrite <- IHd; f_equal; rewrite Nat.tail_mul_spec; lia.
Qed.

Lemma of_uint_nat_N (d : Decimal.uint) :
  Nat.of_uint d = N.to_nat (Pos.of_uint d).
Proof.
  unfold Nat.of_uint.
  induction d; cbn [Nat.of_uint_acc Pos.of_uint]; [reflexivity|exact IHd|..];
    cbn [N.to_nat]; rewrite <- of_uint_acc_pos; reflexivity.
Qed.

(** The canonical decimal text of a natural number names that array
    index; the text of a negative number names none. *)
Lemma array_index_of_Z (z : Z) :
  JS.array_index (Str.of_Z z) = if z <? 0 then None else Some (Z.to_nat z).
Proof.
  unfold JS.array_index, Str.of_Z.
  destruct z as [|p|p]; [reflexivity| |].
  - cbn [Z.to_int NilZero.string_of_int Z.ltb Z.compare].
    rewrite (NilZero.usu _ (DecimalPos.Unsigned.to_uint_nonnil p)).
    rewrite DecimalNat.Unsigned.to_of.
    assert (Hnorm : Decimal.unorm (Pos.to_uint p) = Pos.to_uint p).
    { pose proof (DecimalPos.Unsigned.to_of (Pos.to_uint p)) as H.
      rewrite DecimalPos.Unsigned.of_to in H. symmetry. exact H. }
    rewrite Hnorm, String.eqb_refl, of_uint_nat_N.
    rewrite DecimalPos.Unsigned.of_to. reflexivity.
  - cbn [Z.to_int NilZero.string_of_int NilZero.uint_of_string
           NilEmpty.uint_of_string].
    destruct (NilEmpty.uint_of_string (NilZero.string_of_uint (Pos.to_uint p)));
      reflexivity.
Qed.

Lemma of_Z_not_length (z : Z) : String.eqb (Str.of_Z z) "length" = false.
Proof.
  apply String.eqb_neq. unfold Str.of_Z. destruct z as [|p|p].
  - discriminate.
  - cbn [Z.to_int NilZero.string_of_int]. intro H.
    pose proof (NilZero.usu _ (DecimalPos.Unsigned.to_uint_nonnil p)) as Hp.
    rewrite H in Hp. discriminate.
  - discriminate.
Qed.

(** No member of a prototype is named by the text of a number: these
    names begin with a letter or an underscore. *)
Lemma inherits_of_Z (data : Value) (z : Z) :
  JS.inherits data (Str.of_Z z) = false.
Proof.
  destruct (of_Z_head z) as (c & t & -> & Hc).
  assert (Hnames : forall names,
             forallb (fun name => match name with
                                  | String a _ =>
                                      negb (JSON.is_digit a)
                                      && negb (Ascii.eqb a "-")
                                  | EmptyString => true
                                  end) names = true ->
             existsb (String.eqb (String c t)) names = false).
  { induction names as [|name names IH]; intro Hall; [reflexivity|].
    cbn [forallb] in Hall. apply andb_true_iff in Hall.
    destruct Hall as [Hname Hall]. cbn [existsb]. rewrite (IH Hall).
    destruct name as [|a name]; [reflexivity|]. cbn [String.eqb].
    apply andb_true_iff in Hname. destruct Hname as [Hdigit Hminus].
    apply negb_true_iff in Hdigit, Hminus.
    destruct (Ascii.eqb c a) eqn:Hca; [|reflexivity].
    apply Ascii.eqb_eq in Hca. subst a.
    destruct Hc as [->|Hc]; [discriminate|congruence]. }
  destruct data; try reflexivity; apply Hnames; reflexivity.
Qed.

(** X19.  A [select] step whose accessor returns a number picks from an
    array the element at that position, [undefined] when the number is
    negative or past the end.  On the seed of a run this is the data of
    the content item at that position, in the order in which the sources
    were loaded. *)
Theorem select_by_number_picks_the_position
    (f : Filter) (rest : list Filter) (z : Z) :
  type f = "select"%string ->
  call (func f) [] = Ok (VNum z) ->
  (forall l,
     run_filters (f :: rest) (VArr l)
     = run_filters rest
         (if z <? 0 then VUndefined else nth (Z.to_nat z) l VUndefined))
  /\ (forall a,
        run_filters (f :: rest) (seed a)
        = run_filters rest
            (match JS.get (content a) z with
             | Some item => data item
             | None => VUndefined
             end)).
Proof.
  intros Hkind Hcall.
  assert (Harr : forall l,
             run_filters (f :: rest) (VArr l)
             = run_filters rest
                 (if z <? 0 then VUndefined else nth (Z.to_nat z) l VUndefined)).
  { intro l. cbn [run_filters]. rewrite Hkind.
    cbn [String.eqb Ascii.eqb Bool.eqb andb JS.truthy JS.typeof negb orb].
    rewrite Hcall. cbn [rbind]. unfold JS.index. cbn [JS.toString].
    rewrite of_Z_not_length, array_index_of_Z, inherits_of_Z.
    destruct (z <? 0); reflexivity. }
  split; [exact Harr|].
  intro a. unfold seed. rewrite Harr. unfold JS.get.
  destruct (z <? 0); [reflexivity|]. f_equal.
  generalize (Z.to_nat z). intro n. revert n.
  induction (content a) as [|item items IH]; intros [|n]; cbn; try reflexivity.
  apply IH.
Qed.

End SelectByIndex.

Lemma select_by_number_picks_the_position_witness :
  MultiSource.run_filters (engine := MiniJS.engine) [Examples.select_0]
    (MultiSource.seed
       (MultiSource.mkApp [] [mkContent "b" (VNum 2); mkContent "a" (VNum 1)]
          [] 0))
  = Ok (Some (VNum 2)).
Proof.
  apply (proj2 (@select_by_number_picks_the_position MiniJS.engine
                  Examples.select_0 [] 0 eq_refl eq_refl)).
Defined.

(** ** The first step of a group *)

Section AddedStep.
Context {engine : Engine}.
Import MultiSource.

(** X20.  The step that the add button creates selects with the key
    [undefined]: its body [return e;] is called without arguments.  So
    adding a step to an empty active group blanks the viewer, whatever
    content is loaded: the run hands it [undefined], and the handler
    returns after it has stored the new pipeline. *)
Theorem first_step_of_a_group_blanks_the_viewer (w : World App) (uuid : string) :
  compiles PARAMS "return e;" = true ->
  call (mkFunc PARAMS "return e;") [] = Ok VUndefined ->
  JS.get (filtersGroups (this w)) (activeFilterGroup (this w)) = Some [] ->
  let r := bntFiltersAdd uuid w in
  fst r = Ok tt
  /\ displayed (log (snd r)) = Some VUndefined
  /\ localStorage (snd r) = Some (JSON.print (state_tree (this (snd r)))).
Proof.
  intros Hc Hcall Hget r.
  set (w1 := mkWorld (with_active_group (this w) [new_step uuid])
               (localStorage w) (log w)).
  assert (Hrun : bntFiltersAdd uuid w
                 = try_catch (updateDisplay ;; process ;; save)
                     (fun error => emit (ConsoleLogError error)) w1).
  { unfold bntFiltersAdd. unfold bind at 1, get_this at 1. cbv beta iota.
    unfold bind at 1. rewrite Hget. unfold ret at 1. cbv beta iota.
    unfold bind at 1. unfold bind at 1, get_this at 1. cbv beta iota.
    rewrite Hget. unfold bind at 1, lift at 1, new_Function. rewrite Hc.
    cbv beta iota. erewrite assign_in_range by exact Hget. reflexivity. }
  assert (Hget1 : JS.get (filtersGroups (this w1)) (activeFilterGroup (this w1))
                  = Some [new_step uuid]).
  { unfold w1. cbn [this]. eapply get_with_active_group. exact Hget. }
  set (w2 := mkWorld (with_active_group (this w1) [with_editor (new_step uuid)])
               (localStorage w1) (log w1)).
  assert (Hshow : updateDisplay w1 = (Ok tt, w2)).
  { apply (@updateDisplay_on w1 [new_step uuid] Hget1).
    cbn. constructor; [intros []|constructor]. }
  assert (Hsteps : active_steps (this w2) = [with_editor (new_step uuid)]).
  { unfold active_steps. erewrite get_at; [reflexivity|].
    unfold w2. cbn [this]. eapply get_with_active_group. exact Hget1. }
  assert (Hprocess : process w2
                     = (Ok tt, logged w2 [ConsoleLog (seed (this w2));
                                          ViewerSet VUndefined])).
  { rewrite process_runs_filters, Hsteps. unfold seed.
    cbn [run_filters with_editor new_step type func String.eqb Ascii.eqb
         Bool.eqb andb JS.truthy JS.typeof negb orb].
    rewrite Hcall. reflexivity. }
  destruct (save_stores (logged w2 [ConsoleLog (seed (this w2));
                                    ViewerSet VUndefined]))
    as (text & _ & Hsave).
  assert (Hall : bntFiltersAdd uuid w
                 = (Ok tt, saved (logged w2 [ConsoleLog (seed (this w2));
                                             ViewerSet VUndefined]) text)).
  { rewrite Hrun. unfold try_catch, bind. rewrite Hshow, Hprocess, Hsave.
    reflexivity. }
  subst r. split; [rewrite Hall; reflexivity|]. split.
  - rewrite Hall. unfold saved, logged. cbn [snd log].
    rewrite displayed_other by reflexivity.
    change (log w2 ++ [ConsoleLog (seed (this w2)); ViewerSet VUndefined])
      with (log w2 ++ [ConsoleLog (seed (this w2))] ++ [ViewerSet VUndefined]).
    rewrite app_assoc. apply displayed_set.
  - pose proof (@save_storage (logged w2 [ConsoleLog (seed (this w2));
                                         ViewerSet VUndefined])) as Hstored.
    rewrite Hsave in Hstored. rewrite Hall. exact Hstored.
Qed.

End AddedStep.

Lemma first_step_of_a_group_blanks_the_viewer_witness :
  let w := mkWorld (MultiSource.mkApp [mkSource "s" "u"] [mkContent "s" (VNum 7)]
                      [[]] 0)
             None [ConsoleLog (VArr [VNum 7]); ViewerSet (VArr [VNum 7])] in
  let r := MultiSource.bntFiltersAdd (engine := MiniJS.engine) "n" w in
  displayed (log w) = Some (VArr [VNum 7])
  /\ fst r = Ok tt
  /\ displayed (log (snd r)) = Some VUndefined.
Proof.
  split; [reflexivity|].
  destruct (@first_step_of_a_group_blanks_the_viewer MiniJS.engine
              (mkWorld (MultiSource.mkApp [mkSource "s" "u"]
                          [mkContent "s" (VNum 7)] [[]] 0)
                 None [ConsoleLog (VArr [VNum 7]); ViewerSet (VArr [VNum 7])])
              "n" eq_refl eq_refl eq_refl) as (Hok & Hshown & _).
  split; [exact Hok|exact Hshown].
Defined.

Lemma remove_source_aligned_witness :
  let w' := snd (MultiSource.removeSourceClick (engine := MiniJS.engine)
                   (Some "a"%string) Examples.both_loaded) in
  MultiSource.sources (this w') = [mkSource "b" "u/b.json"]
  /\ MultiSource.content (this w') = [mkContent "b" (VNum 2)]
  /\ List.map contentId (MultiSource.content (this w'))
     = List.map sourceId (MultiSource.sources (this w')).
Proof.
  apply (@remove_source_aligned MiniJS.engine Examples.both_loaded "a").
  - discriminate.
  - reflexivity.
  - repeat constructor; simpl; intuition discriminate.
  - left. reflexivity.
Defined.

(** ** Persistence of the single-source program *)

Section SinglePersistence.
Context {engine : Engine}.
Import JSON.

Lemma single_stringify_state (a : SingleSource.App) :
  JSON.stringify (SingleSource.state_value a) sterilizeFunction
  = Ok (Some (print (SingleSource.state_tree a))).
Proof.
  destruct (stringify_object
              [("source"%string,
                match SingleSource.source a with
                | Some s => VStr s
                | None => VUndefined
                end);
               ("filters"%string,
                VArr (List.map (fun g => VArr (List.map MultiSource.filter_value g))
                        (SingleSource.filtersGroups a)));
               ("active"%string, VNum (SingleSource.activeFilterGroup a))])
    as [text Htext].
  fold (SingleSource.state_value a) in Htext. rewrite Htext. do 2 f_equal.
  unfold JSON.stringify in Htext.
  apply (@serialize_mono sterilizeFunction _
           (5 + JSON.depth (SingleSource.state_value a))) in Htext; [|lia].
  assert (Hshape : SerializeJSONProperty
                     (5 + JSON.depth (SingleSource.state_value a))
                     sterilizeFunction "" (SingleSource.state_value a)
                   = Ok (Some (print (SingleSource.state_tree a)))).
  { generalize (JSON.depth (SingleSource.state_value a)). intro d.
    unfold SingleSource.state_value, SingleSource.state_tree.
    change (5 + d)%nat with (S (4 + d)).
    cbn [SerializeJSONProperty].
    change (sterilizeFunction EmptyString (VObj ?x)) with (VObj x).
    cbv beta iota. cbn [serialize_props].
    change (4 + d)%nat with (S (3 + d)).
    assert (Hfilters :
      SerializeJSONProperty (S (3 + d)) sterilizeFunction "filters"
        (VArr (List.map (fun g => VArr (List.map MultiSource.filter_value g))
                 (SingleSource.filtersGroups a)))
      = Ok (Some (print (VArr (List.map
                                 (fun g => VArr (List.map MultiSource.filter_tree g))
                                 (SingleSource.filtersGroups a)))))).
    { apply (@serialize_array _ (3 + d) "filters"
               (fun g => VArr (List.map MultiSource.filter_value g))
               (fun g => VArr (List.map MultiSource.filter_tree g)));
        [reflexivity|].
      intros g i. apply serialize_array; [apply of_Z_not_editor|].
      intros f j. apply serialize_filter, of_Z_not_editor. }
    rewrite Hfilters.
    destruct (SingleSource.source a) as [s|]; reflexivity. }
  congruence.
Qed.

Lemma single_save_storage (w : World SingleSource.App) :
  SingleSource.save w
  = (Ok tt,
     mkWorld (this w) (Some (print (SingleSource.state_tree (this w))))
       (log w ++ [StorageSet (print (SingleSource.state_tree (this w)))])).
Proof.
  unfold SingleSource.save, bind, get_this, lift. cbv beta iota.
  rewrite single_stringify_state. reflexivity.
Qed.

Lemma single_is_json_state (a : SingleSource.App) :
  is_json (SingleSource.state_tree a) = true.
Proof.
  assert (Hgroups : forallb is_json
                      (List.map (fun g => VArr (List.map MultiSource.filter_tree g))
                         (SingleSource.filtersGroups a)) = true).
  { apply forallb_forall. intros v Hv. apply in_map_iff in Hv.
    destruct Hv as (g & <- & _). cbn [is_json].
    apply forallb_forall. intros v Hv. apply in_map_iff in Hv.
    destruct Hv as (f & <- & _). reflexivity. }
  unfold SingleSource.state_tree.
  destruct (SingleSource.source a) as [s|];
    cbn [app is_json forallb snd fst List.map distinct];
    change (is_json (VArr (List.map
                             (fun g => VArr (List.map MultiSource.filter_tree g))
                             (SingleSource.filtersGroups a))))
      with (forallb is_json
              (List.map (fun g => VArr (List.map MultiSource.filter_tree g))
                 (SingleSource.filtersGroups a)));
    rewrite Hgroups; reflexivity.
Qed.

Lemma single_parse_state (a : SingleSource.App) :
  SingleSource.bodies_compile a ->
  exists data,
    JSON.parse (print (SingleSource.state_tree a)) desterilizeFunction = Ok data
    /\ rbind (MultiSource.member data "filters")
         (MultiSource.typed
            (MultiSource.as_array (MultiSource.as_array MultiSource.as_filter)))
       = Ok (List.map (List.map MultiSource.reloaded)
               (SingleSource.filtersGroups a))
    /\ rbind (MultiSource.member data "active")
         (MultiSource.typed MultiSource.as_number)
       = Ok (SingleSource.activeFilterGroup a)
    /\ rbind (MultiSource.member data "source")
         (MultiSource.typed SingleSource.as_optional_string)
       = Ok (SingleSource.source a).
Proof.
  intro Hc. unfold JSON.parse.
  rewrite (parse_text_print _ (single_is_json_state a)). cbn [rbind].
  assert (Hfilters :
    internalize desterilizeFunction "filters"
      (VArr (List.map (fun g => VArr (List.map MultiSource.filter_tree g))
               (SingleSource.filtersGroups a)))
    = Ok (VArr (List.map (fun g => VArr (List.map MultiSource.revived_filter g))
                  (SingleSource.filtersGroups a)))).
  { apply internalize_array. intros g Hg i. apply internalize_array.
    intros f Hf j. apply internalize_filter. exact (Hc g f Hg Hf). }
  assert (Hgroups :
    MultiSource.as_array (MultiSource.as_array MultiSource.as_filter)
      (VArr (List.map (fun g => VArr (List.map MultiSource.revived_filter g))
               (SingleSource.filtersGroups a)))
    = Some (List.map (List.map MultiSource.reloaded)
              (SingleSource.filtersGroups a))).
  { apply all_some_map. intro g. apply all_some_map. intro f. reflexivity. }
  unfold SingleSource.state_tree.
  remember (VArr (List.map (fun g => VArr (List.map MultiSource.filter_tree g))
                    (SingleSource.filtersGroups a))) as groups.
  destruct (SingleSource.source a) as [s|];
    cbn [app internalize internalize_props];
    rewrite Hfilters;
    change (desterilizeFunction "active" (VNum (SingleSource.activeFilterGroup a)))
      with (Ok (VNum (SingleSource.activeFilterGroup a)));
    [change (desterilizeFunction "source" (VStr s)) with (Ok (VStr s))|];
    cbn [rbind]; rewrite desterilize_object;
    (eexists; split; [reflexivity|]);
    unfold MultiSource.member, MultiSource.typed;
    cbn [JS.lookup String.eqb Ascii.eqb Bool.eqb rbind MultiSource.as_number
         SingleSource.as_optional_string];
    rewrite Hgroups; repeat split.
Qed.

(** X25.  Persist, then load, in the single-source program: for every
    state whose step bodies compile, [load] run on the record that [save]
    stored returns normally with the same source and active index and with
    every step rebuilt from its body text; it keeps the content it had,
    and it starts a fetch, of the trimmed value of the url field, exactly
    when the stored source is a non-empty string. *)
Theorem single_persist_then_load
    (field : string -> string) (a fresh : SingleSource.App)
    (store : option string) (events events' : list Event) :
  SingleSource.bodies_compile a ->
  let w1 := snd (SingleSource.save (mkWorld a store events)) in
  SingleSource.load field (mkWorld fresh (localStorage w1) events')
  = (Ok tt,
     mkWorld
       (SingleSource.mkApp (SingleSource.source a) (SingleSource.content fresh)
          (List.map (List.map MultiSource.reloaded) (SingleSource.filtersGroups a))
          (SingleSource.activeFilterGroup a))
       (localStorage w1)
       (events' ++ match SingleSource.source a with
                   | Some s =>
                       if String.eqb s "" then []
                       else [Fetch (Str.trim (field s))]
                   | None => []
                   end)).
Proof.
  intros Hc w1. unfold w1. rewrite single_save_storage. cbn [snd localStorage this].
  unfold SingleSource.load. cbn [localStorage].
  assert (Hnonempty : String.eqb (print (SingleSource.state_tree a)) EmptyString
                      = false).
  { unfold SingleSource.state_tree. destruct (SingleSource.source a); reflexivity. }
  rewrite Hnonempty.
  destruct (single_parse_state Hc)
    as (data & Hparse & Hfilters & Hactive & Hsource).
  cbv [bind lift get_this put_this].
  rewrite Hparse, Hfilters, Hactive, Hsource.
  cbn [SingleSource.source SingleSource.filtersGroups
       SingleSource.activeFilterGroup this localStorage log SingleSource.content].
  unfold SingleSource.loadJson, emit.
  destruct (SingleSource.source a) as [s|].
  - destruct (String.eqb s EmptyString).
    + unfold ret. rewrite app_nil_r. reflexivity.
    + reflexivity.
  - unfold ret. rewrite app_nil_r. reflexivity.
Qed.

End SinglePersistence.

Lemma single_persist_then_load_witness :
  let a := SingleSource.mkApp (Some "u/a.json"%string) (VNum 1)
             [[mkFilter "f" (Some "return e.x>1;"%string) "filter"
                 (Examples.fn "return e.x>1;")]] 0 in
  let w1 := snd (SingleSource.save (mkWorld a None [])) in
  SingleSource.load (engine := MiniJS.engine) (fun s => s)
    (mkWorld (SingleSource.mkApp None VUndefined [] 0) (localStorage w1) [])
  = (Ok tt,
     mkWorld
       (SingleSource.mkApp (Some "u/a.json"%string) VUndefined
          [[Examples.step "f" "filter" "return e.x>1;"]] 0)
       (localStorage w1) [Fetch "u/a.json"]).
Proof.
  apply (@single_persist_then_load MiniJS.engine (fun s => s)
           (SingleSource.mkApp (Some "u/a.json"%string) (VNum 1)
              [[mkFilter "f" (Some "return e.x>1;"%string) "filter"
                  (Examples.fn "return e.x>1;")]] 0)
           (SingleSource.mkApp None VUndefined [] 0) None [] []).
  intros g f [<-|[]] [<-|[]]. reflexivity.
Defined.

(** ** Debounced calls *)

Section DebounceProperties.
Import Debounce.
Variable A : Type.

(** One timer is pending, the one of the call at [t] with [a], and the
    closure holds its handle. *)
Lemma run_from_pending (timeout : Z) (events : list (Z * A)) :
  0 <= timeout ->
  forall (h : nat) (t : Z) (a : A) (n : nat) (done : list (Z * A)),
    let st := run timeout events
                (Some h, mkLoop n [mkTimer h (t + timeout) a] done) in
    calls (settle (snd st))
    = done ++ List.map (fun e => (fst e + timeout, snd e))
                (last_of_bursts timeout ((t, a) :: events))
    /\ (List.length (pending (snd st)) <= 1)%nat.
Proof.
  intro Htimeout. induction events as [|[now b] rest IH]; intros h t a n done.
  - cbn. split; [reflexivity|lia].
  - cbn [run]. unfold debounced, advance.
    cbn [fst snd pending next calls fire due args].
    destruct (t + timeout <=? now) eqn:Hdue;
      cbn [fst snd clearTimeout setTimeout pending next calls List.filter
           handle negb insert];
      rewrite ?Nat.eqb_refl; cbn [negb insert];
      replace (now + Z.max 0 timeout) with (now + timeout) by lia;
      rewrite ?app_nil_r.
    + destruct (IH n now b (S n) (done ++ [(t + timeout, a)])) as [Hcalls Hone].
      cbv zeta in Hcalls, Hone. split; [|exact Hone].
      rewrite Hcalls. cbn [last_of_bursts fst]. rewrite Hdue.
      cbn [List.map fst snd]. rewrite <- app_assoc. reflexivity.
    + destruct (IH n now b (S n) done) as [Hcalls Hone].
      cbv zeta in Hcalls, Hone. split; [|exact Hone].
      rewrite Hcalls. cbn [last_of_bursts fst]. rewrite Hdue. reflexivity.
Qed.

(** X26.  Of the calls of a debounced function, [func] receives those
    that no later call overtakes, each [timeout] after it was made and with
    its own arguments: a call is dropped exactly when the next one comes
    before its timer is due.  At no time is more than one timer pending. *)
Theorem debounce_passes_the_last_call_of_each_burst
    (timeout : Z) (events : list (Z * A)) :
  0 <= timeout ->
  let st := run timeout events (None, start A) in
  calls (settle (snd st))
  = List.map (fun e => (fst e + timeout, snd e)) (last_of_bursts timeout events)
  /\ (List.length (pending (snd st)) <= 1)%nat.
Proof.
  intro Htimeout. destruct events as [|[now a] rest].
  - cbn. split; [reflexivity|lia].
  - cbn [run]. unfold debounced, advance, start.
    cbn [fst snd pending next calls fire clearTimeout setTimeout insert app].
    replace (now + Z.max 0 timeout) with (now + timeout) by lia.
    apply (run_from_pending rest Htimeout 1 now a 2 []).
Qed.

Lemma last_cons (x d : Z * A) (l : list (Z * A)) :
  List.last (x :: l) d = List.last l x.
Proof.
  revert x d. induction l as [|y l IH]; intros x d; [reflexivity|].
  change (List.last (x :: y :: l) d) with (List.last (y :: l) d).
  rewrite (IH y d), (IH y x). reflexivity.
Qed.

Lemma last_of_burst (timeout : Z) (e : Z * A) (events : list (Z * A)) :
  burst timeout (e :: events) = true ->
  last_of_bursts timeout (e :: events) = [List.last events e].
Proof.
  revert e. induction events as [|e' rest IH]; intros e Hburst; [reflexivity|].
  change (burst timeout (e :: e' :: rest))
    with ((fst e' <? fst e + timeout) && burst timeout (e' :: rest)) in Hburst.
  apply andb_true_iff in Hburst. destruct Hburst as [Hnear Hrest].
  change (last_of_bursts timeout (e :: e' :: rest))
    with (if fst e + timeout <=? fst e'
          then e :: last_of_bursts timeout (e' :: rest)
          else last_of_bursts timeout (e' :: rest)).
  apply Z.ltb_lt in Hnear.
  assert (Hdue : (fst e + timeout <=? fst e') = false) by (apply Z.leb_gt; lia).
  rewrite Hdue, (IH e' Hrest), last_cons. reflexivity.
Qed.

(** X27.  A burst of calls, each less than [timeout] after the one
    before, reaches [func] once: with the arguments of the last call,
    [timeout] after it. *)
Theorem debounce_coalesces_a_burst
    (timeout : Z) (e : Z * A) (events : list (Z * A)) :
  0 <= timeout ->
  burst timeout (e :: events) = true ->
  calls (settle (snd (run timeout (e :: events) (None, start A))))
  = [(fst (List.last events e) + timeout, snd (List.last events e))].
Proof.
  intros Htimeout Hburst.
  destruct e as [now a]. cbn [run]. unfold debounced, advance, start.
  cbn [fst snd pending next calls fire clearTimeout setTimeout insert app].
  replace (now + Z.max 0 timeout) with (now + timeout) by lia.
  destruct (run_from_pending events Htimeout 1 now a 2 []) as [Hcalls _].
  cbv zeta in Hcalls. rewrite Hcalls.
  rewrite (last_of_burst _ _ _ Hburst). reflexivity.
Qed.

End DebounceProperties.

Lemma debounce_passes_the_last_call_of_each_burst_witness :
  Debounce.calls
    (Debounce.settle
       (snd (Debounce.run 300
               [(0, "a"%string); (100, "ab"%string); (250, "abc"%string);
                (900, "abcd"%string)]
               (None, Debounce.start string))))
  = [(550, "abc"%string); (1200, "abcd"%string)].
Proof.
  apply (proj1 (@debounce_passes_the_last_call_of_each_burst string 300
                  [(0, "a"%string); (100, "ab"%string); (250, "abc"%string);
                   (900, "abcd"%string)] ltac:(lia))).
Defined.

Lemma debounce_coalesces_a_burst_witness :
  Debounce.calls
    (Debounce.settle
       (snd (Debounce.run 300
               [(0, "a"%string); (100, "ab"%string); (250, "abc"%string)]
               (None, Debounce.start string))))
  = [(550, "abc"%string)].
Proof.
  apply (@debounce_coalesces_a_burst string 300 (0, "a"%string)
           [(100, "ab"%string); (250, "abc"%string)]); [lia|reflexivity].
Defined.

(** ** The list of sources *)

Section SourceList.
Import Dom.

Lemma split_cons (c : ascii) (s : string) :
  exists part parts, split c s = part :: parts.
Proof.
  destruct s as [|a rest]; cbn [split]; [eauto|].
  destruct (Ascii.eqb a c); [eauto|].
  destruct (split c rest); eauto.
Qed.

Lemma join_cons (sep x y : string) (l : list string) :
  Str.join sep (x :: y :: l) = (x ++ sep ++ Str.join sep (y :: l))%string.
Proof. reflexivity. Qed.

Lemma last_default {A} (x d d' : A) (l : list A) :
  List.last (x :: l) d = List.last (x :: l) d'.
Proof.
  revert x. induction l as [|y l IH]; intro x; [reflexivity|].
  change (List.last (x :: y :: l) d) with (List.last (y :: l) d).
  change (List.last (x :: y :: l) d') with (List.last (y :: l) d').
  apply IH.
Qed.

Lemma last_In {A} (l : list A) (d : A) : In (List.last l d) (d :: l).
Proof.
  revert d. induction l as [|x l IH]; intro d; [left; reflexivity|].
  right. destruct l as [|y l]; [left; reflexivity|].
  change (List.last (x :: y :: l) d) with (List.last (y :: l) d).
  rewrite (last_default y d x). apply IH.
Qed.

(** The text is its parts joined by the separator, and no part holds the
    separator. *)
Lemma split_join (c : ascii) (s : string) :
  Str.join (String c "") (split c s) = s
  /\ Forall (fun part => Str.indexOf c part = -1) (split c s).
Proof.
  induction s as [|a rest IH]; cbn [split].
  - split; [reflexivity|]. constructor; [reflexivity|constructor].
  - destruct IH as [Hjoin Hparts]. destruct (split_cons c rest) as (part & parts & Hsplit).
    rewrite Hsplit in *. destruct (Ascii.eqb a c) eqn:Hac.
    + apply Ascii.eqb_eq in Hac. subst a. split.
      * rewrite join_cons, Hjoin. reflexivity.
      * constructor; [reflexivity|exact Hparts].
    + pose proof (Forall_inv Hparts) as Hpart.
      pose proof (Forall_inv_tail Hparts) as Hrest. cbv beta in Hpart. split.
      * rewrite <- Hjoin. destruct parts; reflexivity.
      * constructor; [|exact Hrest].
        cbn [Str.indexOf]. rewrite Hac, Hpart. reflexivity.
Qed.

Lemma join_last (sep : string) (parts : list string) (part : string) :
  exists prefix,
    Str.join sep (part :: parts) = (prefix ++ List.last parts part)%string
    /\ (prefix = EmptyString \/ exists p, prefix = (p ++ sep)%string).
Proof.
  revert part. induction parts as [|x parts IH]; intro part.
  - exists EmptyString. split; [reflexivity|left; reflexivity].
  - destruct (IH x) as (prefix & Hjoin & Hprefix).
    exists (part ++ sep ++ prefix)%string. split.
    + rewrite join_cons, Hjoin, !append_assoc.
      destruct parts as [|y parts]; [reflexivity|].
      change (List.last (x :: y :: parts) part) with (List.last (y :: parts) part).
      rewrite (last_default y x part). reflexivity.
    + right. destruct Hprefix as [->|(p & ->)].
      * exists part. rewrite append_nil_r. reflexivity.
      * exists (part ++ sep ++ p)%string. rewrite !append_assoc. reflexivity.
Qed.

Lemma at_minus_one {A} (x : A) (l : list A) :
  JS.at_ (x :: l) (-1) = Some (List.last l x).
Proof.
  unfold JS.at_.
  assert (Hneg : (-1 <? 0) = true) by reflexivity. rewrite Hneg.
  assert (Hk : Z.of_nat (List.length (x :: l)) + -1 = Z.of_nat (List.length l))
    by (cbn [List.length]; lia).
  rewrite Hk.
  assert (Hpos : (Z.of_nat (List.length l) <? 0) = false)
    by (apply Z.ltb_ge; lia).
  rewrite Hpos, Nat2Z.id. clear.
  revert x. induction l as [|y l IH]; intro x; [reflexivity|].
  cbn [List.length nth_error]. rewrite IH. f_equal.
  destruct l as [|z l]; [reflexivity|].
  change (List.last (y :: z :: l) x) with (List.last (z :: l) x).
  apply last_default.
Qed.

(** X28.  The field that shows a source in the list holds the part of
    the url after its last slash, the whole url when it has none.  When
    that part is empty (an empty url, or a url that ends in a slash) the
    field gets no [value] attribute at all, and shows its placeholder. *)
Theorem source_field_shows_the_last_segment (address : string) :
  exists prefix label,
    address = (prefix ++ label)%string
    /\ Str.indexOf "/" label = -1
    /\ (prefix = EmptyString \/ exists p, prefix = (p ++ "/")%string)
    /\ attributes (source_field address)
       = [("class", "input-cl"); ("type", "url"); ("readonly", "")]%string
         ++ (if String.eqb label "" then [] else [("value"%string, label)])
         ++ [("placeholder", "https://urltofile.json")]%string.
Proof.
  destruct (split_cons "/" address) as (part & parts & Hsplit).
  destruct (split_join "/" address) as [Hjoin Hparts].
  rewrite Hsplit in Hjoin, Hparts.
  destruct (join_last "/" parts part) as (prefix & Hlast & Hprefix).
  exists prefix, (List.last parts part).
  split; [rewrite <- Hjoin; exact Hlast|]. split.
  - rewrite Forall_forall in Hparts. apply Hparts, last_In.
  - split; [exact Hprefix|].
    unfold source_field, createElement. cbn [props]. rewrite Hsplit, at_minus_one.
    cbn [set_props]. destruct (String.eqb (List.last parts part) EmptyString);
      reflexivity.
Qed.

End SourceList.

Example source_field_of_a_file :
  Dom.attributes (Dom.source_field "https://host/data/a.json")
  = [("class", "input-cl"); ("type", "url"); ("readonly", "");
     ("value", "a.json"); ("placeholder", "https://urltofile.json")]%string.
Proof. reflexivity. Qed.

Example source_field_of_a_folder :
  Dom.attributes (Dom.source_field "https://host/data/")
  = [("class", "input-cl"); ("type", "url"); ("readonly", "");
     ("placeholder", "https://urltofile.json")]%string.
Proof. reflexivity. Qed.

(** ** Loading content in the single-source program *)

Section SingleLoad.
Context {engine : Engine}.
Import JSON.

Lemma single_process_this (w : World SingleSource.App) :
  this (snd (SingleSource.process w)) = this w
  /\ localStorage (snd (SingleSource.process w)) = localStorage w
  /\ List.filter is_StorageSet (log (snd (SingleSource.process w)))
     = List.filter is_StorageSet (log w).
Proof.
  unfold SingleSource.process, bind, get_this, lift, emit, ret.
  cbv beta iota zeta.
  destruct (negb (JS.truthy (SingleSource.content (this w))));
    [repeat split; reflexivity|].
  destruct (JS.at_ _ _) as [filters|].
  - destruct (SingleSource.run_filters filters _) as [[v|]| |]; cbn;
      repeat split; try reflexivity;
      rewrite filter_app, app_nil_r; reflexivity.
  - cbn. repeat split; try reflexivity.
    rewrite filter_app, app_nil_r; reflexivity.
Qed.

(** X29.  When the fetch of [loadJson] resolves, content and source are
    replaced together, before the run.  The handler always returns: when
    the run returns the new state is stored; when a transform throws, the
    user is told that loading failed, the stored record is the old one,
    and content and source stay replaced. *)
Theorem single_fetch_replaces_content_and_source
    (w : World SingleSource.App) (address : string) (item : Value) :
  let a' := SingleSource.mkApp (Some address) item
              (SingleSource.filtersGroups (this w))
              (SingleSource.activeFilterGroup (this w)) in
  let r := SingleSource.jsonFetched address item w in
  let ran := SingleSource.process (mkWorld a' (localStorage w) (log w)) in
  this (snd r) = a'
  /\ (forall e, fst r <> Thrown e)
  /\ (fst ran = Ok tt ->
      fst r = Ok tt
      /\ localStorage (snd r) = Some (print (SingleSource.state_tree a')))
  /\ (forall e, fst ran = Thrown e ->
      fst r = Ok tt
      /\ localStorage (snd r) = localStorage w
      /\ log (snd r)
         = log (snd ran)
           ++ [ConsoleError e; Alert "There was an error loading the json file"]).
Proof.
  intros a' r ran.
  set (w1 := mkWorld a' (localStorage w) (log w)) in *.
  destruct (single_process_this w1) as (Hthis & Hstore & _).
  assert (Hr : r = match ran with
                   | (Ok _, w2) => SingleSource.save w2
                   | (Thrown e, w2) =>
                       (Ok tt,
                        mkWorld (this w2) (localStorage w2)
                          (log w2 ++ [ConsoleError e;
                                      Alert "There was an error loading the json file"]))
                   | (Stuck, w2) => (Stuck, w2)
                   end).
  { change r with (try_catch (SingleSource.process ;; SingleSource.save)
                     (fun error =>
                        emit (ConsoleError error) ;;
                        emit (Alert "There was an error loading the json file"))
                     w1).
    unfold try_catch, bind at 1. fold ran.
    destruct ran as [[[]| |] w2].
    - rewrite single_save_storage. reflexivity.
    - unfold bind, emit. cbn [this localStorage log]. rewrite <- app_assoc.
      reflexivity.
    - reflexivity. }
  fold ran in Hthis, Hstore. clearbody r ran. subst r.
  destruct ran as [[[]| |] w2]; cbn [fst snd] in *.
  - rewrite single_save_storage. cbn [fst snd this localStorage].
    rewrite Hthis. repeat split; try discriminate; try reflexivity.
  - cbn [this localStorage log].
    repeat split; try discriminate; try assumption; try reflexivity.
    match goal with H : Thrown _ = Thrown _ |- _ => injection H as <- end.
    reflexivity.
  - repeat split; try discriminate; try assumption.
Qed.

End SingleLoad.

Lemma kind_change_never_saves_witness :
  let w := Examples.shown_world in
  let r := MultiSource.selectTypeChange (engine := MiniJS.engine)
             "m10" "filter" w in
  localStorage (snd r) = localStorage w
  /\ exists evs,
       log (snd r)
       = log w ++ ConsoleLog (MultiSource.seed (this w)) :: evs
       /\ (evs = [] \/ exists v, evs = [ViewerSet v]).
Proof.
  split.
  - apply (proj1 (@kind_change_never_saves MiniJS.engine "m10" "filter")
             Examples.shown_world).
  - destruct (proj2 (@kind_change_never_saves MiniJS.engine "m10" "filter")
                Examples.shown_world [Examples.map_x10] 0%nat
                eq_refl eq_refl ltac:(discriminate))
      as (e & _ & _ & Hlog).
    exact Hlog.
Defined.

Lemma remove_step_never_saves_witness :
  let w := Examples.shown_world in
  let r := MultiSource.removeFilterClick (engine := MiniJS.engine) "m10" w in
  localStorage (snd r) = localStorage w
  /\ exists evs,
       log (snd r)
       = log w ++ ConsoleLog (MultiSource.seed (this w)) :: evs
       /\ (evs = [] \/ exists v, evs = [ViewerSet v]).
Proof.
  split.
  - apply (proj1 (@remove_step_never_saves MiniJS.engine "m10")
             Examples.shown_world).
  - destruct (proj2 (@remove_step_never_saves MiniJS.engine "m10")
                Examples.shown_world [Examples.map_x10] eq_refl)
      as (w2 & _ & _ & Hlog).
    exact Hlog.
Defined.

(** The handlers at work: after the kind of the one step [map e*10] is
    changed to [filter] the viewer shows the run of the new pipeline, and
    after the step is removed it shows the content as it is; the stored
    record stays what it was. *)
Example kind_change_shows_the_new_run :
  let r := MultiSource.selectTypeChange (engine := MiniJS.engine)
             "m10" "filter" Examples.shown_world in
  displayed (log (snd r)) = Some (VArr [VNum 7])
  /\ localStorage (snd r) = None.
Proof. split; reflexivity. Qed.

Example remove_step_shows_the_new_run :
  let r := MultiSource.removeFilterClick (engine := MiniJS.engine)
             "m10" Examples.shown_world in
  displayed (log (snd r)) = Some (VArr [VNum 7])
  /\ localStorage (snd r) = None.
Proof. split; reflexivity. Qed.

(** Editing the source [a] of two loaded sources: its url is replaced on
    submit, its data when the fetch resolves. *)
Example edit_source_replaces_one_url :
  MultiSource.sources
    (this (snd (MultiSource.submitEdit (Some "a"%string) (Some " u/c.json "%string)
                  Examples.both_loaded)))
  = [mkSource "a" "u/c.json"; mkSource "b" "u/b.json"]
  /\ MultiSource.content
       (this (snd (MultiSource.editFetched (engine := MiniJS.engine)
                     "a" (VNum 3) Examples.both_loaded)))
     = [mkContent "a" (VNum 3); mkContent "b" (VNum 2)].
Proof. split; reflexivity. Qed.

(** The no-break space U+00A0 is white space for [trim]. *)
Example trim_removes_no_break_space :
  Str.trim (String (ascii_of_nat 160) "return e;" ++ String (ascii_of_nat 160) "")
  = "return e;"%string
  /\ MultiSource.all_space (String (ascii_of_nat 160) "") = true.
Proof. split; reflexivity. Qed.

(** A key that names a member of [Object.prototype] reads that member,
    a native function, which is no value of the model: the run is
    [Stuck]. *)
Example select_of_an_inherited_member :
  MultiSource.run_filters (engine := MiniJS.engine)
    [Examples.step "c" "select" "return 'constructor';"] Examples.object_a1
  = Stuck.
Proof. reflexivity. Qed.
